(** * Temporal aggregation of the activity dashboard (src/App.jsx)

    A shallow embedding of the two aggregation passes of [App.jsx]:
    [BarGraph.processedData] (status tallies and period-over-period trend)
    and [HeatmapChart.processDataByGranularity] (activity type x period
    cells with dominant status and intensity), for the daily, weekly and
    monthly granularities, and of the state of the component [App] that
    feeds them: the filters and their handlers, the filter chips, the
    statistics, the data of a tab and the throttle of the cell clicks.
    The properties of these functions follow the definitions.

    Conventions of the embedding.
    - An event is a record of strings and a status; a falsy field of the
      JavaScript object is the empty string.
    - JavaScript numbers that are counts are [nat]; the numbers obtained
      by division are the type [number]: a rational, the two infinities,
      or NaN.  A quotient and a product are rounded as binary64 rounds
      them, to the nearest number with 53 significant bits, a tie going to
      the even one ([binary64]).  The exponent range of binary64 (overflow,
      subnormal numbers) and the sign of zero are not represented; counts
      are converted exactly, as they are below 2^53.
    - The [date-fns] functions the component imports are in module
      [DateFns], as date-fns 2 defines them: a [Date] is an instant in
      milliseconds of local time (no daylight-saving shift) or the invalid
      date; [parseISO] reads a calendar date in the form [YYYY-MM-DD] or
      [YYYYMMDD], alone or followed by [THH:mm:ss], and yields the
      invalid date on [undefined]; of the further forms that date-fns
      reads the embedding reads none, and a theorem that depends on the
      reading of the dates states in a hypothesis which dates it is about;
      [format] throws on the invalid date; [eachWeekOfInterval] throws on
      an invalid or reversed interval.
    - A JavaScript exception is the result [None].
    - Of the markup, the labels of the period axis, the choice of the
      cells that are drawn and the opacity of a cell are part of the
      embedding; the scales and the rest of the markup are not. *)

From Stdlib Require Import ZArith QArith Qround Qpower String Ascii List Lia Lqa.
From stdpp Require Import gmap strings list sorting pretty.

Local Open Scope Z_scope.

(** ** JavaScript numbers *)

Inductive number : Type :=
  | Num (q : Q)
  | PosInf
  | NegInf
  | NaN.

Definition of_int (z : Z) : number := Num (inject_Z z).

Definition inf_of_sign (negative : bool) : number :=
  if negative then NegInf else PosInf.

(** *** Rounding to binary64 *)

(** The exponent [e] of a positive rational: [2^e <= q < 2^(e+1)]. *)
Definition binade (q : Q) : Z :=
  let k := Z.log2 (Qnum q) - Z.log2 (Zpos (Qden q)) in
  if Qle_bool (2 ^ k) q then k else k - 1.

(** The nearest integer, a tie going to the even one. *)
Definition round_half_even (q : Q) : Z :=
  let f := Qfloor q in
  match (q - inject_Z f ?= 1 # 2)%Q with
  | Lt => f
  | Gt => f + 1
  | Eq => if Z.even f then f else f + 1
  end.

(** The nearest multiple of the unit in the last place of a positive
    rational, for a significand of 53 bits. *)
Definition nearest53 (q : Q) : Q :=
  let ulp := (2 ^ (binade q - 52))%Q in
  inject_Z (round_half_even (q / ulp)) * ulp.

(** The binary64 number that a real result is rounded to. *)
Definition binary64 (q : Q) : Q :=
  match Qnum q with
  | 0 => 0
  | Zpos _ => nearest53 q
  | Zneg _ => - nearest53 (- q)
  end.

(** [x / y] on numbers. *)
Definition js_div (x y : number) : number :=
  match x, y with
  | Num a, Num b =>
      if Qeq_bool b 0 then
        (if Qeq_bool a 0 then NaN else inf_of_sign (negb (Qle_bool 0 a)))
      else Num (Qred (binary64 (a / b)))
  | Num _, (PosInf | NegInf) => Num 0
  | PosInf, Num b => inf_of_sign (negb (Qle_bool 0 b))
  | NegInf, Num b => inf_of_sign (Qle_bool 0 b)
  | _, _ => NaN
  end.

(** [x * y] on numbers. *)
Definition js_mul (x y : number) : number :=
  match x, y with
  | Num a, Num b => Num (Qred (binary64 (a * b)))
  | Num a, PosInf | PosInf, Num a =>
      if Qeq_bool a 0 then NaN else inf_of_sign (negb (Qle_bool 0 a))
  | Num a, NegInf | NegInf, Num a =>
      if Qeq_bool a 0 then NaN else inf_of_sign (Qle_bool 0 a)
  | PosInf, PosInf | NegInf, NegInf => PosInf
  | PosInf, NegInf | NegInf, PosInf => NegInf
  | _, _ => NaN
  end.

(** [Math.round]: the nearest integer, a tie going up. *)
Definition Math_round (x : number) : number :=
  match x with
  | Num q => of_int (Qfloor (q + (1 # 2)))
  | _ => x
  end.

(** [x > y] and [x < y]; a comparison with NaN is false. *)
Definition js_gt (x y : number) : bool :=
  match x, y with
  | Num a, Num b => negb (Qle_bool a b)
  | PosInf, (Num _ | NegInf) => true
  | Num _, NegInf => true
  | _, _ => false
  end.

Definition js_lt (x y : number) : bool := js_gt y x.

(** [Math.max(...l, 1)] on counts. *)
Definition Math_max_1 (l : list nat) : nat := foldr Nat.max 1%nat l.

(** [n / d] for two counts. *)
Definition ratio (n d : nat) : number :=
  js_div (of_int (Z.of_nat n)) (of_int (Z.of_nat d)).

(** ** The functions imported from date-fns *)

Module DateFns.

Inductive Date : Type :=
  | Instant (ms : Z)
  | InvalidDate.

Definition msPerDay : Z := 86400000.
Definition msPerWeek : Z := 7 * msPerDay.

Definition isLeapYear (y : Z) : bool :=
  (y mod 400 =? 0) || ((y mod 4 =? 0) && negb (y mod 100 =? 0)).

Definition daysInMonth (y m : Z) : Z :=
  if m =? 2 then (if isLeapYear y then 29 else 28)
  else if (m =? 4) || (m =? 6) || (m =? 9) || (m =? 11) then 30
  else 31.

(** Days from 1970-01-01 to the civil date [y]-[m]-[d]. *)
Definition days_from_civil (y m d : Z) : Z :=
  let y' := if m <=? 2 then y - 1 else y in
  let era := y' / 400 in
  let yoe := y' - era * 400 in
  let mp := (m + 9) mod 12 in
  let doy := (153 * mp + 2) / 5 + d - 1 in
  let doe := yoe * 365 + yoe / 4 - yoe / 100 + doy in
  era * 146097 + doe - 719468.

(** The civil date (year, month, day) of a day number. *)
Definition civil_from_days (z : Z) : Z * Z * Z :=
  let z' := z + 719468 in
  let era := z' / 146097 in
  let doe := z' - era * 146097 in
  let yoe := (doe - doe / 1460 + doe / 36524 - doe / 146096) / 365 in
  let doy := doe - (365 * yoe + yoe / 4 - yoe / 100) in
  let mp := (5 * doy + 2) / 153 in
  let d := doy - (153 * mp + 2) / 5 + 1 in
  let m := if mp <? 10 then mp + 3 else mp - 9 in
  let y := yoe + era * 400 in
  (if m <=? 2 then y + 1 else y, m, d).

Definition digit_val (c : ascii) : option Z :=
  let n := Z.of_nat (nat_of_ascii c) in
  if (48 <=? n) && (n <=? 57) then Some (n - 48) else None.

Definition two_digits (a b : ascii) : option Z :=
  x ← digit_val a; y ← digit_val b; Some (10 * x + y).

Definition four_digits (a b c d : ascii) : option Z :=
  x ← two_digits a b; y ← two_digits c d; Some (100 * x + y).

Definition parse_date (y1 y2 y3 y4 m1 m2 d1 d2 : ascii) : option Z :=
  y ← four_digits y1 y2 y3 y4;
  m ← two_digits m1 m2;
  d ← two_digits d1 d2;
  if (1 <=? m) && (m <=? 12) && (1 <=? d) && (d <=? daysInMonth y m)
  then Some (days_from_civil y m d * msPerDay) else None.

Definition parse_time (h1 h2 n1 n2 s1 s2 : ascii) : option Z :=
  h ← two_digits h1 h2;
  n ← two_digits n1 n2;
  s ← two_digits s1 s2;
  if (h <=? 23) && (n <=? 59) && (s <=? 59)
  then Some (h * 3600000 + n * 60000 + s * 1000) else None.

(** What follows the calendar date: nothing, or [THH:mm:ss]. *)
Definition parse_time_string (s : string) : option Z :=
  match s with
  | EmptyString => Some 0
  | String t (String h1 (String h2 (String c (String n1 (String n2
      (String e (String s1 (String s2 EmptyString)))))))) =>
      if (t =? "T")%char && (c =? ":")%char && (e =? ":")%char
      then parse_time h1 h2 n1 n2 s1 s2 else None
  | _ => None
  end.

Definition of_option (o : option Z) : Date :=
  match o with Some t => Instant t | None => InvalidDate end.

(** A calendar date in the basic form [YYYYMMDD], alone or followed by
    the time. *)
Definition parseISO_basic (s : string) : Date :=
  match s with
  | String y1 (String y2 (String y3 (String y4 (String m1 (String m2
      (String d1 (String d2 rest))))))) =>
      of_option (day ← parse_date y1 y2 y3 y4 m1 m2 d1 d2;
                 time ← parse_time_string rest;
                 Some (day + time))
  | _ => InvalidDate
  end.

(** [parseISO]: a calendar date in the extended form [YYYY-MM-DD] or in
    the basic form [YYYYMMDD], alone or followed by [THH:mm:ss].  date-fns
    reads further forms of ISO 8601 (a date without its day, a week or an
    ordinal date, other forms of the time, a time zone); the embedding does
    not read them and yields the invalid date there, and every theorem
    that depends on how the dates are read says so in a hypothesis. *)
Definition parseISO (s : string) : Date :=
  match s with
  | String y1 (String y2 (String y3 (String y4 (String a (String m1
      (String m2 (String b (String d1 (String d2 rest))))))))) =>
      if (a =? "-")%char && (b =? "-")%char
      then of_option (day ← parse_date y1 y2 y3 y4 m1 m2 d1 d2;
                      time ← parse_time_string rest;
                      Some (day + time))
      else parseISO_basic s
  | _ => parseISO_basic s
  end.

(** [parseISO(dates[i])] where the index may be out of range. *)
Definition parseISO_at (o : option string) : Date :=
  match o with Some s => parseISO s | None => InvalidDate end.

(** Weeks start on Sunday; 1970-01-01 was a Thursday. *)
Definition startOfWeek_ms (t : Z) : Z :=
  let day := t / msPerDay in
  (day - (day + 4) mod 7) * msPerDay.

Definition startOfWeek (d : Date) : Date :=
  match d with
  | Instant t => Instant (startOfWeek_ms t)
  | InvalidDate => InvalidDate
  end.

Definition endOfWeek (d : Date) : Date :=
  match d with
  | Instant t => Instant (startOfWeek_ms t + msPerWeek - 1)
  | InvalidDate => InvalidDate
  end.

(** The starts of the weeks from the week of [s] to the week of [e]; a
    RangeError when a bound is invalid or [e] is before [s]. *)
Definition eachWeekOfInterval (s e : Date) : option (list Date) :=
  match s, e with
  | Instant a, Instant b =>
      if b <? a then None
      else
        let first := startOfWeek_ms a in
        let last := startOfWeek_ms b in
        Some ((λ k, Instant (first + k * msPerWeek))
                <$> seqZ 0 ((last - first) / msPerWeek + 1))
  | _, _ => None
  end.

(** [a >= b] and [a <= b] on dates; false when a side is invalid. *)
Definition date_ge (a b : Date) : bool :=
  match a, b with Instant x, Instant y => y <=? x | _, _ => false end.

Definition date_le (a b : Date) : bool := date_ge b a.

Inductive pattern : Type := yyyy_MM | yyyy_MM_dd | MMM_dd | MMM_yyyy.

Definition digit (n : Z) : ascii := ascii_of_nat (Z.to_nat (48 + n mod 10)).

Definition pad2 (n : Z) : string :=
  String (digit (n / 10)) (String (digit n) EmptyString).

(** The token [yyyy]: the year of the era, at least four digits. *)
Definition pad_year (y : Z) : string :=
  let y' := if 0 <? y then y else 1 - y in
  if y' <? 10000 then (pad2 (y' / 100) +:+ pad2 (y' mod 100))%string
  else pretty y'.

Definition month_name (m : Z) : string :=
  match m with
  | 1 => "Jan" | 2 => "Feb" | 3 => "Mar" | 4 => "Apr" | 5 => "May"
  | 6 => "Jun" | 7 => "Jul" | 8 => "Aug" | 9 => "Sep" | 10 => "Oct"
  | 11 => "Nov" | _ => "Dec"
  end.

(** [format(d, p)]: a RangeError on the invalid date. *)
Definition format (d : Date) (p : pattern) : option string :=
  match d with
  | InvalidDate => None
  | Instant t =>
      let '(y, m, day) := civil_from_days (t / msPerDay) in
      Some match p with
           | yyyy_MM => pad_year y +:+ "-" +:+ pad2 m
           | yyyy_MM_dd => pad_year y +:+ "-" +:+ pad2 m +:+ "-" +:+ pad2 day
           | MMM_dd => month_name m +:+ " " +:+ pad2 day
           | MMM_yyyy => month_name m +:+ " " +:+ pad_year y
           end
  end.

End DateFns.

Import DateFns.

(** ** Events *)

Inductive Status : Type := Success | Warning | Fail.

Global Instance Status_eq_dec : EqDecision Status.
Proof. solve_decision. Defined.

Global Instance Status_countable : Countable Status.
Proof.
  refine (inj_countable'
            (λ s, match s with Success => 0 | Warning => 1 | Fail => 2 end)%nat
            (λ n, match n with 0 => Success | 1 => Warning | _ => Fail end)%nat
            _).
  by intros [].
Defined.

Module Event.
Record Event : Type := {
  date : string;
  activityType : string;
  status : Status;
  user : string;
  device : string
}.
End Event.
Abbreviation Event := Event.Event.

Inductive Granularity : Type := daily | weekly | monthly.

Global Instance Granularity_eq_dec : EqDecision Granularity.
Proof. solve_decision. Defined.

(** A string in a condition: the empty string is falsy. *)
Definition truthy (s : string) : bool :=
  match s with EmptyString => false | _ => true end.

(** [Array.from(new Set(l))]: the distinct elements in the order of their
    first occurrence. *)
Definition Set_add `{EqDecision A} (acc : list A) (x : A) : list A :=
  if decide (x ∈ acc) then acc else acc ++ [x].

Definition Array_from_Set `{EqDecision A} (l : list A) : list A :=
  foldl Set_add [] l.

(** [l.sort()] on strings. *)
Definition sort (l : list string) : list string := merge_sort String.le l.

(** [l.map((x, index) => f)] where [f] may throw. *)
Definition map_index {A B} (f : nat → A → option B) (l : list A)
  : option (list B) :=
  mapM id (imap f l).

(** [l.filter(p)] where [p] may throw. *)
Fixpoint filterM {A} (p : A → option bool) (l : list A) : option (list A) :=
  match l with
  | [] => Some []
  | x :: l =>
      b ← p x;
      rest ← filterM p l;
      Some (if b : bool then x :: rest else rest)
  end.

(** The week window of the filters: [eventDate >= weekStart && eventDate
    <= weekEnd]. *)
Definition in_week (week : Date) (d : Event) : bool :=
  let eventDate := parseISO (Event.date d) in
  date_ge eventDate (startOfWeek week) && date_le eventDate (endOfWeek week).

(** ** BarGraph: [processedData] *)

Module BarGraph.

Inductive Direction : Type := up | down | stable.

(** The counters of a period: [{ period, total, success, warning, fail }]. *)
Record Tally : Type := {
  period : string;
  total : nat;
  success : nat;
  warning : nat;
  fail : nat
}.

(** An element of [processedData]: the counters of [counts] spread into
    it, with the label and the trend fields. *)
Record Bucket : Type := {
  counts : Tally;
  periodLabel : string;
  trend : number;
  trendDirection : Direction
}.

Definition zero (p : string) : Tally :=
  {| period := p; total := 0; success := 0; warning := 0; fail := 0 |}.

(** [t.total++; t[s]++] *)
Definition bump (t : Tally) (s : Status) : Tally :=
  match s with
  | Success => {| period := period t; total := S (total t);
                  success := S (success t); warning := warning t;
                  fail := fail t |}
  | Warning => {| period := period t; total := S (total t);
                  success := success t; warning := S (warning t);
                  fail := fail t |}
  | Fail => {| period := period t; total := S (total t);
               success := success t; warning := warning t;
               fail := S (fail t) |}
  end.

(** [trend > 0 ? 'up' : trend < 0 ? 'down' : 'stable'] *)
Definition direction (trend : number) : Direction :=
  if js_gt trend (of_int 0) then up
  else if js_lt trend (of_int 0) then down
  else stable.

(** [((a - b) / d) * 100] on counts. *)
Definition percent (a b d : nat) : number :=
  js_mul (js_div (of_int (Z.of_nat a - Z.of_nat b)) (of_int (Z.of_nat d)))
         (of_int 100).

Definition dates (data : list Event) : list string :=
  sort (Array_from_Set (Event.date <$> data)).

(** *** Monthly

    The loop [data.forEach] over [monthlyData] (a new month starts from
    zero counters; its [trend: 0] is overwritten by the result), then
    [Object.keys(monthlyData).sort()] and the map over the months.  A
    month key without an entry would make [current.total] throw. *)

Definition monthly_step (acc : option (gmap string Tally)) (item : Event)
  : option (gmap string Tally) :=
  monthlyData ← acc;
  month ← format (parseISO (Event.date item)) yyyy_MM;
  let current := default (zero month) (monthlyData !! month) in
  Some (<[month := bump current (Event.status item)]> monthlyData).

Definition monthlyData (data : list Event) : option (gmap string Tally) :=
  foldl monthly_step (Some ∅) data.

Definition monthly_bucket (monthlyData : gmap string Tally)
    (months : list string) (index : nat) (month : string) : option Bucket :=
  current ← monthlyData !! month;
  let previous :=
    if (0 <? index)%nat
    then months !! (index - 1)%nat ≫= (monthlyData !!.) else None in
  let trend :=
    match previous with
    | Some previous => percent (total current) (total previous) (total previous)
    | None => of_int 0
    end in
  periodLabel ← format (parseISO (month +:+ "-01")) MMM_yyyy;
  Some {| counts := current; periodLabel := periodLabel;
          trend := Math_round trend; trendDirection := direction trend |}.

Definition monthly_buckets (data : list Event) : option (list Bucket) :=
  monthlyData ← monthlyData data;
  let months := sort (map_to_list monthlyData).*1 in
  map_index (monthly_bucket monthlyData months) months.

(** *** Daily

    The loop over [dailyData], keyed by the date string of the event, and
    the map over [dates]; [dailyData[date] || {...}] and
    [dailyData[dates[index - 1]] || { total: 0 }] are the two defaults. *)

Definition daily_step (dailyData : gmap string Tally) (item : Event)
  : gmap string Tally :=
  let current :=
    default (zero (Event.date item)) (dailyData !! Event.date item) in
  <[Event.date item := bump current (Event.status item)]> dailyData.

Definition dailyData (data : list Event) : gmap string Tally :=
  foldl daily_step ∅ data.

Definition daily_bucket (dailyData : gmap string Tally)
    (dates : list string) (index : nat) (date : string) : option Bucket :=
  let current := default (zero date) (dailyData !! date) in
  let previous :=
    if (0 <? index)%nat
    then Some (default (zero "")
                 (dates !! (index - 1)%nat ≫= (dailyData !!.)))
    else None in
  let trend :=
    match previous with
    | Some previous =>
        percent (total current) (total previous) (Nat.max (total previous) 1)
    | None => of_int 0
    end in
  periodLabel ← format (parseISO date) MMM_dd;
  Some {| counts := current; periodLabel := periodLabel;
          trend := Math_round trend; trendDirection := direction trend |}.

Definition daily_buckets (data : list Event) : option (list Bucket) :=
  let dates := dates data in
  map_index (daily_bucket (dailyData data) dates) dates.

(** *** Weekly (the default)

    [dates[0]] and [dates[dates.length - 1]] are [undefined] on the empty
    collection; the week events are filtered out of [data] for the week
    and once more for the previous week. *)

Definition weekly_bucket (data : list Event) (weeks : list Date)
    (index : nat) (week : Date) : option Bucket :=
  let weekEvents := filter (λ d, in_week week d) data in
  period ← format week yyyy_MM_dd;
  let weekData := foldl bump (zero period) (Event.status <$> weekEvents) in
  let previousWeek :=
    if (0 <? index)%nat then weeks !! (index - 1)%nat else None in
  let trend :=
    match previousWeek with
    | Some previousWeek =>
        let prevWeekEvents := filter (λ d, in_week previousWeek d) data in
        if (0 <? length prevWeekEvents)%nat
        then percent (total weekData) (length prevWeekEvents)
                     (length prevWeekEvents)
        else of_int 0
    | None => of_int 0
    end in
  periodLabel ← format week MMM_dd;
  Some {| counts := weekData; periodLabel := periodLabel;
          trend := Math_round trend; trendDirection := direction trend |}.

Definition weekly_buckets (data : list Event) : option (list Bucket) :=
  let dates := dates data in
  let firstDate := parseISO_at (dates !! 0%nat) in
  let lastDate := parseISO_at (dates !! (length dates - 1)%nat) in
  weeks ← eachWeekOfInterval firstDate lastDate;
  map_index (weekly_bucket data weeks) weeks.

Definition processedData (data : list Event) (granularity : Granularity)
  : option (list Bucket) :=
  match granularity with
  | monthly => monthly_buckets data
  | daily => daily_buckets data
  | weekly => weekly_buckets data
  end.

End BarGraph.

(** ** HeatmapChart: [processDataByGranularity]

    [activityTypes], [dates] and [weeks] are computed in the body of the
    component at every granularity, before [gridData]. *)

Module HeatmapChart.

(** An element of [gridData]. *)
Record Cell : Type := {
  activityType : string;
  period : string;
  periodLabel : string;
  status : option Status;
  events : list Event;
  count : nat;
  intensity : number
}.

Definition activityTypes (data : list Event) : list string :=
  Array_from_Set
    (Event.activityType <$> filter (λ d, truthy (Event.activityType d)) data).

Definition dates (data : list Event) : list string :=
  sort (Array_from_Set
          (Event.date <$> filter (λ d, truthy (Event.date d)) data)).

(** The weekly bins, computed at every granularity; no bins without a
    valid date. *)
Definition weeks (data : list Event) : option (list Date) :=
  let validDates := filter (λ date, truthy date) (dates data) in
  if (0 <? length validDates)%nat
  then eachWeekOfInterval
         (parseISO_at (validDates !! 0%nat))
         (parseISO_at (validDates !! (length validDates - 1)%nat))
  else Some [].

(** [events.reduce((acc, event) => { acc[event.status] = (acc[event.status]
    || 0) + 1; return acc }, {})] *)
Definition statusCounts (events : list Event) : gmap Status nat :=
  foldl (λ acc event,
           <[Event.status event :=
               (default 0%nat (acc !! Event.status event) + 1)%nat]> acc)
        ∅ events.

(** A counter in a condition: absent and 0 are falsy. *)
Definition counted (o : option nat) : bool :=
  match o with Some (S _) => true | _ => false end.

Definition dominant (events : list Event) : Status :=
  let statusCounts := statusCounts events in
  if counted (statusCounts !! Fail) then Fail
  else if counted (statusCounts !! Warning) then Warning
  else Success.

Definition dayEvents (data : list Event) (activityType date : string)
  : list Event :=
  filter (λ d, bool_decide (Event.date d = date)
               && bool_decide (Event.activityType d = activityType)) data.

Definition daily_cell (data : list Event) (dates : list string)
    (activityType date : string) : option Cell :=
  let dayEvents := dayEvents data activityType date in
  let status :=
    if (0 <? length dayEvents)%nat then Some (dominant dayEvents) else None in
  let intensity :=
    if (0 <? length dayEvents)%nat
    then ratio (length dayEvents)
           (Math_max_1
              ((λ d, length (HeatmapChart.dayEvents data activityType d))
                 <$> dates))
    else of_int 0 in
  periodLabel ← format (parseISO date) MMM_dd;
  Some {| activityType := activityType; period := date;
          periodLabel := periodLabel; status := status;
          events := dayEvents; count := length dayEvents;
          intensity := intensity |}.

(** [data.filter(d => format(parseISO(d.date), 'yyyy-MM') === month &&
    d.activityType === activityType)]; the first invalid date throws. *)
Definition monthEvents (data : list Event) (activityType month : string)
  : option (list Event) :=
  filterM (λ d, eventMonth ← format (parseISO (Event.date d)) yyyy_MM;
                Some (bool_decide (eventMonth = month)
                      && bool_decide (Event.activityType d = activityType)))
          data.

Definition monthly_cell (data : list Event) (months : list string)
    (activityType month : string) : option Cell :=
  monthEvents ← monthEvents data activityType month;
  let status :=
    if (0 <? length monthEvents)%nat
    then Some (dominant monthEvents) else None in
  intensity ←
    (if (0 <? length monthEvents)%nat
     then sizes ← mapM (λ m, length <$>
                               HeatmapChart.monthEvents data activityType m)
                       months;
          Some (ratio (length monthEvents) (Math_max_1 sizes))
     else Some (of_int 0));
  periodLabel ← format (parseISO (month +:+ "-01")) MMM_yyyy;
  Some {| activityType := activityType; period := month;
          periodLabel := periodLabel; status := status;
          events := monthEvents; count := length monthEvents;
          intensity := intensity |}.

Definition weekEvents (data : list Event) (activityType : string)
    (week : Date) : list Event :=
  filter (λ d, bool_decide (Event.activityType d = activityType)
               && in_week week d) data.

Definition weekly_cell (data : list Event) (activityTypes : list string)
    (weeks : list Date) (activityType : string) (week : Date)
  : option Cell :=
  weekKey ← format week yyyy_MM_dd;
  let weekEvents := weekEvents data activityType week in
  let status :=
    if (0 <? length weekEvents)%nat
    then Some (dominant weekEvents) else None in
  let intensity :=
    if (0 <? length weekEvents)%nat
    then
      let maxEvents :=
        Math_max_1
          ((λ type,
              let typeWeeks :=
                (λ w, length (HeatmapChart.weekEvents data type w)) <$> weeks in
              Math_max_1 typeWeeks) <$> activityTypes) in
      ratio (length weekEvents) maxEvents
    else of_int 0 in
  periodLabel ← format week MMM_dd;
  Some {| activityType := activityType; period := weekKey;
          periodLabel := periodLabel; status := status;
          events := weekEvents; count := length weekEvents;
          intensity := intensity |}.

(** [activityTypes.map(activityType => periods.map(cell)).flat()] *)
Definition grid {P} (cell : string → P → option Cell)
    (activityTypes : list string) (periods : list P) : option (list Cell) :=
  mjoin <$> mapM (λ activityType, mapM (cell activityType) periods)
                  activityTypes.

Definition processDataByGranularity (data : list Event)
    (granularity : Granularity) (weeks : list Date) : option (list Cell) :=
  let activityTypes := activityTypes data in
  let dates := dates data in
  match granularity with
  | daily => grid (daily_cell data dates) activityTypes dates
  | monthly =>
      months ← Array_from_Set
                 <$> mapM (λ date, format (parseISO date) yyyy_MM) dates;
      grid (monthly_cell data months) activityTypes months
  | weekly => grid (weekly_cell data activityTypes weeks) activityTypes weeks
  end.

Definition gridData (data : list Event) (granularity : Granularity)
  : option (list Cell) :=
  weeks ← weeks data;
  processDataByGranularity data granularity weeks.

End HeatmapChart.

(** ** BarGraph: the labels of the period axis *)

(** [processedData.map((d, i) => i % Math.ceil(processedData.length / 8)
    === 0 ? <text>{d.periodLabel}</text> : null)]; the divisor is positive
    whenever the callback runs. *)
Definition xAxisLabels (processedData : list BarGraph.Bucket)
  : list (option string) :=
  imap (λ i d,
          if (i mod ((length processedData + 7) / 8) =? 0)%nat
          then Some (BarGraph.periodLabel d) else None)
       processedData.

(** ** HeatmapChart: the domains of the band scales *)

(** The [domain] of the scale that [getXScale] builds, the keys of the
    period columns; [weeks] is computed in the body of the component
    before it. *)
Definition xDomain (data : list Event) (g : Granularity)
  : option (list string) :=
  let dates := HeatmapChart.dates data in
  match g with
  | daily => Some (filter (λ date, truthy date) dates)
  | monthly =>
      Array_from_Set
        <$> mapM (λ date, format (parseISO date) yyyy_MM)
                 (filter (λ date, truthy date) dates)
  | weekly =>
      weeks ← HeatmapChart.weeks data;
      mapM (λ week, format week yyyy_MM_dd) weeks
  end.

(** The [domain] of [yScale], the keys of the rows. *)
Definition yDomain (data : list Event) : list string :=
  HeatmapChart.activityTypes data.

(** ** HeatmapChart: the cells that are drawn *)

(** [gridData.map(cell => { if (!cell.status) return null; ... })]: the
    cells for which an element is returned. *)
Definition drawnCells (gridData : list HeatmapChart.Cell)
  : list HeatmapChart.Cell :=
  filter (λ cell, is_Some (HeatmapChart.status cell)) gridData.



(** ** useThrottle *)

Module useThrottle.

(** The ref [lastRun]; it holds [Date.now()] of the mount at first. *)
Record Ref : Type := { lastRun : Z }.

Definition mount (now : Z) : Ref := {| lastRun := now |}.

(** One call of the throttled function: [now] is the reading of the clock
    in the condition, [after] the reading stored once the callback has
    run.  The result tells whether the callback ran. *)
Definition call (delay : Z) (ref : Ref) (now after : Z) : bool * Ref :=
  if delay <=? now - lastRun ref
  then (true, {| lastRun := after |})
  else (false, ref).

(** A sequence of calls, each with its two readings of the clock; the
    readings [now] of the calls that ran the callback, in order. *)
Fixpoint calls (delay : Z) (ref : Ref) (readings : list (Z * Z)) : list Z :=
  match readings with
  | [] => []
  | (now, after) :: readings =>
      let '(ran, ref') := call delay ref now after in
      if ran then now :: calls delay ref' readings
      else calls delay ref' readings
  end.

End useThrottle.

(** ** App: the filters, the statistics and the handlers

    The collection [dummyData] is imported from [data.json]: it is an
    argument here.  Of the state of the component the four filter fields
    are kept. *)

Module App.

Definition status_name (s : Status) : string :=
  match s with
  | Success => "success"
  | Warning => "warning"
  | Fail => "fail"
  end.

(** [statusColorMap[key]] and [statusIcons[key]]; [None] is [undefined]. *)
Definition statusColorMap (key : string) : option string :=
  if bool_decide (key = "success") then Some "#22c55e"
  else if bool_decide (key = "warning") then Some "#eab308"
  else if bool_decide (key = "fail") then Some "#ef4444"
  else None.

Definition statusIcons (s : Status) : string :=
  match s with
  | Success => "✅"
  | Warning => "⚠️"
  | Fail => "❌"
  end.

Record State : Type := {
  selectedActivityTypes : list string;
  selectedStatuses : list Status;
  selectedStatCard : option string;
  searchTerm : string
}.

Definition initial : State :=
  {| selectedActivityTypes := []; selectedStatuses := [];
     selectedStatCard := None; searchTerm := "" |}.

(** [selectedStatCard] in a condition: [null] and the empty string are
    falsy. *)
Definition card_selected (card : option string) : bool :=
  match card with Some card => truthy card | None => false end.

Definition activityTypes (dummyData : list Event) : list string :=
  Array_from_Set (filter (λ a, truthy a) (Event.activityType <$> dummyData)).

(** The callback of [dummyData.filter] in [filteredData]. *)
Definition passes (st : State) (item : Event) : bool :=
  if (0 <? length (selectedActivityTypes st))%nat
     && negb (bool_decide (Event.activityType item ∈ selectedActivityTypes st))
  then false
  else if (0 <? length (selectedStatuses st))%nat
          && negb (bool_decide (Event.status item ∈ selectedStatuses st))
  then false
  else if card_selected (selectedStatCard st)
  then
    let card := default "" (selectedStatCard st) in
    let targetStatus := if bool_decide (card = "failed") then "fail" else card in
    if negb (bool_decide (targetStatus = "total"))
       && negb (bool_decide (status_name (Event.status item) = targetStatus))
    then false else true
  else true.

Definition filteredData (dummyData : list Event) (st : State) : list Event :=
  if (length (selectedActivityTypes st) =? 0)%nat
     && (length (selectedStatuses st) =? 0)%nat
     && negb (card_selected (selectedStatCard st))
  then dummyData
  else filter (λ item, passes st item) dummyData.

(** The digits of [x.toFixed(1)] for a rational [x >= 0]: those of the
    integer [n] for which [n / 10] is nearest to [x], the larger one of
    two. *)
Definition fixed1 (x : Q) : string :=
  let n := Qfloor (x * 10 + (1 # 2)) in
  pretty (n / 10) +:+ "." +:+ pretty (n mod 10).

(** [x.toFixed(1)], for [x] below 10^21 in magnitude. *)
Definition toFixed1 (x : number) : string :=
  match x with
  | Num q => if Qle_bool 0 q then fixed1 q else "-" +:+ fixed1 (- q)
  | PosInf => "Infinity"
  | NegInf => "-Infinity"
  | NaN => "NaN"
  end.

(** [successRate]: a string of [toFixed], or the number 0. *)
Inductive Rate : Type := Fixed (s : string) | Zero.

Record Statistics : Type := {
  devices : nat;
  users : nat;
  totalEvents : nat;
  successEvents : nat;
  failedEvents : nat;
  warningEvents : nat;
  successRate : Rate
}.

Definition with_status (s : Status) (data : list Event) : list Event :=
  filter (λ d, Event.status d = s) data.

Definition statistics (filteredData : list Event) : Statistics :=
  let devices :=
    length (Array_from_Set
              (filter (λ x, truthy x) (Event.device <$> filteredData))) in
  let users :=
    length (Array_from_Set
              (filter (λ x, truthy x) (Event.user <$> filteredData))) in
  let totalEvents := length filteredData in
  let successEvents := length (with_status Success filteredData) in
  let failedEvents := length (with_status Fail filteredData) in
  let warningEvents := length (with_status Warning filteredData) in
  {| devices := devices; users := users; totalEvents := totalEvents;
     successEvents := successEvents; failedEvents := failedEvents;
     warningEvents := warningEvents;
     successRate :=
       if (0 <? totalEvents)%nat
       then Fixed (toFixed1
                     (js_mul (js_div (of_int (Z.of_nat successEvents))
                                     (of_int (Z.of_nat totalEvents)))
                             (of_int 100)))
       else Zero |}.

(** [prev.includes(x) ? prev.filter(a => a !== x) : [...prev, x]] *)
Definition toggle `{EqDecision A} (prev : list A) (x : A) : list A :=
  if bool_decide (x ∈ prev) then filter (λ a, a ≠ x) prev else prev ++ [x].

Definition handleActivityTypeFilter (st : State) (activityType : string)
  : State :=
  {| selectedActivityTypes := toggle (selectedActivityTypes st) activityType;
     selectedStatuses := selectedStatuses st;
     selectedStatCard := selectedStatCard st;
     searchTerm := searchTerm st |}.

Definition handleStatusFilter (st : State) (status : Status) : State :=
  {| selectedActivityTypes := selectedActivityTypes st;
     selectedStatuses := toggle (selectedStatuses st) status;
     selectedStatCard := selectedStatCard st;
     searchTerm := searchTerm st |}.

Definition clearAllFilters (st : State) : State := initial.

Definition handleStatCardClick (st : State) (statType : string) : State :=
  {| selectedActivityTypes := selectedActivityTypes st;
     selectedStatuses := selectedStatuses st;
     selectedStatCard :=
       if bool_decide (selectedStatCard st = Some statType)
       then None else Some statType;
     searchTerm := searchTerm st |}.

(** The checkbox Select All, checked. *)
Definition selectAll (dummyData : list Event) (st : State) : State :=
  {| selectedActivityTypes := activityTypes dummyData;
     selectedStatuses := selectedStatuses st;
     selectedStatCard := selectedStatCard st;
     searchTerm := searchTerm st |}.

Inductive ChipType : Type := activityType | status | statCard.

Record Chip : Type := {
  type : ChipType;
  value : string;
  label : string;
  color : option string
}.

Definition getActiveFilters (st : State) : list Chip :=
  ((λ type, {| type := activityType; value := type; label := type;
               color := None |}) <$> selectedActivityTypes st)
  ++ ((λ s, {| type := status; value := status_name s;
               label := statusIcons s +:+ " " +:+ status_name s;
               color := statusColorMap (status_name s) |})
        <$> selectedStatuses st)
  ++ (if card_selected (selectedStatCard st)
      then
        let card := default "" (selectedStatCard st) in
        [{| type := statCard; value := card; label := card +:+ " events";
            color := statusColorMap
                       (if bool_decide (card = "failed") then "fail"
                        else card) |}]
      else []).

Definition removeFilterChip (st : State) (type : ChipType) (value : string)
  : State :=
  match type with
  | activityType =>
      {| selectedActivityTypes :=
           filter (λ a, a ≠ value) (selectedActivityTypes st);
         selectedStatuses := selectedStatuses st;
         selectedStatCard := selectedStatCard st;
         searchTerm := searchTerm st |}
  | status =>
      {| selectedActivityTypes := selectedActivityTypes st;
         selectedStatuses :=
           filter (λ s, status_name s ≠ value) (selectedStatuses st);
         selectedStatCard := selectedStatCard st;
         searchTerm := searchTerm st |}
  | statCard =>
      {| selectedActivityTypes := selectedActivityTypes st;
         selectedStatuses := selectedStatuses st;
         selectedStatCard := None;
         searchTerm := searchTerm st |}
  end.

(** [s.includes(sub)] *)
Fixpoint includes (s sub : string) : bool :=
  String.prefix sub s
  || match s with
     | EmptyString => false
     | String _ rest => includes rest sub
     end.

(** [filteredActivityTypes]: the activity types that the search term
    selects; the method [toLowerCase] of strings is an argument. *)
Definition filteredActivityTypes (toLowerCase : string → string)
    (dummyData : list Event) (searchTerm : string) : list string :=
  filter (λ type, includes (toLowerCase type) (toLowerCase searchTerm))
         (activityTypes dummyData).

(** The words that select the events of a tab. *)
Definition tabWords (activeTab : string) : option (list string) :=
  if bool_decide (activeTab = "transaction")
  then Some ["transaction"; "payment"; "transfer"; "purchase"]
  else if bool_decide (activeTab = "association")
  then Some ["association"; "link"; "relationship"; "connection"]
  else if bool_decide (activeTab = "behaviour")
  then Some ["behavior"; "behaviour"; "activity"; "action"]
  else if bool_decide (activeTab = "fcr")
  then Some ["fcr"; "score"; "rating"; "risk"]
  else if bool_decide (activeTab = "sanction")
  then Some ["sanction"; "compliance"; "violation"; "penalty"]
  else if bool_decide (activeTab = "evidence")
  then Some ["evidence"; "document"; "proof"; "verification"]
  else None.

(** [getTabFilteredData]; the method [toLowerCase] of strings is an
    argument. *)
Definition getTabFilteredData (toLowerCase : string → string)
    (activeTab : string) (filteredData : list Event) : list Event :=
  let sampleDataForTab := take (Nat.min 20 (length filteredData)) filteredData in
  match tabWords activeTab with
  | Some words =>
      let tabData :=
        filter (λ d, truthy (Event.activityType d)
                     && existsb (λ word,
                                   includes (toLowerCase (Event.activityType d))
                                            word) words)
               filteredData in
      if (0 <? length tabData)%nat then tabData else sampleDataForTab
  | None => filteredData
  end.

End App.

(** ** Vocabulary of the statements *)

(** A date that is not the invalid date. *)
Definition valid (d : Date) : bool :=
  match d with Instant _ => true | InvalidDate => false end.

(** Every event has a date that parses. *)
Definition parseable (data : list Event) : Prop :=
  Forall (λ e, valid (parseISO (Event.date e))) data.

(** A string that has the hyphens of the extended form [YYYY-MM-DD]. *)
Definition extended (s : string) : bool :=
  match s with
  | String _ (String _ (String _ (String _ (String a (String _
      (String _ (String b (String _ (String _ _))))))))) =>
      (a =? "-")%char && (b =? "-")%char
  | _ => false
  end.

(** Every event has a date in the extended form that parses. *)
Definition calendar (data : list Event) : Prop :=
  Forall (λ e, extended (Event.date e) && valid (parseISO (Event.date e)))
         data.

(** The order of the date strings is the order of the dates in time: of
    two events, the one whose date string is not the greater is not the
    later. *)
Definition chronological (data : list Event) : Prop :=
  Forall (λ e,
            Forall (λ e',
                      String.le (Event.date e) (Event.date e') →
                      date_le (parseISO (Event.date e))
                              (parseISO (Event.date e')))
                   data)
         data.

Definition sum_totals (bs : list BarGraph.Bucket) : nat :=
  sum_list_with (λ b, BarGraph.total (BarGraph.counts b)) bs.

(** The step of the two tally loops, for a key and a status read off an
    item, and the tally that the loop leaves under a key. *)
Definition tally_step {A} (key : A → string) (st : A → Status)
    (m : gmap string BarGraph.Tally) (x : A) : gmap string BarGraph.Tally :=
  <[key x := BarGraph.bump
               (default (BarGraph.zero (key x)) (m !! key x)) (st x)]> m.

Definition tally_of {A} (key : A → string) (st : A → Status) (k : string)
    (l : list A) : option BarGraph.Tally :=
  match filter (λ x, key x = k) l with
  | [] => None
  | xs => Some (foldl BarGraph.bump (BarGraph.zero k) (st <$> xs))
  end.

Definition month_of (e : Event) : option string :=
  format (parseISO (Event.date e)) yyyy_MM.

Definition month_key (e : Event) : string := default "" (month_of e).

(** The unrounded [trend] of a bucket with total [current] after a bucket
    with total [previous], as each branch computes it. *)
Definition raw_trend (g : Granularity) (current previous : nat) : number :=
  match g with
  | daily => BarGraph.percent current previous (Nat.max previous 1)
  | monthly => BarGraph.percent current previous previous
  | weekly =>
      if (0 <? previous)%nat then BarGraph.percent current previous previous
      else of_int 0
  end.

(** The day number of a civil date, split by the year that starts in
    March. *)
Definition year_base (y : Z) : Z :=
  let era := y / 400 in
  let yoe := y - era * 400 in
  era * 146097 + yoe * 365 + yoe / 4 - yoe / 100.

Definition month_base (mp : Z) : Z := (153 * mp + 2) / 5.

Definition march_year (y m : Z) : Z := if m <=? 2 then y - 1 else y.

Definition march_month (m : Z) : Z := (m + 9) mod 12.

(** The size of a monthly bin of the heatmap. *)
Definition month_size (data : list Event) (a m : string) : nat :=
  length (default [] (HeatmapChart.monthEvents data a m)).

(** The comparison set of a cell: the cells of its activity type at the
    daily and monthly granularities, every cell at the weekly one. *)
Definition comparable (g : Granularity) (c : HeatmapChart.Cell)
    (cells : list HeatmapChart.Cell) : list HeatmapChart.Cell :=
  match g with
  | weekly => cells
  | daily | monthly =>
      filter (λ c', HeatmapChart.activityType c' = HeatmapChart.activityType c)
             cells
  end.

(** What a cell for the activity type [a] and the period [p] holds, given
    its events [evs] and the denominator [D] of its intensity. *)
Definition is_cell (a p : string) (evs : list Event) (D : nat)
    (c : HeatmapChart.Cell) : Prop :=
  HeatmapChart.activityType c = a
  ∧ HeatmapChart.period c = p
  ∧ HeatmapChart.events c = evs
  ∧ HeatmapChart.count c = length evs
  ∧ HeatmapChart.status c
    = (if (0 <? length evs)%nat
       then Some (HeatmapChart.dominant evs) else None)
  ∧ HeatmapChart.intensity c
    = (if (0 <? length evs)%nat then ratio (length evs) D else of_int 0).

(** The period of a cell, as a condition on an event. *)
Definition in_period (g : Granularity) (data : list Event)
    (c : HeatmapChart.Cell) (e : Event) : Prop :=
  match g with
  | daily => Event.date e = HeatmapChart.period c
  | monthly =>
      format (parseISO (Event.date e)) yyyy_MM = Some (HeatmapChart.period c)
  | weekly =>
      ∃ weeks week,
        HeatmapChart.weeks data = Some weeks ∧ week ∈ weeks
        ∧ format week yyyy_MM_dd = Some (HeatmapChart.period c)
        ∧ date_ge (parseISO (Event.date e)) (startOfWeek week)
        ∧ date_le (parseISO (Event.date e)) (endOfWeek week)
  end.

(** [t[s]]: the counter of a status in a tally. *)
Definition counter (s : Status) (t : BarGraph.Tally) : nat :=
  match s with
  | Success => BarGraph.success t
  | Warning => BarGraph.warning t
  | Fail => BarGraph.fail t
  end.

(** The pairs of the lists [l] and [k], the elements of [l] outermost. *)
Definition pairs {A B} (l : list A) (k : list B) : list (A * B) :=
  x ← l; (λ y, (x, y)) <$> k.

(** Readings of the clock, two per call, that never go back from [t] on. *)
Fixpoint monotone (t : Z) (readings : list (Z * Z)) : Prop :=
  match readings with
  | [] => True
  | (now, after) :: readings => t ≤ now ∧ now ≤ after ∧ monotone after readings
  end.

(** Instants that are each at least [delay] after the one before, the
    first one after [last]. *)
Fixpoint spaced (delay last : Z) (runs : list Z) : Prop :=
  match runs with
  | [] => True
  | run :: runs => delay ≤ run - last ∧ spaced delay run runs
  end.

(** ** Example inputs *)

Definition ev (d a : string) (s : Status) : Event :=
  {| Event.date := d; Event.activityType := a; Event.status := s;
     Event.user := "u"; Event.device := "d" |}.

(** Three events on 2024-01-01 (success, success, fail), none on
    2024-01-02, one warning on 2024-01-03. *)
Definition scenarioA : list Event :=
  [ev "2024-01-01" "login" Success; ev "2024-01-01" "login" Success;
   ev "2024-01-01" "payment" Fail; ev "2024-01-03" "login" Warning].

(** Two events with an empty week between their weeks. *)
Definition two_weeks_apart : list Event :=
  [ev "2024-01-01" "login" Success; ev "2024-01-15" "login" Success].

(** 201 events on one day and 202 on the next. *)
Definition small_rise : list Event :=
  replicate 201 (ev "2024-01-01" "login" Success)
  ++ replicate 202 (ev "2024-01-02" "login" Success).

(** Two events with a day without events between them. *)
Definition two_days_apart : list Event :=
  [ev "2024-01-01" "login" Success; ev "2024-01-03" "login" Warning].


(** Five events over two months and four weeks, two of the weeks
    without events. *)
Definition two_months : list Event :=
  [ev "2024-01-10" "login" Success; ev "2024-01-12" "login" Warning;
   ev "2024-01-12" "payment" Fail; ev "2024-02-01" "login" Success;
   ev "2024-02-02" "payment" Success].

(** * Properties *)

Example parse_2024_01_01 : parseISO "2024-01-01" = Instant 1704067200000.
Proof. reflexivity. Qed.

Example format_2024_01_01 :
  format (parseISO "2024-01-01") yyyy_MM_dd = Some "2024-01-01"
  ∧ format (parseISO "2024-02-29T23:59:59") MMM_dd = Some "Feb 29"
  ∧ format (parseISO "2023-12-31") MMM_yyyy = Some "Dec 2023"
  ∧ format (startOfWeek (parseISO "2024-01-01")) yyyy_MM_dd = Some "2023-12-31"
  ∧ format (parseISO "2023-02-29") yyyy_MM = None.
Proof. vm_compute. done. Qed.

(** ** Lists: sets, sorting, indexed maps *)

Section lists.
Context {A : Type} `{EqDecision A}.

Lemma foldl_Set_add_elem (l acc : list A) (x : A) :
  x ∈ foldl Set_add acc l ↔ x ∈ acc ∨ x ∈ l.
Proof.
  revert acc. induction l as [|y l IH]; intros acc; simpl.
  - rewrite elem_of_nil. tauto.
  - rewrite IH, elem_of_cons. unfold Set_add. case_decide.
    + split; [tauto|]. intros [?|[->|?]]; auto.
    + rewrite elem_of_app, list_elem_of_singleton. tauto.
Qed.

Lemma foldl_Set_add_NoDup (l acc : list A) :
  NoDup acc → NoDup (foldl Set_add acc l).
Proof.
  revert acc. induction l as [|y l IH]; intros acc Hacc; simpl; [done|].
  apply IH. unfold Set_add. case_decide; [done|].
  apply NoDup_app. split_and!; [done| |apply NoDup_singleton].
  intros x Hx ->%list_elem_of_singleton. done.
Qed.

Lemma Array_from_Set_elem (l : list A) (x : A) :
  x ∈ Array_from_Set l ↔ x ∈ l.
Proof.
  unfold Array_from_Set. rewrite foldl_Set_add_elem, elem_of_nil. tauto.
Qed.

Lemma Array_from_Set_NoDup (l : list A) : NoDup (Array_from_Set l).
Proof. apply foldl_Set_add_NoDup, NoDup_nil_2. Qed.

Lemma Array_from_Set_nil_inv (l : list A) : Array_from_Set l = [] → l = [].
Proof.
  intros Hnil. destruct l as [|x l]; [done|].
  assert (x ∈ Array_from_Set (x :: l)) as Hx
    by (apply Array_from_Set_elem; left).
  rewrite Hnil in Hx. by apply elem_of_nil in Hx.
Qed.
End lists.

Lemma sort_Permutation (l : list string) : sort l ≡ₚ l.
Proof. apply merge_sort_Permutation. Qed.

Lemma sort_elem (l : list string) (x : string) : x ∈ sort l ↔ x ∈ l.
Proof. by rewrite sort_Permutation. Qed.

Lemma sort_NoDup (l : list string) : NoDup l → NoDup (sort l).
Proof. by rewrite sort_Permutation. Qed.

Lemma sort_sorted (l : list string) : StronglySorted String.le (sort l).
Proof. apply StronglySorted_merge_sort; apply _. Qed.

Lemma sort_length (l : list string) : length (sort l) = length l.
Proof. by rewrite sort_Permutation. Qed.

(** In a sorted list the first element is below and the last element is
    above every element. *)
Lemma sorted_first_le (l : list string) (x y : string) :
  StronglySorted String.le l → l !! 0%nat = Some x → y ∈ l → String.le x y.
Proof.
  intros Hs Hx Hy. destruct l as [|z l]; [done|]. simplify_eq/=.
  apply StronglySorted_inv in Hs as [_ Hall].
  apply elem_of_cons in Hy as [->|Hy]; [done|].
  by eapply Forall_forall in Hall.
Qed.

Lemma sorted_last_ge (l : list string) (x y : string) :
  StronglySorted String.le l → l !! (length l - 1)%nat = Some x → y ∈ l →
  String.le y x.
Proof.
  induction l as [|z l IH]; intros Hs Hx Hy; [done|].
  apply StronglySorted_inv in Hs as [Hs Hall].
  destruct l as [|z' l].
  - simplify_eq/=. apply list_elem_of_singleton in Hy as ->. done.
  - assert ((z' :: l) !! (length (z' :: l) - 1)%nat = Some x) as Hx'.
    { rewrite <- Hx. simpl. by rewrite Nat.sub_0_r. }
    assert (String.le z x) as Hzx.
    { eapply Forall_forall in Hall; [done|].
      eapply list_elem_of_lookup_2. done. }
    apply elem_of_cons in Hy as [->|Hy]; [done|]. by apply IH.
Qed.

Section map_index.
Context {A B : Type} (f : nat → A → option B).

Lemma map_index_Forall2 (l : list A) (k : list B) :
  map_index f l = Some k ↔ Forall2 (λ o y, o = Some y) (imap f l) k.
Proof. unfold map_index. by rewrite mapM_Some. Qed.

Lemma map_index_length (l : list A) (k : list B) :
  map_index f l = Some k → length k = length l.
Proof.
  intros Hk%map_index_Forall2. apply Forall2_length in Hk.
  by rewrite length_imap in Hk.
Qed.

Lemma map_index_lookup (l : list A) (k : list B) (i : nat) (y : B) :
  map_index f l = Some k → k !! i = Some y →
  ∃ x, l !! i = Some x ∧ f i x = Some y.
Proof.
  intros Hk%map_index_Forall2 Hy.
  destruct (Forall2_lookup_r _ _ _ _ _ Hk Hy) as (o & Ho & ->).
  rewrite list_lookup_imap in Ho.
  destruct (l !! i) as [x|]; simplify_eq/=. eauto.
Qed.

Lemma map_index_elem (l : list A) (k : list B) (y : B) :
  map_index f l = Some k → y ∈ k →
  ∃ i x, l !! i = Some x ∧ f i x = Some y.
Proof.
  intros Hk [i Hi]%list_elem_of_lookup.
  destruct (map_index_lookup _ _ _ _ Hk Hi) as (x & ? & ?). eauto.
Qed.

Lemma map_index_is_Some (l : list A) :
  (∀ i x, l !! i = Some x → is_Some (f i x)) → is_Some (map_index f l).
Proof.
  intros Hall. unfold map_index. apply mapM_is_Some, Forall_forall.
  intros o [i Hi]%list_elem_of_lookup. rewrite list_lookup_imap in Hi.
  destruct (l !! i) as [x|] eqn:Hx; simplify_eq/=. by eapply Hall.
Qed.
End map_index.

(** A sum over bins of the sizes of the bins is the size of the list when
    every element falls in exactly one bin. *)
Lemma sum_bins_length {A W : Type} (P : W → A → Prop)
    `{∀ w x, Decision (P w x)} (ws : list W) (l : list A) :
  (∀ x, x ∈ l →
        sum_list_with (λ w, if decide (P w x) then 1 else 0)%nat ws = 1%nat) →
  sum_list_with (λ w, length (filter (P w) l)) ws = length l.
Proof.
  induction l as [|x l IH]; intros Hone.
  - induction ws as [|w ws IHws]; [done|]. simpl in *. apply IHws.
    intros x Hx. by apply elem_of_nil in Hx.
  - assert (sum_list_with (λ w, length (filter (P w) (x :: l))) ws
            = (sum_list_with (λ w, if decide (P w x) then 1 else 0) ws
               + sum_list_with (λ w, length (filter (P w) l)) ws)%nat)
      as ->.
    { clear. induction ws as [|w ws IHws]; [done|]. simpl.
      rewrite IHws, filter_cons. destruct (decide (P w x)); simpl; lia. }
    rewrite Hone by left. rewrite IH; [done|].
    intros y Hy. apply Hone. by right.
Qed.

Lemma sum_indicator_NoDup {K : Type} `{EqDecision K} (ks : list K) (k : K) :
  NoDup ks → k ∈ ks →
  sum_list_with (λ k', if decide (k = k') then 1 else 0)%nat ks = 1%nat.
Proof.
  induction 1 as [|k' ks Hnotin Hnd IH]; intros Hk;
    [by apply elem_of_nil in Hk|].
  simpl. case_decide as Heq.
  - subst k'. clear IH Hk.
    assert (sum_list_with (λ k', if decide (k = k') then 1 else 0)%nat ks
            = 0%nat) as ->; [|done].
    induction ks as [|k'' ks IH]; [done|]. simpl.
    apply not_elem_of_cons in Hnotin as [Hne Hnotin].
    apply NoDup_cons in Hnd as [_ Hnd].
    rewrite decide_False by done. by apply IH.
  - apply elem_of_cons in Hk as [?|Hk]; [done|]. by rewrite IH.
Qed.

Lemma sum_list_with_Forall2 {A B : Type} (f : A → nat) (g : B → nat)
    (l : list A) (k : list B) :
  Forall2 (λ x y, f x = g y) l k → sum_list_with f l = sum_list_with g k.
Proof. induction 1; simpl; congruence. Qed.

(** ** Tallies *)

Section tallies.
Import BarGraph.
Context {A : Type} (key : A → string) (st : A → Status).

Lemma tally_of_snoc (k : string) (l : list A) (x : A) :
  tally_of key st k (l ++ [x]) =
    if decide (key x = k)
    then Some (bump (default (zero k) (tally_of key st k l)) (st x))
    else tally_of key st k l.
Proof.
  unfold tally_of. rewrite filter_app, filter_cons, filter_nil.
  case_decide as Hk; [|by rewrite app_nil_r].
  destruct (filter _ l) as [|y ys] eqn:Hf; [done|].
  rewrite <- app_comm_cons. rewrite app_comm_cons.
  by rewrite fmap_app, foldl_app.
Qed.

Lemma tallies_lookup (l : list A) (k : string) :
  foldl (tally_step key st) ∅ l !! k = tally_of key st k l.
Proof.
  induction l as [|x l IH] using rev_ind; [done|].
  rewrite foldl_app, tally_of_snoc. simpl. unfold tally_step at 1.
  rewrite lookup_insert. case_decide as Hk.
  - subst k. by rewrite IH.
  - done.
Qed.
End tallies.

Lemma total_foldl_bump (t : BarGraph.Tally) (l : list Status) :
  BarGraph.total (foldl BarGraph.bump t l) = (BarGraph.total t + length l)%nat.
Proof.
  revert t. induction l as [|s l IH]; intros t; simpl; [lia|].
  rewrite IH. destruct s; simpl; lia.
Qed.

Lemma period_foldl_bump (t : BarGraph.Tally) (l : list Status) :
  BarGraph.period (foldl BarGraph.bump t l) = BarGraph.period t.
Proof.
  revert t. induction l as [|s l IH]; intros t; simpl; [done|].
  rewrite IH. by destruct s.
Qed.

Lemma tally_of_Some {A} (key : A → string) (st : A → Status) k l t :
  tally_of key st k l = Some t →
  BarGraph.period t = k
  ∧ BarGraph.total t = length (filter (λ x, key x = k) l)
  ∧ (1 ≤ BarGraph.total t)%nat.
Proof.
  unfold tally_of. destruct (filter _ l) as [|x xs] eqn:Hf; [done|].
  intros [= <-]. rewrite period_foldl_bump, total_foldl_bump.
  rewrite length_fmap. simpl. destruct (st x); simpl; split_and!; (done || lia).
Qed.

Lemma tally_of_None {A} (key : A → string) (st : A → Status) k l :
  tally_of key st k l = None ↔ k ∉ key <$> l.
Proof.
  unfold tally_of. destruct (filter _ l) as [|x xs] eqn:Hf.
  - split; [|done]. intros _ (y & -> & Hy)%list_elem_of_fmap.
    assert (y ∈ filter (λ x, key x = key y) l) as Hin
      by by apply list_elem_of_filter.
    rewrite Hf in Hin. by apply elem_of_nil in Hin.
  - split; [done|]. intros Hk. exfalso. apply Hk.
    assert (x ∈ filter (λ x, key x = k) l) as [<- Hin]%list_elem_of_filter
      by (rewrite Hf; left).
    apply list_elem_of_fmap. eauto.
Qed.

(** ** Numbers *)

(** *** Rounding to binary64 *)

Lemma pow2_pos (e : Z) : (0 < 2 ^ e)%Q.
Proof. by apply Qpower_0_lt. Qed.

Lemma pow2_succ (e : Z) : (2 ^ (e + 1) == 2 * 2 ^ e)%Q.
Proof. rewrite Qpower_plus by done. rewrite Qpower_1_r. ring. Qed.

Lemma pow2_log2 (n : Z) :
  0 < n → (2 ^ Z.log2 n <= inject_Z n)%Q ∧ (inject_Z n < 2 * 2 ^ Z.log2 n)%Q.
Proof.
  intros Hn. destruct (Z.log2_spec n Hn) as [Hlo Hhi].
  pose proof (Z.log2_nonneg n) as H0.
  assert (2 ^ Z.log2 n == inject_Z (2 ^ Z.log2 n))%Q as ->
    by (symmetry; apply (Zpower_Qpower 2); lia).
  rewrite Zle_Qle in Hlo. split; [done|].
  rewrite Z.pow_succ_r, Zlt_Qlt, inject_Z_mult in Hhi by done.
  exact Hhi.
Qed.

Lemma binade_spec (q : Q) :
  (0 < q)%Q → (2 ^ binade q <= q)%Q ∧ (q < 2 ^ (binade q + 1))%Q.
Proof.
  intros Hq. unfold binade.
  set (k := Z.log2 (Qnum q) - Z.log2 (Zpos (Qden q))).
  assert (0 < Qnum q) as Hn.
  { unfold Qlt in Hq. simpl in Hq. lia. }
  destruct (pow2_log2 (Qnum q) Hn) as [Hn1 Hn2].
  destruct (pow2_log2 (Zpos (Qden q)) ltac:(done)) as [Hd1 Hd2].
  pose proof (pow2_pos (Z.log2 (Qnum q))) as HA.
  pose proof (pow2_pos (Z.log2 (Zpos (Qden q)))) as HB.
  assert (2 ^ k == 2 ^ Z.log2 (Qnum q) / 2 ^ Z.log2 (Zpos (Qden q)))%Q as Hk
    by (unfold k; by rewrite Qpower_minus).
  assert (q * inject_Z (Zpos (Qden q)) == inject_Z (Qnum q))%Q as Hqd.
  { destruct q as [qn qd]. unfold Qeq, Qmult, inject_Z. simpl.
    rewrite Pos2Z.inj_mul. ring. }
  set (A := (2 ^ Z.log2 (Qnum q))%Q) in *.
  set (B := (2 ^ Z.log2 (Zpos (Qden q)))%Q) in *.
  set (n := inject_Z (Qnum q)) in *. set (d := inject_Z (Zpos (Qden q))) in *.
  assert (2 ^ k * B == A)%Q as Hk'.
  { rewrite Hk. field. lra. }
  assert (0 < d)%Q as Hd by lra.
  destruct (Qle_bool (2 ^ k) q) eqn:Hle.
  - apply Qle_bool_iff in Hle. split; [done|].
    rewrite pow2_succ.
    apply Qnot_le_lt. intros Hge.
    assert (2 * 2 ^ k * B <= q * B)%Q by (apply Qmult_le_compat_r; lra).
    assert (q * B <= q * d)%Q by (apply Qmult_le_l; lra).
    lra.
  - assert (q < 2 ^ k)%Q as Hlt.
    { apply Qnot_le_lt. intros Hge%Qle_bool_iff. congruence. }
    replace (k - 1 + 1) with k by lia. split; [|done].
    assert (2 ^ k == 2 * 2 ^ (k - 1))%Q as Hk2.
    { rewrite <- pow2_succ. by replace (k - 1 + 1) with k by lia. }
    apply Qnot_lt_le. intros Hlt'.
    assert (q * d < 2 ^ (k - 1) * d)%Q by (apply Qmult_lt_compat_r; lra).
    pose proof (pow2_pos (k - 1)).
    assert (2 ^ (k - 1) * d <= 2 ^ (k - 1) * (2 * B))%Q
      by (apply Qmult_le_l; lra).
    assert (2 ^ k * B == 2 * (2 ^ (k - 1) * B))%Q by (rewrite Hk2; ring).
    lra.
Qed.

Lemma binade_unique (q : Q) (e : Z) :
  (2 ^ e <= q)%Q → (q < 2 ^ (e + 1))%Q → binade q = e.
Proof.
  intros Hlo Hhi.
  assert (0 < q)%Q as Hq by (pose proof (pow2_pos e); lra).
  destruct (binade_spec q Hq) as [Hlo' Hhi'].
  assert (2 ^ e < 2 ^ (binade q + 1))%Q as H1 by lra.
  assert (2 ^ binade q < 2 ^ (e + 1))%Q as H2 by lra.
  apply Qpower_lt_compat_l_inv in H1, H2; [lia|lra..].
Qed.

Lemma round_half_even_floor (q : Q) :
  Qfloor q ≤ round_half_even q ≤ Qfloor q + 1.
Proof.
  unfold round_half_even. destruct (_ ?= _)%Q; [|lia..].
  destruct (Z.even _); lia.
Qed.

Lemma round_half_even_mono (x y : Q) :
  (x <= y)%Q → round_half_even x ≤ round_half_even y.
Proof.
  intros Hxy. pose proof (Qfloor_resp_le x y Hxy) as Hf.
  pose proof (round_half_even_floor x) as Hx.
  pose proof (round_half_even_floor y) as Hy.
  destruct (decide (Qfloor x = Qfloor y)) as [Heq|Hne]; [|lia].
  unfold round_half_even. rewrite <- Heq.
  destruct (x - inject_Z (Qfloor x) ?= 1 # 2)%Q eqn:Hcx;
    destruct (y - inject_Z (Qfloor x) ?= 1 # 2)%Q eqn:Hcy;
    try (destruct (Z.even _); lia); try lia; exfalso.
  - apply Qeq_alt in Hcx. apply Qlt_alt in Hcy. lra.
  - apply Qgt_alt in Hcx. apply Qeq_alt in Hcy. lra.
  - apply Qgt_alt in Hcx. apply Qlt_alt in Hcy. lra.
Qed.

Lemma round_half_even_Z (n : Z) : round_half_even (inject_Z n) = n.
Proof.
  unfold round_half_even. rewrite Qfloor_Z.
  assert ((inject_Z n - inject_Z n ?= 1 # 2)%Q = Lt) as ->; [|done].
  apply (proj1 (Qlt_alt _ _)). lra.
Qed.

Lemma nearest53_bounds (q : Q) :
  (0 < q)%Q →
  (2 ^ binade q <= nearest53 q)%Q ∧ (nearest53 q <= 2 ^ (binade q + 1))%Q.
Proof.
  intros Hq. destruct (binade_spec q Hq) as [Hlo Hhi]. unfold nearest53.
  set (e := binade q) in *. set (ulp := (2 ^ (e - 52))%Q).
  pose proof (pow2_pos (e - 52)) as Hulp. fold ulp in Hulp.
  assert (2 ^ e == inject_Z (2 ^ 52) * ulp)%Q as He.
  { unfold ulp. rewrite (Zpower_Qpower 2 52), <- Qpower_plus by done.
    by replace (52 + (e - 52)) with e by lia. }
  assert (2 ^ (e + 1) == inject_Z (2 ^ 53) * ulp)%Q as He'.
  { unfold ulp. rewrite (Zpower_Qpower 2 53), <- Qpower_plus by done.
    by replace (53 + (e - 52)) with (e + 1) by lia. }
  rewrite He, He'. split; (apply Qmult_le_compat_r; [|lra]).
  - rewrite <- Zle_Qle. rewrite <- (round_half_even_Z (2 ^ 52)).
    apply round_half_even_mono. apply Qle_shift_div_l; [done|]. lra.
  - rewrite <- Zle_Qle. rewrite <- (round_half_even_Z (2 ^ 53)).
    apply round_half_even_mono. apply Qle_shift_div_r; [done|]. lra.
Qed.

Lemma nearest53_mono (x y : Q) :
  (0 < x)%Q → (x <= y)%Q → (nearest53 x <= nearest53 y)%Q.
Proof.
  intros Hx Hxy. assert (0 < y)%Q as Hy by lra.
  destruct (binade_spec x Hx) as [Hx1 Hx2].
  destruct (binade_spec y Hy) as [Hy1 Hy2].
  assert (binade x ≤ binade y) as He.
  { assert (2 ^ binade x < 2 ^ (binade y + 1))%Q as H by lra.
    apply Qpower_lt_compat_l_inv in H; [lia|lra]. }
  destruct (decide (binade x = binade y)) as [Heq|Hne].
  - unfold nearest53. rewrite Heq.
    pose proof (pow2_pos (binade y - 52)).
    apply Qmult_le_compat_r; [|lra]. rewrite <- Zle_Qle.
    apply round_half_even_mono. apply Qmult_le_compat_r; [done|].
    apply Qinv_le_0_compat. lra.
  - destruct (nearest53_bounds x Hx) as [_ Hbx].
    destruct (nearest53_bounds y Hy) as [Hby _].
    assert (2 ^ (binade x + 1) <= 2 ^ binade y)%Q
      by (apply Qpower_le_compat_l; [lia|lra]).
    lra.
Qed.

Lemma Qnum_sign (q : Q) :
  match Qnum q with
  | 0 => (q == 0)%Q
  | Zpos _ => (0 < q)%Q
  | Zneg _ => (q < 0)%Q
  end.
Proof. destruct q as [[|n|n] d]; unfold Qeq, Qlt; simpl; lia. Qed.

Lemma binary64_sign (q : Q) :
  ((0 < q → 0 < binary64 q) ∧ (q < 0 → binary64 q < 0)
   ∧ (q == 0 → binary64 q == 0))%Q.
Proof.
  pose proof (Qnum_sign q) as Hs. unfold binary64.
  destruct (Qnum q) as [|n|n].
  - split_and!; intros; (lra || done).
  - destruct (nearest53_bounds q Hs) as [Hlo _].
    pose proof (pow2_pos (binade q)). split_and!; intros; lra.
  - assert (0 < - q)%Q as Hs' by lra.
    destruct (nearest53_bounds (- q) Hs') as [Hlo _].
    pose proof (pow2_pos (binade (- q))). split_and!; intros; lra.
Qed.

Lemma binary64_mono (x y : Q) : (x <= y)%Q → (binary64 x <= binary64 y)%Q.
Proof.
  intros Hxy. pose proof (Qnum_sign x) as Hx. pose proof (Qnum_sign y) as Hy.
  destruct (binary64_sign x) as (Hx1 & Hx2 & Hx3).
  destruct (binary64_sign y) as (Hy1 & Hy2 & Hy3).
  unfold binary64 in *.
  destruct (Qnum x) as [|nx|nx], (Qnum y) as [|ny|ny];
    try lra; try (specialize (Hx1 Hx)); try (specialize (Hx2 Hx));
    try (specialize (Hy1 Hy)); try (specialize (Hy2 Hy)); try lra.
  - by apply nearest53_mono.
  - assert (nearest53 (- y) <= nearest53 (- x))%Q
      by (apply nearest53_mono; lra).
    lra.
Qed.

Global Instance binary64_comp : Proper (Qeq ==> Qeq) binary64.
Proof.
  intros x y Hxy. apply Qle_antisym; apply binary64_mono; lra.
Qed.

Example binary64_tenth :
  Qred (binary64 (1 # 10)) = 3602879701896397 # 36028797018963968.
Proof. vm_compute. done. Qed.

Lemma js_div_int (a : Z) (d : nat) :
  (1 ≤ d)%nat →
  js_div (of_int a) (of_int (Z.of_nat d))
  = Num (Qred (binary64 (inject_Z a / inject_Z (Z.of_nat d)))).
Proof.
  intros Hd. unfold js_div, of_int.
  destruct (Qeq_bool (inject_Z (Z.of_nat d)) 0) eqn:Hz; [|done].
  apply Qeq_bool_iff in Hz. unfold Qeq in Hz. simpl in Hz. lia.
Qed.

Lemma Qdiv_int_sign (a : Z) (d : nat) :
  (1 ≤ d)%nat →
  (0 < a → (0 < inject_Z a / inject_Z (Z.of_nat d))%Q)
  ∧ (a < 0 → (inject_Z a / inject_Z (Z.of_nat d) < 0)%Q)
  ∧ (a = 0 → (inject_Z a / inject_Z (Z.of_nat d) == 0)%Q).
Proof.
  intros Hd. destruct (Z.of_nat d) as [|p|p] eqn:Hp; [lia| |lia].
  unfold Qdiv, Qinv, Qmult, Qlt, Qeq, inject_Z. simpl. lia.
Qed.

Lemma Qdiv_int_lower (a : Z) (d : nat) :
  (1 ≤ d)%nat → - Z.of_nat d ≤ a →
  (-1 <= inject_Z a / inject_Z (Z.of_nat d))%Q.
Proof.
  intros Hd Ha. destruct (Z.of_nat d) as [|p|p] eqn:Hp; [lia| |lia].
  unfold Qdiv, Qinv, Qmult, Qle, inject_Z. simpl. lia.
Qed.

(** The trend of [a] after [b] over the denominator [d]: a number, with
    the sign of [a - b], and at least -100 when [b <= d]. *)
Lemma percent_Num (a b d : nat) :
  (1 ≤ d)%nat →
  ∃ q, BarGraph.percent a b d = Num q
       ∧ ((b < a)%nat → (0 < q)%Q)
       ∧ ((a < b)%nat → (q < 0)%Q)
       ∧ (a = b → (q == 0)%Q)
       ∧ ((b ≤ d)%nat → (-100 <= q)%Q).
Proof.
  intros Hd. unfold BarGraph.percent. rewrite js_div_int by done.
  set (x := (inject_Z (Z.of_nat a - Z.of_nat b) / inject_Z (Z.of_nat d))%Q).
  unfold js_mul, of_int. eexists. split; [done|]. rewrite !Qred_correct.
  change (inject_Z 100) with 100%Q.
  destruct (Qdiv_int_sign (Z.of_nat a - Z.of_nat b) d Hd)
    as (Hpos & Hneg & Hzero). fold x in Hpos, Hneg, Hzero.
  destruct (binary64_sign x) as (Hx1 & Hx2 & Hx3).
  destruct (binary64_sign (binary64 x * 100)) as (Hy1 & Hy2 & Hy3).
  split_and!.
  - intros Hlt. apply Hy1. specialize (Hx1 (Hpos ltac:(lia))). lra.
  - intros Hlt. apply Hy2. specialize (Hx2 (Hneg ltac:(lia))). lra.
  - intros Heq. apply Hy3. rewrite Hx3; [ring|]. apply Hzero. lia.
  - intros Hle.
    assert (-1 <= x)%Q as Hx by (apply Qdiv_int_lower; lia).
    apply binary64_mono in Hx.
    assert (binary64 (-1) == -1)%Q as Hone by (vm_compute; done).
    assert (-100 <= binary64 x * 100)%Q as Hy by lra.
    apply binary64_mono in Hy.
    assert (binary64 (-100) == -100)%Q as Hhundred by (vm_compute; done).
    lra.
Qed.

(** The quotient and the product are rounded: 29 events after 40 give
    -27.500000000000004, which [Math.round] takes to -28, and 229 after
    200 give 14.499999999999998, taken to 14. *)
Example percent_binary64 :
  Math_round (BarGraph.percent 29 40 40) = of_int (-28)
  ∧ Math_round (BarGraph.percent 229 200 200) = of_int 14
  ∧ BarGraph.percent 29 40 40
    = Num (-7740561859543041 # 281474976710656).
Proof. vm_compute. done. Qed.

Lemma direction_percent (a b d : nat) :
  (1 ≤ d)%nat →
  BarGraph.direction (BarGraph.percent a b d)
  = match (a ?= b)%nat with
    | Gt => BarGraph.up
    | Lt => BarGraph.down
    | Eq => BarGraph.stable
    end.
Proof.
  intros Hd.
  destruct (percent_Num a b d Hd) as (q & -> & Hpos & Hneg & Hzero & _).
  unfold BarGraph.direction, js_lt, js_gt, of_int.
  destruct (Nat.compare_spec a b) as [Heq|Hlt|Hgt].
  - specialize (Hzero Heq).
    assert (Qle_bool q (inject_Z 0) = true) as ->
      by (apply Qle_bool_iff; rewrite Hzero; apply Qle_refl).
    assert (Qle_bool (inject_Z 0) q = true) as ->
      by (apply Qle_bool_iff; rewrite Hzero; apply Qle_refl).
    done.
  - specialize (Hneg Hlt).
    assert (Qle_bool q (inject_Z 0) = true) as ->
      by (apply Qle_bool_iff, Qlt_le_weak, Hneg).
    assert (Qle_bool (inject_Z 0) q = false) as ->; [|done].
    apply not_true_is_false. intros Hle%Qle_bool_iff.
    by apply Qle_not_lt in Hle.
  - specialize (Hpos Hgt).
    assert (Qle_bool q (inject_Z 0) = false) as ->; [|done].
    apply not_true_is_false. intros Hle%Qle_bool_iff.
    by apply Qle_not_lt in Hle.
Qed.

Lemma ratio_zero (d : nat) : (1 ≤ d)%nat → ratio 0 d = of_int 0.
Proof.
  intros Hd. unfold ratio. rewrite js_div_int by done. unfold of_int.
  transitivity (Num (Qred 0)); [|done]. apply (f_equal Num).
  apply Qred_complete. apply binary64_sign. by apply (Qdiv_int_sign 0 d Hd).
Qed.

Lemma ratio_bounds (n d : nat) :
  (1 ≤ d)%nat → (n ≤ d)%nat →
  ∃ q, ratio n d = Num q ∧ (0 <= q)%Q ∧ (q <= 1)%Q
       ∧ ((q == 0)%Q ↔ n = 0%nat).
Proof.
  intros Hd Hn. unfold ratio. rewrite js_div_int by done.
  eexists. split; [done|]. rewrite !Qred_correct.
  set (x := (inject_Z (Z.of_nat n) / inject_Z (Z.of_nat d))%Q).
  destruct (Qdiv_int_sign (Z.of_nat n) d Hd) as (Hpos & _ & Hzero).
  fold x in Hpos, Hzero.
  destruct (binary64_sign x) as (Hx1 & _ & Hx3).
  assert (x <= 1)%Q as Hle.
  { unfold x. destruct (Z.of_nat d) as [|p|p] eqn:Hp; [lia| |lia].
    unfold Qdiv, Qinv, Qmult, Qle, inject_Z. simpl. lia. }
  apply binary64_mono in Hle.
  assert (binary64 1 == 1)%Q as Hone by (vm_compute; done).
  destruct n as [|n].
  - specialize (Hx3 (Hzero ltac:(done))). split_and!; [lra..|done].
  - specialize (Hx1 (Hpos ltac:(lia))). split_and!; [lra..|].
    split; [lra|done].
Qed.

(** ** The bar chart *)

Section bar.
Import BarGraph.

Lemma dailyData_lookup (data : list Event) (k : string) :
  dailyData data !! k = tally_of Event.date Event.status k data.
Proof. apply (tallies_lookup Event.date Event.status). Qed.

Lemma foldl_monthly_step_None (data : list Event) :
  foldl monthly_step None data = None.
Proof. by induction data. Qed.

Lemma monthlyData_Some (data : list Event) (m : gmap string Tally) :
  monthlyData data = Some m →
  Forall (λ e, is_Some (month_of e)) data
  ∧ m = foldl (tally_step month_key Event.status) ∅ data.
Proof.
  unfold monthlyData. revert m.
  induction data as [|x data IH] using rev_ind; intros m.
  - intros [= <-]. by split.
  - rewrite !foldl_app. simpl.
    destruct (foldl monthly_step (Some ∅) data) as [m'|] eqn:Hm'; [|done].
    destruct (IH m' eq_refl) as [Hall ->]. unfold monthly_step at 1. simpl.
    change (format (parseISO (Event.date x)) yyyy_MM) with (month_of x).
    destruct (month_of x) as [month|] eqn:Hmonth; [|done].
    intros [= <-]. split.
    + apply Forall_app. split; [done|]. apply Forall_singleton.
      by rewrite Hmonth.
    + symmetry. unfold tally_step at 1, month_key. by rewrite Hmonth.
Qed.

Lemma monthlyData_is_Some (data : list Event) :
  Forall (λ e, is_Some (month_of e)) data → is_Some (monthlyData data).
Proof.
  unfold monthlyData.
  induction data as [|x data IH] using rev_ind; intros Hall; [by eexists|].
  apply Forall_app in Hall as [Hdata [[month Hx] _]%Forall_cons].
  rewrite foldl_app. destruct (IH Hdata) as [m ->]. simpl.
  change (format (parseISO (Event.date x)) yyyy_MM) with (month_of x).
  rewrite Hx. by eexists.
Qed.

Lemma monthlyData_lookup (data : list Event) (m : gmap string Tally) k :
  monthlyData data = Some m →
  m !! k = tally_of month_key Event.status k data.
Proof. intros [_ ->]%monthlyData_Some. apply tallies_lookup. Qed.

(** The first bucket of every granularity. *)
Lemma first_bucket (data : list Event) (g : Granularity) bs b :
  processedData data g = Some bs → bs !! 0%nat = Some b →
  trend b = of_int 0 ∧ trendDirection b = stable.
Proof.
  intros Hbs Hb. destruct g; simpl in Hbs.
  - destruct (map_index_lookup _ _ _ _ _ Hbs Hb) as (d & _ & Hd).
    unfold daily_bucket in Hd. simpl in Hd.
    destruct (format (parseISO d) MMM_dd); by simplify_eq/=.
  - unfold weekly_buckets in Hbs.
    destruct (eachWeekOfInterval _ _) as [weeks|]; [|done]. simpl in Hbs.
    destruct (map_index_lookup _ _ _ _ _ Hbs Hb) as (w & _ & Hw).
    unfold weekly_bucket in Hw. simpl in Hw.
    destruct (format w yyyy_MM_dd); [|done]. simpl in Hw.
    destruct (format w MMM_dd); by simplify_eq/=.
  - unfold monthly_buckets in Hbs.
    destruct (monthlyData data) as [m|]; [|done]. simpl in Hbs.
    destruct (map_index_lookup _ _ _ _ _ Hbs Hb) as (k & _ & Hk).
    unfold monthly_bucket in Hk. simpl in Hk.
    destruct (m !! k); [|done]. simpl in Hk.
    destruct (format _ MMM_yyyy); by simplify_eq/=.
Qed.

(** The total of a bucket, per granularity. *)
Lemma daily_bucket_inv (data : list Event) bs i b :
  daily_buckets data = Some bs → bs !! i = Some b →
  ∃ d, dates data !! i = Some d
       ∧ dailyData data !! d = Some (counts b)
       ∧ is_Some (format (parseISO d) MMM_dd).
Proof.
  intros Hbs Hb.
  destruct (map_index_lookup _ _ _ _ _ Hbs Hb) as (d & Hd & Hcell).
  exists d. split; [done|]. unfold daily_bucket in Hcell.
  destruct (format (parseISO d) MMM_dd) eqn:Hlabel; [|done].
  simplify_eq/=. split; [|by eexists].
  assert (d ∈ Event.date <$> data) as Hin.
  { apply Array_from_Set_elem, sort_elem. by eapply list_elem_of_lookup_2. }
  rewrite dailyData_lookup in *.
  destruct (tally_of Event.date Event.status d data) eqn:Ht; [done|].
  by apply tally_of_None in Ht.
Qed.

Lemma monthly_bucket_inv (data : list Event) bs i b :
  monthly_buckets data = Some bs → bs !! i = Some b →
  ∃ m k, monthlyData data = Some m
         ∧ sort (map_to_list m).*1 !! i = Some k
         ∧ m !! k = Some (counts b).
Proof.
  unfold monthly_buckets. intros Hbs Hb.
  destruct (monthlyData data) as [m|]; [|done]. simpl in Hbs.
  destruct (map_index_lookup _ _ _ _ _ Hbs Hb) as (k & Hk & Hcell).
  exists m, k. split_and!; [done..|]. unfold monthly_bucket in Hcell.
  destruct (m !! k); [|done]. simpl in Hcell.
  destruct (format _ MMM_yyyy); by simplify_eq/=.
Qed.

Lemma weekly_bucket_inv (data : list Event) bs i b :
  weekly_buckets data = Some bs → bs !! i = Some b →
  ∃ weeks w p,
    eachWeekOfInterval (parseISO_at (dates data !! 0%nat))
      (parseISO_at (dates data !! (length (dates data) - 1)%nat)) = Some weeks
    ∧ weeks !! i = Some w
    ∧ format w yyyy_MM_dd = Some p
    ∧ counts b = foldl bump (zero p)
                   (Event.status <$> filter (λ d, in_week w d) data).
Proof.
  unfold weekly_buckets. intros Hbs Hb.
  destruct (eachWeekOfInterval _ _) as [weeks|]; [|done]. simpl in Hbs.
  destruct (map_index_lookup _ _ _ _ _ Hbs Hb) as (w & Hw & Hcell).
  unfold weekly_bucket in Hcell.
  destruct (format w yyyy_MM_dd) as [p|] eqn:Hp; [|done]. simpl in Hcell.
  destruct (format w MMM_dd); [|done]. simplify_eq/=.
  exists weeks, w, p. done.
Qed.

Lemma weekly_total (data : list Event) bs i b :
  weekly_buckets data = Some bs → bs !! i = Some b →
  ∃ weeks w,
    eachWeekOfInterval (parseISO_at (dates data !! 0%nat))
      (parseISO_at (dates data !! (length (dates data) - 1)%nat)) = Some weeks
    ∧ weeks !! i = Some w
    ∧ total (counts b) = length (filter (λ d, in_week w d) data).
Proof.
  intros Hbs Hb.
  destruct (weekly_bucket_inv _ _ _ _ Hbs Hb) as (ws & w & p & ? & ? & ? & ->).
  exists ws, w. split_and!; [done..|].
  by rewrite total_foldl_bump, length_fmap.
Qed.

(** Two consecutive buckets: the trend fields of the second from the
    totals of both. *)
Lemma consecutive_buckets (data : list Event) (g : Granularity) bs i prev cur :
  processedData data g = Some bs →
  bs !! i = Some prev → bs !! S i = Some cur →
  let raw := raw_trend g (total (counts cur)) (total (counts prev)) in
  trend cur = Math_round raw ∧ trendDirection cur = direction raw.
Proof.
  intros Hbs Hprev Hcur. destruct g; simpl in Hbs |- *.
  - destruct (daily_bucket_inv _ _ _ _ Hbs Hprev) as (d & Hd & Hmd & _).
    destruct (map_index_lookup _ _ _ _ _ Hbs Hcur) as (d' & Hd' & Hcell).
    unfold daily_bucket in Hcell. simpl in Hcell.
    rewrite Nat.sub_0_r, Hd in Hcell. simpl in Hcell. rewrite Hmd in Hcell.
    destruct (format (parseISO d') MMM_dd); by simplify_eq/=.
  - destruct (weekly_total _ _ _ _ Hbs Hprev) as (ws & w & Hws & Hw & Htot).
    unfold weekly_buckets in Hbs. rewrite Hws in Hbs. simpl in Hbs.
    destruct (map_index_lookup _ _ _ _ _ Hbs Hcur) as (w' & Hw' & Hcell).
    unfold weekly_bucket in Hcell.
    destruct (format w' yyyy_MM_dd) as [p|]; [|done]. simpl in Hcell.
    rewrite Nat.sub_0_r, Hw in Hcell.
    destruct (format w' MMM_dd); [|done]. simplify_eq/=.
    by rewrite Htot.
  - destruct (monthly_bucket_inv _ _ _ _ Hbs Hprev) as (m & k & Hm & Hk & Hmk).
    unfold monthly_buckets in Hbs. rewrite Hm in Hbs. simpl in Hbs.
    destruct (map_index_lookup _ _ _ _ _ Hbs Hcur) as (k' & Hk' & Hcell).
    unfold monthly_bucket in Hcell.
    destruct (m !! k') as [t|]; [|done]. simpl in Hcell.
    rewrite Nat.sub_0_r, Hk in Hcell. simpl in Hcell. rewrite Hmk in Hcell.
    destruct (format _ MMM_yyyy); by simplify_eq/=.
Qed.

(** Daily and monthly buckets are never empty. *)
Lemma keyed_bucket_total (data : list Event) (g : Granularity) bs i b :
  g ≠ weekly → processedData data g = Some bs → bs !! i = Some b →
  (1 ≤ total (counts b))%nat.
Proof.
  intros Hg Hbs Hb. destruct g; [|done|]; simpl in Hbs.
  - destruct (daily_bucket_inv _ _ _ _ Hbs Hb) as (d & _ & Hmd & _).
    rewrite dailyData_lookup in Hmd. by apply tally_of_Some in Hmd as (_&_&?).
  - destruct (monthly_bucket_inv _ _ _ _ Hbs Hb) as (m & k & Hm & _ & Hmk).
    rewrite (monthlyData_lookup _ _ _ Hm) in Hmk.
    by apply tally_of_Some in Hmk as (_&_&?).
Qed.

End bar.

(** ** The calendar *)

Section calendar.

Lemma digit_val_range (c : ascii) (n : Z) : digit_val c = Some n → 0 ≤ n ≤ 9.
Proof.
  unfold digit_val. intros Hn.
  destruct (_ && _) eqn:Hc; simplify_eq/=.
  apply andb_prop in Hc as [?%Z.leb_le ?%Z.leb_le]. lia.
Qed.

Lemma two_digits_range (a b : ascii) (n : Z) :
  two_digits a b = Some n → 0 ≤ n ≤ 99.
Proof.
  unfold two_digits. intros Hn.
  destruct (digit_val a) as [x|] eqn:Hx; [|done].
  destruct (digit_val b) as [y|] eqn:Hy; simplify_eq/=.
  apply digit_val_range in Hx, Hy. lia.
Qed.

Lemma four_digits_range (a b c d : ascii) (n : Z) :
  four_digits a b c d = Some n → 0 ≤ n ≤ 9999.
Proof.
  unfold four_digits. intros Hn.
  destruct (two_digits a b) as [x|] eqn:Hx; [|done].
  destruct (two_digits c d) as [y|] eqn:Hy; simplify_eq/=.
  apply two_digits_range in Hx, Hy. lia.
Qed.

Lemma days_from_civil_range (y m d : Z) :
  0 ≤ y ≤ 9999 → 1 ≤ m ≤ 12 → 1 ≤ d ≤ 31 →
  -719528 ≤ days_from_civil y m d ≤ 2932896.
Proof.
  intros Hy Hm Hd. unfold days_from_civil.
  destruct (m <=? 2) eqn:E; [apply Z.leb_le in E | apply Z.leb_gt in E];
    Z.div_mod_to_equations; lia.
Qed.

Lemma daysInMonth_le (y m : Z) : 28 ≤ daysInMonth y m ≤ 31.
Proof.
  unfold daysInMonth.
  repeat match goal with |- context [if ?b then _ else _] => destruct b end;
    lia.
Qed.

Lemma parse_date_range (y1 y2 y3 y4 m1 m2 d1 d2 : ascii) (t : Z) :
  parse_date y1 y2 y3 y4 m1 m2 d1 d2 = Some t →
  ∃ day, t = day * msPerDay ∧ -719528 ≤ day ≤ 2932896.
Proof.
  unfold parse_date. intros Ht.
  destruct (four_digits y1 y2 y3 y4) as [y|] eqn:Hy; [|done].
  destruct (two_digits m1 m2) as [m|] eqn:Hm; [|done].
  destruct (two_digits d1 d2) as [d|] eqn:Hd; [|done]. simpl in Ht.
  destruct (_ && _) eqn:Hc; simplify_eq/=.
  repeat (apply andb_prop in Hc as [Hc ?%Z.leb_le]). apply Z.leb_le in Hc.
  eexists. split; [done|]. apply four_digits_range in Hy.
  pose proof (daysInMonth_le y m). apply days_from_civil_range; lia.
Qed.

Lemma parse_time_range (h1 h2 n1 n2 s1 s2 : ascii) (t : Z) :
  parse_time h1 h2 n1 n2 s1 s2 = Some t → 0 ≤ t < msPerDay.
Proof.
  unfold parse_time, msPerDay. intros Ht.
  destruct (two_digits h1 h2) as [h|] eqn:Hh; [|done].
  destruct (two_digits n1 n2) as [n|] eqn:Hn; [|done].
  destruct (two_digits s1 s2) as [s|] eqn:Hs; [|done]. simpl in Ht.
  destruct (_ && _) eqn:Hc; simplify_eq/=.
  repeat (apply andb_prop in Hc as [Hc ?%Z.leb_le]). apply Z.leb_le in Hc.
  apply two_digits_range in Hh, Hn, Hs. lia.
Qed.

Lemma parse_time_string_inv (s : string) (t : Z) :
  parse_time_string s = Some t →
  (s = "" ∧ t = 0)
  ∨ ∃ h1 h2 n1 n2 s1 s2,
      s = String "T" (String h1 (String h2 (String ":" (String n1
            (String n2 (String ":" (String s1 (String s2 ""))))))))
      ∧ parse_time h1 h2 n1 n2 s1 s2 = Some t.
Proof.
  unfold parse_time_string.
  destruct s as [|c1 [|h1 [|h2 [|c2 [|n1 [|n2 [|c3 [|s1 [|s2 [|]]]]]]]]]];
    try done.
  - intros [= <-]. by left.
  - destruct (c1 =? "T")%char eqn:H1; [|done].
    destruct (c2 =? ":")%char eqn:H2; [|done].
    destruct (c3 =? ":")%char eqn:H3; [|done].
    apply Ascii.eqb_eq in H1 as ->. apply Ascii.eqb_eq in H2 as ->.
    apply Ascii.eqb_eq in H3 as ->. simpl. intros Ht. right.
    by repeat eexists.
Qed.

Lemma parse_time_string_range (s : string) (t : Z) :
  parse_time_string s = Some t → 0 ≤ t < msPerDay.
Proof.
  intros [[_ ->]|(h1&h2&n1&n2&s1&s2&_&Ht)]%parse_time_string_inv; [done|].
  by eapply parse_time_range.
Qed.

(** The parts of a string that parses. *)
Lemma parseISO_inv (s : string) (t : Z) :
  parseISO s = Instant t →
  ∃ y1 y2 y3 y4 m1 m2 d1 d2 rest day time,
    (s = String y1 (String y2 (String y3 (String y4 (String "-" (String m1
           (String m2 (String "-" (String d1 (String d2 rest)))))))))
     ∨ s = String y1 (String y2 (String y3 (String y4 (String m1
             (String m2 (String d1 (String d2 rest))))))))
    ∧ parse_date y1 y2 y3 y4 m1 m2 d1 d2 = Some day
    ∧ parse_time_string rest = Some time
    ∧ t = day + time.
Proof.
  assert (parseISO_basic s = Instant t →
          ∃ y1 y2 y3 y4 m1 m2 d1 d2 rest day time,
            s = String y1 (String y2 (String y3 (String y4 (String m1
                  (String m2 (String d1 (String d2 rest)))))))
            ∧ parse_date y1 y2 y3 y4 m1 m2 d1 d2 = Some day
            ∧ parse_time_string rest = Some time
            ∧ t = day + time) as Hbasic.
  { unfold parseISO_basic.
    destruct s as [|y1 [|y2 [|y3 [|y4 [|m1 [|m2 [|d1 [|d2 rest]]]]]]]];
      try done.
    destruct (parse_date _ _ _ _ _ _ _ _) as [day|] eqn:Hd; [|done].
    simpl. destruct (parse_time_string rest) as [time|] eqn:Ht; [|done].
    intros [= <-]. by repeat eexists. }
  assert (parseISO_basic s = Instant t →
          ∃ y1 y2 y3 y4 m1 m2 d1 d2 rest day time,
            (s = String y1 (String y2 (String y3 (String y4 (String "-"
                   (String m1 (String m2 (String "-" (String d1
                   (String d2 rest)))))))))
             ∨ s = String y1 (String y2 (String y3 (String y4 (String m1
                     (String m2 (String d1 (String d2 rest))))))))
            ∧ parse_date y1 y2 y3 y4 m1 m2 d1 d2 = Some day
            ∧ parse_time_string rest = Some time
            ∧ t = day + time) as Hbasic'.
  { intros (y1&y2&y3&y4&m1&m2&d1&d2&rest&day&time&?&?&?&?)%Hbasic.
    exists y1, y2, y3, y4, m1, m2, d1, d2, rest, day, time. auto. }
  unfold parseISO.
  destruct s as [|y1 [|y2 [|y3 [|y4 [|a [|m1 [|m2 [|b [|d1 [|d2 rest]]]]]]]]]];
    try apply Hbasic'.
  destruct (a =? "-")%char eqn:Ha; [|apply Hbasic'].
  destruct (b =? "-")%char eqn:Hb; [|apply Hbasic'].
  apply Ascii.eqb_eq in Ha as ->. apply Ascii.eqb_eq in Hb as ->. simpl.
  destruct (parse_date _ _ _ _ _ _ _ _) as [day|] eqn:Hd; [|done].
  destruct (parse_time_string rest) as [time|] eqn:Ht; [|done].
  intros [= <-].
  exists y1, y2, y3, y4, m1, m2, d1, d2, rest, day, time. auto.
Qed.

Lemma parseISO_extended_inv (s : string) (t : Z) :
  extended s → parseISO s = Instant t →
  ∃ y1 y2 y3 y4 m1 m2 d1 d2 rest day time,
    s = String y1 (String y2 (String y3 (String y4 (String "-" (String m1
          (String m2 (String "-" (String d1 (String d2 rest)))))))))
    ∧ parse_date y1 y2 y3 y4 m1 m2 d1 d2 = Some day
    ∧ parse_time_string rest = Some time
    ∧ t = day + time.
Proof.
  unfold extended, parseISO.
  destruct s as [|y1 [|y2 [|y3 [|y4 [|a [|m1 [|m2 [|b [|d1 [|d2 rest]]]]]]]]]];
    try done.
  intros [Ha Hb]%andb_prop_elim.
  apply Is_true_eq_true in Ha, Hb. rewrite Ha, Hb.
  apply Ascii.eqb_eq in Ha as ->. apply Ascii.eqb_eq in Hb as ->. simpl.
  destruct (parse_date _ _ _ _ _ _ _ _) as [day|] eqn:Hd; [|done].
  destruct (parse_time_string rest) as [time|] eqn:Ht; [|done].
  intros [= <-]. by repeat eexists.
Qed.

(** A parsed date lies in the years 0000 to 9999. *)
Lemma parseISO_range (s : string) (t : Z) :
  parseISO s = Instant t → -719528 ≤ t / msPerDay ≤ 2932896.
Proof.
  intros (y1&y2&y3&y4&m1&m2&d1&d2&rest&day'&time&_&Hd&Ht&->)%parseISO_inv.
  apply parse_date_range in Hd as (day & -> & Hday).
  apply parse_time_string_range in Ht.
  replace ((day * msPerDay + time) / msPerDay) with day; [done|].
  unfold msPerDay in *. Z.div_mod_to_equations. lia.
Qed.

Lemma civil_from_days_range (z : Z) :
  -719528 ≤ z ≤ 2932896 →
  let '(y, m, d) := civil_from_days z in
  0 ≤ y ≤ 9999 ∧ 1 ≤ m ≤ 12 ∧ 1 ≤ d ≤ 31.
Proof.
  intros Hz. unfold civil_from_days.
  set (z' := z + 719468). set (era := z' / 146097).
  set (doe := z' - era * 146097).
  assert (0 ≤ doe ≤ 146096 ∧ -1 ≤ era ≤ 24
          ∧ (era = -1 → 146037 ≤ doe) ∧ (era = 24 → doe ≤ 146036))
    as (Hdoe & Hera & Hlo & Hhi)
    by (subst doe era z'; Z.div_mod_to_equations; lia).
  clearbody doe era. clear z' Hz.
  set (yoe := (doe - doe / 1460 + doe / 36524 - doe / 146096) / 365).
  set (doy := doe - (365 * yoe + yoe / 4 - yoe / 100)).
  assert (0 ≤ yoe ≤ 399 ∧ 0 ≤ doy ≤ 365
          ∧ (146037 ≤ doe → yoe = 399 ∧ 306 ≤ doy)
          ∧ (yoe = 399 → doe ≤ 146036 → doy ≤ 305))
    as (Hy & Hd & Hlo' & Hhi')
    by (subst doy yoe; Z.div_mod_to_equations; lia).
  clearbody doy yoe.
  set (mp := (5 * doy + 2) / 153).
  assert (0 ≤ mp ≤ 11 ∧ (306 ≤ doy → 10 ≤ mp) ∧ (doy ≤ 305 → mp ≤ 9)
          ∧ 1 ≤ doy - (153 * mp + 2) / 5 + 1 ≤ 31)
    as (Hmp & ? & ? & ?)
    by (subst mp; Z.div_mod_to_equations; lia).
  clearbody mp.
  destruct (mp <? 10) eqn:E; [apply Z.ltb_lt in E | apply Z.ltb_ge in E].
  - destruct (mp + 3 <=? 2) eqn:E2;
      [apply Z.leb_le in E2 | apply Z.leb_gt in E2]; lia.
  - destruct (mp - 9 <=? 2) eqn:E2;
      [apply Z.leb_le in E2 | apply Z.leb_gt in E2]; lia.
Qed.

Lemma digit_val_digit (n : Z) : digit_val (digit n) = Some (n mod 10).
Proof.
  unfold digit_val, digit. rewrite nat_ascii_embedding.
  - rewrite Z2Nat.id by (Z.div_mod_to_equations; lia).
    rewrite andb_true_intro; [f_equal; lia|].
    split; apply Z.leb_le; Z.div_mod_to_equations; lia.
  - assert (Z.to_nat (48 + n mod 10) < 256)%nat; [|done].
    Z.div_mod_to_equations; lia.
Qed.

Lemma two_digits_pad2 (n : Z) :
  0 ≤ n ≤ 99 → two_digits (digit (n / 10)) (digit n) = Some n.
Proof.
  intros Hn. unfold two_digits. rewrite !digit_val_digit. simpl.
  f_equal. Z.div_mod_to_equations; lia.
Qed.

(** The month key of a parsed date, completed with [-01], parses. *)
Lemma month_label_parses (s : string) (t : Z) :
  parseISO s = Instant t →
  ∃ k, format (Instant t) yyyy_MM = Some k
       ∧ parseISO (k +:+ "-01") ≠ InvalidDate.
Proof.
  intros Hrange%parseISO_range. unfold format.
  pose proof (civil_from_days_range _ Hrange) as Hcivil.
  destruct (civil_from_days (t / msPerDay)) as [[y m] d].
  destruct Hcivil as (Hy & Hm & Hd). eexists. split; [done|].
  unfold pad_year.
  set (y' := if 0 <? y then y else 1 - y).
  assert (1 ≤ y' ≤ 9999) as Hy'.
  { subst y'. destruct (0 <? y) eqn:E;
      [apply Z.ltb_lt in E | apply Z.ltb_ge in E]; lia. }
  clearbody y'. rewrite (proj2 (Z.ltb_lt y' 10000)) by lia.
  unfold parseISO, pad2. simpl.
  change (parse_time_string "") with (Some 0).
  unfold parse_date, four_digits.
  rewrite !two_digits_pad2 by (Z.div_mod_to_equations; lia). simpl.
  replace (100 * (y' / 100) + y' mod 100) with y'
    by (Z.div_mod_to_equations; lia).
  pose proof (daysInMonth_le y' m).
  change (10 * (Z.of_nat (nat_of_ascii "0") - 48)
          + (Z.of_nat (nat_of_ascii "1") - 48)) with 1.
  destruct (_ && _) eqn:Hc; [done|]. exfalso.
  apply not_true_iff_false in Hc. apply Hc.
  rewrite !andb_true_iff, !Z.leb_le. lia.
Qed.

Lemma format_valid (t : Z) (p : pattern) : is_Some (format (Instant t) p).
Proof.
  unfold format. destruct (civil_from_days _) as [[y m] d]. by eexists.
Qed.

(** *** String order and time order of parsed dates *)

Lemma days_from_civil_split (y m d : Z) :
  days_from_civil y m d
  = year_base (march_year y m) + month_base (march_month m) + d - 1 - 719468.
Proof.
  unfold days_from_civil, year_base, month_base, march_year, march_month. lia.
Qed.

Lemma isLeapYear_spec (y : Z) :
  isLeapYear y = true ↔ y mod 400 = 0 ∨ (y mod 4 = 0 ∧ y mod 100 ≠ 0).
Proof.
  unfold isLeapYear.
  rewrite orb_true_iff, andb_true_iff, negb_true_iff, !Z.eqb_eq, Z.eqb_neq.
  tauto.
Qed.

Lemma year_base_step (y : Z) :
  year_base (y + 1) - year_base y = if isLeapYear (y + 1) then 366 else 365.
Proof.
  destruct (isLeapYear (y + 1)) eqn:E.
  - apply isLeapYear_spec in E. unfold year_base.
    Z.div_mod_to_equations; lia.
  - apply not_true_iff_false in E. rewrite isLeapYear_spec in E.
    unfold year_base. Z.div_mod_to_equations; lia.
Qed.

Lemma year_base_mono (y y' : Z) : y ≤ y' → year_base y ≤ year_base y'.
Proof.
  intros H. replace y' with (y + Z.of_nat (Z.to_nat (y' - y))) by lia.
  generalize (Z.to_nat (y' - y)) as n. clear.
  induction n as [|n IH]; [rewrite Z.add_0_r; lia|].
  pose proof (year_base_step (y + Z.of_nat n)) as Hs.
  replace (y + Z.of_nat (S n)) with (y + Z.of_nat n + 1) by lia.
  destruct (isLeapYear _); lia.
Qed.

Lemma month_days (y m : Z) :
  1 ≤ m ≤ 12 → m ≠ 2 →
  daysInMonth y m = month_base (march_month m + 1) - month_base (march_month m).
Proof.
  intros Hm H2.
  assert (m = 1 ∨ m = 3 ∨ m = 4 ∨ m = 5 ∨ m = 6 ∨ m = 7 ∨ m = 8 ∨ m = 9
          ∨ m = 10 ∨ m = 11 ∨ m = 12) as Hc by lia.
  repeat (destruct Hc as [->|Hc]); try subst m; reflexivity.
Qed.

Lemma month_base_mono (a b : Z) : a ≤ b → month_base a ≤ month_base b.
Proof. unfold month_base. intros. Z.div_mod_to_equations; lia. Qed.

Lemma day_of_year_bound (y m d : Z) :
  1 ≤ m ≤ 12 → 1 ≤ d ≤ daysInMonth y m →
  0 ≤ month_base (march_month m) + d - 1
    ≤ if isLeapYear (march_year y m + 1) then 365 else 364.
Proof.
  intros Hm Hd. destruct (Z.eq_dec m 2) as [->|H2].
  - change (daysInMonth y 2) with (if isLeapYear y then 29 else 28) in Hd.
    change (march_year y 2) with (y - 1). replace (y - 1 + 1) with y by lia.
    change (month_base (march_month 2)) with 337.
    destruct (isLeapYear y); lia.
  - rewrite month_days in Hd by done.
    assert (march_month m ≤ 10 ∧ 0 ≤ march_month m) as [H10 H0]
      by (unfold march_month; Z.div_mod_to_equations; lia).
    pose proof (month_base_mono (march_month m + 1) 11 ltac:(lia)) as Hmb.
    pose proof (month_base_mono 0 (march_month m) H0) as Hmb0.
    change (month_base 11) with 337 in Hmb.
    change (month_base 0) with 0 in Hmb0. destruct (isLeapYear _); lia.
Qed.

(** A later calendar date has a later day number. *)
Lemma days_from_civil_lt (y m d y' m' d' : Z) :
  1 ≤ m ≤ 12 → 1 ≤ d ≤ daysInMonth y m →
  1 ≤ m' ≤ 12 → 1 ≤ d' ≤ daysInMonth y' m' →
  y < y' ∨ (y = y' ∧ (m < m' ∨ (m = m' ∧ d < d'))) →
  days_from_civil y m d < days_from_civil y' m' d'.
Proof.
  intros Hm Hd Hm' Hd' Hlex. rewrite !days_from_civil_split.
  pose proof (day_of_year_bound y m d Hm Hd) as Hdoy.
  pose proof (day_of_year_bound y' m' d' Hm' Hd') as Hdoy'.
  assert (march_year y m < march_year y' m'
          ∨ (march_year y m = march_year y' m'
             ∧ (march_month m < march_month m' ∨ (m = m' ∧ d < d'))))
    as [Hlt|[Heq [Hlt|[-> Hle]]]].
  { unfold march_year, march_month.
    destruct (m <=? 2) eqn:E; destruct (m' <=? 2) eqn:E';
      rewrite ?Z.leb_le, ?Z.leb_gt in *; Z.div_mod_to_equations; lia. }
  - pose proof (year_base_step (march_year y m)) as Hs.
    pose proof (year_base_mono (march_year y m + 1) (march_year y' m')
                  ltac:(lia)).
    destruct (isLeapYear (march_year y m + 1)); lia.
  - rewrite Heq.
    assert (m ≠ 2) as H2
      by (unfold march_month in Hlt; Z.div_mod_to_equations; lia).
    rewrite month_days in Hd by done.
    pose proof (month_base_mono (march_month m + 1) (march_month m')
                  ltac:(lia)). lia.
  - rewrite Heq. lia.
Qed.

Lemma digit_val_compare (a b : ascii) (x y : Z) :
  digit_val a = Some x → digit_val b = Some y →
  match Ascii.compare a b with
  | Eq => x = y
  | Lt => x < y
  | Gt => y < x
  end.
Proof.
  unfold digit_val, Ascii.compare, nat_of_ascii. intros Ha Hb.
  destruct (_ && _); [|done]. destruct (_ && _); [|done]. simplify_eq/=.
  rewrite !N_nat_Z.
  destruct (N.compare_spec (N_of_ascii a) (N_of_ascii b)); lia.
Qed.

(** The fields of a calendar date that parses. *)
Lemma parse_date_inv (y1 y2 y3 y4 m1 m2 d1 d2 : ascii) (t : Z) :
  parse_date y1 y2 y3 y4 m1 m2 d1 d2 = Some t →
  ∃ a1 a2 a3 a4 b1 b2 c1 c2,
    digit_val y1 = Some a1 ∧ digit_val y2 = Some a2
    ∧ digit_val y3 = Some a3 ∧ digit_val y4 = Some a4
    ∧ digit_val m1 = Some b1 ∧ digit_val m2 = Some b2
    ∧ digit_val d1 = Some c1 ∧ digit_val d2 = Some c2
    ∧ let y := 100 * (10 * a1 + a2) + (10 * a3 + a4) in
      let m := 10 * b1 + b2 in
      let d := 10 * c1 + c2 in
      1 ≤ m ≤ 12 ∧ 1 ≤ d ≤ daysInMonth y m
      ∧ t = days_from_civil y m d * msPerDay.
Proof.
  unfold parse_date, four_digits, two_digits. intros Ht.
  destruct (digit_val y1) as [a1|]; [|done].
  destruct (digit_val y2) as [a2|]; [|done].
  destruct (digit_val y3) as [a3|]; [|done].
  destruct (digit_val y4) as [a4|]; [|done].
  destruct (digit_val m1) as [b1|]; [|done].
  destruct (digit_val m2) as [b2|]; [|done].
  destruct (digit_val d1) as [c1|]; [|done].
  destruct (digit_val d2) as [c2|]; [|done]. simpl in Ht.
  destruct (_ && _) eqn:Hc; simplify_eq/=.
  repeat (apply andb_prop in Hc as [Hc ?%Z.leb_le]). apply Z.leb_le in Hc.
  exists a1, a2, a3, a4, b1, b2, c1, c2. split_and!; (done || lia).
Qed.


Lemma parse_time_inv (h1 h2 n1 n2 s1 s2 : ascii) (t : Z) :
  parse_time h1 h2 n1 n2 s1 s2 = Some t →
  ∃ a1 a2 b1 b2 c1 c2,
    digit_val h1 = Some a1 ∧ digit_val h2 = Some a2
    ∧ digit_val n1 = Some b1 ∧ digit_val n2 = Some b2
    ∧ digit_val s1 = Some c1 ∧ digit_val s2 = Some c2
    ∧ 10 * b1 + b2 ≤ 59 ∧ 10 * c1 + c2 ≤ 59
    ∧ t = (10 * a1 + a2) * 3600000 + (10 * b1 + b2) * 60000
          + (10 * c1 + c2) * 1000.
Proof.
  unfold parse_time, two_digits. intros Ht.
  destruct (digit_val h1) as [a1|]; [|done].
  destruct (digit_val h2) as [a2|]; [|done].
  destruct (digit_val n1) as [b1|]; [|done].
  destruct (digit_val n2) as [b2|]; [|done].
  destruct (digit_val s1) as [c1|]; [|done].
  destruct (digit_val s2) as [c2|]; [|done]. simpl in Ht.
  destruct (_ && _) eqn:Hc; simplify_eq/=.
  repeat (apply andb_prop in Hc as [Hc ?%Z.leb_le]). apply Z.leb_le in Hc.
  exists a1, a2, b1, b2, c1, c2. split_and!; (done || lia).
Qed.

Lemma compare_String (a b : ascii) (s s' : string) :
  String.compare (String a s) (String b s')
  = match Ascii.compare a b with
    | Eq => String.compare s s'
    | Lt => Lt
    | Gt => Gt
    end.
Proof. done. Qed.

Ltac digit_ranges :=
  repeat match goal with
         | H : digit_val ?c = Some ?x |- _ =>
             lazymatch goal with
             | _ : 0 ≤ x ≤ 9 |- _ => fail
             | _ => pose proof (digit_val_range c x H)
             end
         end.

(** One step of the comparison of two strings at a digit. *)
Ltac compare_digit H :=
  rewrite compare_String in H;
  match type of H with
  | context [Ascii.compare ?a ?b] =>
      match goal with
      | Ha : digit_val a = Some ?x, Hb : digit_val b = Some ?y |- _ =>
          let Hc := fresh "Hc" in
          pose proof (digit_val_compare a b x y Ha Hb) as Hc;
          destruct (Ascii.compare a b); [|clear H|done]
      end
  end.

(** One step at a separator that both strings have. *)
Ltac compare_separator H :=
  rewrite compare_String in H;
  match type of H with
  | context [Ascii.compare ?a ?a] =>
      change (Ascii.compare a a) with Eq in H
  end.

Lemma parse_date_compare (y1 y2 y3 y4 m1 m2 d1 d2 : ascii) (r : string)
    (y1' y2' y3' y4' m1' m2' d1' d2' : ascii) (r' : string) (t t' : Z) :
  parse_date y1 y2 y3 y4 m1 m2 d1 d2 = Some t →
  parse_date y1' y2' y3' y4' m1' m2' d1' d2' = Some t' →
  String.compare
    (String y1 (String y2 (String y3 (String y4 (String "-" (String m1
       (String m2 (String "-" (String d1 (String d2 r))))))))))
    (String y1' (String y2' (String y3' (String y4' (String "-" (String m1'
       (String m2' (String "-" (String d1' (String d2' r'))))))))))
    ≠ Gt →
  t + msPerDay ≤ t' ∨ (t = t' ∧ String.compare r r' ≠ Gt).
Proof.
  intros (a1&a2&a3&a4&b1&b2&c1&c2&?&?&?&?&?&?&?&?&Hm&Hd&->)%parse_date_inv.
  intros (a1'&a2'&a3'&a4'&b1'&b2'&c1'&c2'&?&?&?&?&?&?&?&?&Hm'&Hd'&->)
    %parse_date_inv.
  intros Hcmp. digit_ranges.
  assert (∀ y m d y' m' d',
            1 ≤ m ≤ 12 → 1 ≤ d ≤ daysInMonth y m →
            1 ≤ m' ≤ 12 → 1 ≤ d' ≤ daysInMonth y' m' →
            y < y' ∨ (y = y' ∧ (m < m' ∨ (m = m' ∧ d < d'))) →
            days_from_civil y m d * msPerDay + msPerDay
            ≤ days_from_civil y' m' d' * msPerDay) as Hlt.
  { intros. pose proof (days_from_civil_lt y m d y' m' d').
    unfold msPerDay. lia. }
  compare_digit Hcmp; [subst|left; apply Hlt; (done || lia)].
  compare_digit Hcmp; [subst|left; apply Hlt; (done || lia)].
  compare_digit Hcmp; [subst|left; apply Hlt; (done || lia)].
  compare_digit Hcmp; [subst|left; apply Hlt; (done || lia)].
  compare_separator Hcmp.
  compare_digit Hcmp; [subst|left; apply Hlt; (done || lia)].
  compare_digit Hcmp; [subst|left; apply Hlt; (done || lia)].
  compare_separator Hcmp.
  compare_digit Hcmp; [subst|left; apply Hlt; (done || lia)].
  compare_digit Hcmp; [subst|left; apply Hlt; (done || lia)].
  by right.
Qed.

Lemma parse_time_string_compare (r r' : string) (t t' : Z) :
  parse_time_string r = Some t → parse_time_string r' = Some t' →
  String.compare r r' ≠ Gt → t ≤ t'.
Proof.
  intros Hr Hr'. pose proof (parse_time_string_range _ _ Hr').
  apply parse_time_string_inv in Hr as [[-> ->]|(h1&h2&n1&n2&s1&s2&->&Ht)];
    [lia|].
  apply parse_time_string_inv in Hr'
    as [[-> ->]|(h1'&h2'&n1'&n2'&s1'&s2'&->&Ht')]; [done|].
  apply parse_time_inv in Ht as (a1&a2&b1&b2&c1&c2&?&?&?&?&?&?&?&?&->).
  apply parse_time_inv in Ht'
    as (a1'&a2'&b1'&b2'&c1'&c2'&?&?&?&?&?&?&?&?&->).
  intros Hcmp. digit_ranges.
  compare_separator Hcmp.
  compare_digit Hcmp; [subst|lia].
  compare_digit Hcmp; [subst|lia].
  compare_separator Hcmp.
  compare_digit Hcmp; [subst|lia].
  compare_digit Hcmp; [subst|lia].
  compare_separator Hcmp.
  compare_digit Hcmp; [subst|lia].
  compare_digit Hcmp; [subst|lia].
  lia.
Qed.

(** Dates that parse are ordered in time as their strings are ordered. *)
Lemma parseISO_mono (s s' : string) (t t' : Z) :
  extended s → extended s' →
  String.le s s' → parseISO s = Instant t → parseISO s' = Instant t' →
  t ≤ t'.
Proof.
  intros Hs Hs' Hle Hp Hp'.
  destruct (parseISO_extended_inv s t Hs Hp)
    as (y1&y2&y3&y4&m1&m2&d1&d2&r&day&time&->&Hd&Ht&->).
  destruct (parseISO_extended_inv s' t' Hs' Hp')
    as (y1'&y2'&y3'&y4'&m1'&m2'&d1'&d2'&r'&day'&time'&->&Hd'&Ht'&->).
  assert (String.compare
    (String y1 (String y2 (String y3 (String y4 (String "-" (String m1
       (String m2 (String "-" (String d1 (String d2 r))))))))))
    (String y1' (String y2' (String y3' (String y4' (String "-" (String m1'
       (String m2' (String "-" (String d1' (String d2' r'))))))))))
    ≠ Gt) as Hcmp.
  { unfold String.le, String.leb in Hle. intros Hgt. by rewrite Hgt in Hle. }
  pose proof (parse_time_string_range _ _ Ht).
  pose proof (parse_time_string_range _ _ Ht').
  destruct (parse_date_compare _ _ _ _ _ _ _ _ _ _ _ _ _ _ _ _ _ _ _ _
              Hd Hd' Hcmp) as [Hlt|[-> Hr]]; [lia|].
  pose proof (parse_time_string_compare _ _ _ _ Ht Ht' Hr). lia.
Qed.

End calendar.

(** ** Weeks *)

Section weeks.

Lemma startOfWeek_ms_bounds (t : Z) :
  startOfWeek_ms t ≤ t < startOfWeek_ms t + msPerWeek.
Proof.
  unfold startOfWeek_ms, msPerWeek, msPerDay. Z.div_mod_to_equations. lia.
Qed.

Lemma startOfWeek_ms_shift (t k : Z) :
  startOfWeek_ms (startOfWeek_ms t + k * msPerWeek)
  = startOfWeek_ms t + k * msPerWeek.
Proof.
  unfold startOfWeek_ms, msPerWeek, msPerDay.
  set (day := t / 86400000).
  replace (((day - (day + 4) mod 7) * 86400000 + k * (7 * 86400000))
           / 86400000) with (day - (day + 4) mod 7 + 7 * k)
    by (Z.div_mod_to_equations; lia).
  replace ((day - (day + 4) mod 7 + 7 * k + 4) mod 7) with 0
    by (Z.div_mod_to_equations; lia).
  lia.
Qed.

Lemma startOfWeek_ms_diff (a b : Z) :
  a ≤ b →
  ∃ n, 0 ≤ n ∧ startOfWeek_ms b = startOfWeek_ms a + n * msPerWeek
       ∧ (startOfWeek_ms b - startOfWeek_ms a) / msPerWeek = n.
Proof.
  intros Hab.
  exists (((b / msPerDay - (b / msPerDay + 4) mod 7)
           - (a / msPerDay - (a / msPerDay + 4) mod 7)) / 7).
  unfold startOfWeek_ms, msPerWeek, msPerDay.
  set (x := a / 86400000). set (y := b / 86400000).
  assert (x ≤ y) by (subst x y; Z.div_mod_to_equations; lia).
  clearbody x y. split_and!; Z.div_mod_to_equations; lia.
Qed.

Lemma eachWeekOfInterval_Some (s e : Date) (weeks : list Date) :
  eachWeekOfInterval s e = Some weeks →
  ∃ a b n, s = Instant a ∧ e = Instant b ∧ a ≤ b ∧ 0 ≤ n
           ∧ startOfWeek_ms b = startOfWeek_ms a + n * msPerWeek
           ∧ weeks = (λ k, Instant (startOfWeek_ms a + k * msPerWeek))
                       <$> seqZ 0 (n + 1).
Proof.
  unfold eachWeekOfInterval. destruct s as [a|], e as [b|]; try done.
  destruct (b <? a) eqn:Hba; [done|]. apply Z.ltb_ge in Hba.
  intros [= <-].
  destruct (startOfWeek_ms_diff a b Hba) as (n & Hn & Hb & Hdiv).
  exists a, b, n. rewrite Hdiv. done.
Qed.

Lemma in_week_Instant (w : Z) (d : Event) (t : Z) :
  parseISO (Event.date d) = Instant t →
  in_week (Instant w) d
  ↔ startOfWeek_ms w ≤ t ≤ startOfWeek_ms w + msPerWeek - 1.
Proof.
  intros Ht. unfold in_week, date_le, date_ge. rewrite Ht. simpl.
  rewrite andb_True, !Is_true_true, !Z.leb_le. done.
Qed.

(** Among the consecutive weeks from [first], an instant of the span
    falls in exactly one. *)
Lemma one_week (first t : Z) (n : nat) :
  first ≤ t < first + Z.of_nat n * msPerWeek →
  sum_list_with
    (λ k, if decide (first + k * msPerWeek ≤ t
                     ≤ first + k * msPerWeek + msPerWeek - 1)
          then 1%nat else 0%nat)
    (seqZ 0 (Z.of_nat n)) = 1%nat.
Proof.
  assert (∀ m : nat,
            sum_list_with
              (λ k, if decide (first + k * msPerWeek ≤ t
                               ≤ first + k * msPerWeek + msPerWeek - 1)
                    then 1%nat else 0%nat)
              (seqZ 0 (Z.of_nat m))
            = if decide (first ≤ t < first + Z.of_nat m * msPerWeek)
              then 1%nat else 0%nat) as Hsum.
  { induction m as [|m IH]; simpl.
    - case_decide; [lia|done].
    - rewrite seqZ_S, sum_list_with_app, IH. simpl.
      unfold msPerWeek, msPerDay in *.
      repeat case_decide; lia. }
  intros Ht. rewrite Hsum. by rewrite decide_True.
Qed.

End weeks.

(** ** Conservation of the total *)

Section conservation.
Import BarGraph.

Lemma valid_Instant (d : Date) : valid d → ∃ t, d = Instant t.
Proof. destruct d; [eauto|done]. Qed.

Lemma parseable_elem (data : list Event) (e : Event) :
  parseable data → e ∈ data → ∃ t, parseISO (Event.date e) = Instant t.
Proof.
  intros Hall He. apply valid_Instant.
  by eapply Forall_forall in Hall.
Qed.

Lemma map_index_sum {A B} (f : nat → A → option B) (h : B → nat)
    (g : A → nat) (ks : list A) (bs : list B) :
  map_index f ks = Some bs →
  (∀ i k b, ks !! i = Some k → bs !! i = Some b → h b = g k) →
  sum_list_with h bs = sum_list_with g ks.
Proof.
  intros Hbs Hall. apply sum_list_with_Forall2.
  apply Forall2_same_length_lookup_2; [by apply map_index_length in Hbs|].
  intros i b k Hb Hk. by eapply Hall.
Qed.

Lemma dates_elem (data : list Event) (d : string) :
  d ∈ dates data ↔ d ∈ Event.date <$> data.
Proof. unfold dates. by rewrite sort_elem, Array_from_Set_elem. Qed.

Lemma dates_NoDup (data : list Event) : NoDup (dates data).
Proof. apply sort_NoDup, Array_from_Set_NoDup. Qed.

Lemma sum_totals_daily (data : list Event) bs :
  daily_buckets data = Some bs → sum_totals bs = length data.
Proof.
  intros Hbs. unfold sum_totals.
  rewrite (map_index_sum _ _
             (λ d, length (filter (λ e, Event.date e = d) data)) _ _ Hbs).
  - apply (sum_bins_length (λ d e, Event.date e = d)).
    intros e He. apply (sum_indicator_NoDup (dates data) (Event.date e)).
    + apply dates_NoDup.
    + apply dates_elem, list_elem_of_fmap. eauto.
  - intros i d b Hd Hb.
    destruct (daily_bucket_inv _ _ _ _ Hbs Hb) as (d' & Hd' & Hmd & _).
    simplify_eq. rewrite dailyData_lookup in Hmd.
    by apply tally_of_Some in Hmd as (_ & ? & _).
Qed.

Lemma months_elem (data : list Event) (m : gmap string Tally) (k : string) :
  monthlyData data = Some m →
  k ∈ sort (map_to_list m).*1 ↔ k ∈ month_key <$> data.
Proof.
  intros Hm. rewrite sort_elem.
  assert (k ∈ (map_to_list m).*1 ↔ is_Some (m !! k)) as ->.
  { rewrite list_elem_of_fmap. split.
    - intros ([k' t] & -> & Hin). apply elem_of_map_to_list in Hin. eauto.
    - intros [t Ht]. exists (k, t). split; [done|].
      by apply elem_of_map_to_list. }
  rewrite (monthlyData_lookup _ _ _ Hm), <- not_eq_None_Some, tally_of_None.
  split; [apply dec_stable|auto].
Qed.

Lemma months_NoDup (m : gmap string Tally) : NoDup (sort (map_to_list m).*1).
Proof. apply sort_NoDup, NoDup_fst_map_to_list. Qed.

Lemma sum_totals_monthly (data : list Event) bs :
  monthly_buckets data = Some bs → sum_totals bs = length data.
Proof.
  intros Hbs. unfold sum_totals.
  destruct (monthlyData data) as [m|] eqn:Hm;
    [|by unfold monthly_buckets in Hbs; rewrite Hm in Hbs].
  assert (map_index (monthly_bucket m (sort (map_to_list m).*1))
            (sort (map_to_list m).*1) = Some bs) as Hbs'
    by (by unfold monthly_buckets in Hbs; rewrite Hm in Hbs).
  rewrite (map_index_sum _ _
             (λ k, length (filter (λ e, month_key e = k) data)) _ _ Hbs').
  - apply (sum_bins_length (λ k e, month_key e = k)).
    intros e He. apply (sum_indicator_NoDup _ (month_key e)).
    + apply months_NoDup.
    + apply (months_elem data m _ Hm), list_elem_of_fmap. eauto.
  - intros i k b Hk Hb.
    destruct (monthly_bucket_inv _ _ _ _ Hbs Hb) as (m' & k' & ? & ? & Hmk).
    simplify_eq. rewrite (monthlyData_lookup _ _ _ Hm) in Hmk.
    by apply tally_of_Some in Hmk as (_ & ? & _).
Qed.

Lemma chronological_le (data : list Event) (e e' : Event) (t t' : Z) :
  chronological data → e ∈ data → e' ∈ data →
  String.le (Event.date e) (Event.date e') →
  parseISO (Event.date e) = Instant t →
  parseISO (Event.date e') = Instant t' →
  t ≤ t'.
Proof.
  intros Hchron He He' Hle Ht Ht'. unfold chronological in Hchron.
  rewrite Forall_forall in Hchron. specialize (Hchron e He).
  rewrite Forall_forall in Hchron. specialize (Hchron e' He' Hle).
  rewrite Ht, Ht' in Hchron. unfold date_le, date_ge in Hchron.
  by apply Is_true_eq_true, Z.leb_le in Hchron.
Qed.

Lemma chronological_parseable (data : list Event) :
  chronological data → parseable data.
Proof.
  intros Hchron. apply Forall_forall. intros e He.
  unfold chronological in Hchron.
  rewrite Forall_forall in Hchron. specialize (Hchron e He).
  rewrite Forall_forall in Hchron.
  assert (String.le (Event.date e) (Event.date e)) as Hrefl by done.
  specialize (Hchron e He Hrefl).
  by destruct (parseISO (Event.date e)).
Qed.

(** Dates that are all in the extended form are in the order of their
    strings. *)
Lemma calendar_chronological (data : list Event) :
  calendar data → chronological data.
Proof.
  intros Hcal. unfold calendar in Hcal. rewrite Forall_forall in Hcal.
  apply Forall_forall. intros e He. apply Forall_forall. intros e' He' Hle.
  pose proof (Hcal e He) as [Hext Hv]%andb_prop_elim.
  pose proof (Hcal e' He') as [Hext' Hv']%andb_prop_elim.
  destruct (parseISO (Event.date e)) as [t|] eqn:Ht; [|done].
  destruct (parseISO (Event.date e')) as [t'|] eqn:Ht'; [|done].
  unfold date_le, date_ge. apply Is_true_true, Z.leb_le.
  by apply (parseISO_mono (Event.date e) (Event.date e')).
Qed.

(** The first and the last of the sorted dates bound every event in
    time, when the order of the strings is the order in time. *)
Lemma dates_span (data : list Event) (a b : Z) (e : Event) (t : Z) :
  chronological data →
  parseISO_at (dates data !! 0%nat) = Instant a →
  parseISO_at (dates data !! (length (dates data) - 1)%nat) = Instant b →
  e ∈ data → parseISO (Event.date e) = Instant t →
  a ≤ t ≤ b.
Proof.
  intros Hchron Ha Hb He Ht.
  assert (Event.date e ∈ dates data) as Hin
    by (apply dates_elem, list_elem_of_fmap; eauto).
  pose proof (sort_sorted (Array_from_Set (Event.date <$> data))) as Hsorted.
  fold (dates data) in Hsorted.
  destruct (dates data !! 0%nat) as [d0|] eqn:Hd0; [|done].
  destruct (dates data !! (length (dates data) - 1)%nat) as [d1|] eqn:Hd1;
    [|done].
  simpl in Ha, Hb.
  assert (d0 ∈ Event.date <$> data) as (e0 & -> & He0)%list_elem_of_fmap
    by (by eapply dates_elem, list_elem_of_lookup_2).
  assert (d1 ∈ Event.date <$> data) as (e1 & -> & He1)%list_elem_of_fmap
    by (by eapply dates_elem, list_elem_of_lookup_2).
  split.
  - eapply (chronological_le data e0 e); [done..| |done|done].
    by eapply sorted_first_le.
  - eapply (chronological_le data e e1); [done..| |done|done].
    by eapply sorted_last_ge.
Qed.

Lemma sum_totals_weekly (data : list Event) bs :
  chronological data → weekly_buckets data = Some bs →
  sum_totals bs = length data.
Proof.
  intros Hchron Hbs. pose proof (chronological_parseable _ Hchron) as Hparse.
  unfold sum_totals.
  destruct (eachWeekOfInterval (parseISO_at (dates data !! 0%nat))
              (parseISO_at (dates data !! (length (dates data) - 1)%nat)))
    as [weeks|] eqn:Hweeks;
    [|by unfold weekly_buckets in Hbs; rewrite Hweeks in Hbs].
  assert (map_index (weekly_bucket data weeks) weeks = Some bs) as Hbs'
    by (by unfold weekly_buckets in Hbs; rewrite Hweeks in Hbs).
  rewrite (map_index_sum _ _
             (λ w, length (filter (λ d, in_week w d) data)) _ _ Hbs').
  - apply eachWeekOfInterval_Some in Hweeks
      as (a & b & n & Ha & Hb & Hab & Hn & Hlast & ->).
    apply (sum_bins_length (λ w d, in_week w d)).
    intros e He. destruct (parseable_elem _ _ Hparse He) as [t Ht].
    destruct (dates_span data a b e t Hchron Ha Hb He Ht) as [Hat Htb].
    pose proof (startOfWeek_ms_bounds a). pose proof (startOfWeek_ms_bounds b).
    etrans; [|apply (one_week (startOfWeek_ms a) t (Z.to_nat (n + 1)));
              rewrite Z2Nat.id by lia; lia].
    rewrite Z2Nat.id by lia.
    generalize (seqZ 0 (n + 1)). intros ks.
    induction ks as [|k ks IH]; [done|]. csimpl. rewrite IH. f_equal.
    assert (in_week (Instant (startOfWeek_ms a + k * msPerWeek)) e
            ↔ startOfWeek_ms a + k * msPerWeek ≤ t
              ≤ startOfWeek_ms a + k * msPerWeek + msPerWeek - 1) as Hiff
      by (by rewrite (in_week_Instant _ _ _ Ht), startOfWeek_ms_shift).
    repeat case_decide; tauto.
  - intros i w b Hw Hb.
    destruct (weekly_total _ _ _ _ Hbs Hb) as (ws & w' & ? & ? & ->).
    by simplify_eq.
Qed.

End conservation.

(** ** The passes return on dates that parse *)

Section returns.
Import BarGraph.

Lemma dates_parse (data : list Event) (d : string) :
  parseable data → d ∈ dates data → ∃ t, parseISO d = Instant t.
Proof.
  intros Hparse (e & -> & He)%dates_elem%list_elem_of_fmap.
  by eapply parseable_elem.
Qed.


Lemma month_of_parse (e : Event) (t : Z) :
  parseISO (Event.date e) = Instant t →
  ∃ k, month_of e = Some k ∧ month_key e = k
       ∧ parseISO (k +:+ "-01") ≠ InvalidDate.
Proof.
  intros Ht. destruct (month_label_parses _ _ Ht) as (k & Hk & Hlabel).
  exists k. unfold month_key, month_of. rewrite Ht, Hk. done.
Qed.

Lemma monthly_buckets_is_Some (data : list Event) :
  parseable data → is_Some (monthly_buckets data).
Proof.
  intros Hparse. unfold monthly_buckets.
  destruct (monthlyData_is_Some data) as [m Hm].
  { apply Forall_forall. intros e He.
    destruct (parseable_elem _ _ Hparse He) as [t Ht].
    destruct (month_of_parse e t Ht) as (k & -> & _). by eexists. }
  rewrite Hm. simpl. apply map_index_is_Some. intros i k Hk.
  assert (k ∈ month_key <$> data) as (e & -> & He)%list_elem_of_fmap.
  { apply (months_elem data m k Hm). by eapply list_elem_of_lookup_2. }
  destruct (parseable_elem _ _ Hparse He) as [t Ht].
  destruct (month_of_parse e t Ht) as (k & _ & Hkey & Hlabel).
  rewrite Hkey in *.
  assert (is_Some (m !! k)) as [current Hcurrent].
  { rewrite (monthlyData_lookup _ _ _ Hm), <- not_eq_None_Some, tally_of_None.
    intros Hnot. apply Hnot, list_elem_of_fmap. eauto. }
  unfold monthly_bucket. rewrite Hcurrent. simpl.
  destruct (parseISO (k +:+ "-01")) as [t'|] eqn:Ht'; [|done].
  destruct (format_valid t' MMM_yyyy) as [label ->]. by eexists.
Qed.

Lemma weekly_buckets_is_Some (data : list Event) :
  chronological data → data ≠ [] → is_Some (weekly_buckets data).
Proof.
  intros Hchron Hne. pose proof (chronological_parseable _ Hchron) as Hparse.
  unfold weekly_buckets.
  assert (0 < length (dates data))%nat as Hlen.
  { unfold dates. rewrite sort_length.
    destruct (Array_from_Set (Event.date <$> data)) eqn:Hset; [|simpl; lia].
    apply Array_from_Set_nil_inv, fmap_nil_inv in Hset. done. }
  destruct (lookup_lt_is_Some_2 (dates data) 0) as [d0 Hd0]; [done|].
  destruct (lookup_lt_is_Some_2 (dates data) (length (dates data) - 1))
    as [d1 Hd1]; [lia|].
  rewrite Hd0, Hd1. simpl.
  destruct (dates_parse data d0 Hparse) as [a Ha];
    [by eapply list_elem_of_lookup_2|].
  destruct (dates_parse data d1 Hparse) as [b Hb];
    [by eapply list_elem_of_lookup_2|].
  rewrite Ha, Hb. simpl.
  assert (a ≤ b) as Hab.
  { assert (d1 ∈ Event.date <$> data) as (e1 & -> & He1)%list_elem_of_fmap
      by (by eapply dates_elem, list_elem_of_lookup_2).
    apply (dates_span data a b e1 b); [done|by rewrite Hd0|by rewrite Hd1|
                                       done|done]. }
  rewrite (proj2 (Z.ltb_ge b a)) by done. simpl.
  apply map_index_is_Some. intros i w Hw.
  apply list_lookup_fmap_Some in Hw as (k & -> & _).
  unfold weekly_bucket.
  destruct (format_valid (startOfWeek_ms a + k * msPerWeek) yyyy_MM_dd)
    as [p ->].
  destruct (format_valid (startOfWeek_ms a + k * msPerWeek) MMM_dd)
    as [label ->].
  by eexists.
Qed.

End returns.

(** ** The heatmap *)

Lemma Math_max_1_spec (l : list nat) :
  (1 ≤ Math_max_1 l)%nat
  ∧ Forall (λ x, x ≤ Math_max_1 l)%nat l
  ∧ (Math_max_1 l = 1%nat ∨ Math_max_1 l ∈ l).
Proof.
  unfold Math_max_1. induction l as [|x l (Hone & Hall & Hin)]; simpl.
  - split_and!; [lia|constructor|by left].
  - split_and!; [lia| |].
    + constructor; [lia|]. eapply Forall_impl; [done|]. simpl. lia.
    + destruct (Nat.max_spec x (foldr Nat.max 1%nat l)) as [[_ ->]|[_ ->]].
      * destruct Hin as [?|?]; [by left|right; by right].
      * right. left.
Qed.

Lemma Math_max_1_le (l k : list nat) :
  (∀ x, x ∈ l → x ∈ k) → (Math_max_1 l ≤ Math_max_1 k)%nat.
Proof.
  intros Hsub.
  destruct (Math_max_1_spec l) as (_ & _ & [->|Hin]);
    destruct (Math_max_1_spec k) as (? & Hall & _); [done|].
  eapply Forall_forall in Hall; [done|]. by apply Hsub.
Qed.

Lemma Math_max_1_ext (l k : list nat) :
  (∀ x, x ∈ l ↔ x ∈ k) → Math_max_1 l = Math_max_1 k.
Proof.
  intros Hiff. apply Nat.le_antisymm; apply Math_max_1_le; intros x;
    apply Hiff.
Qed.

Lemma Math_max_1_nested (ls : list (list nat)) :
  Math_max_1 (Math_max_1 <$> ls) = Math_max_1 (mjoin ls).
Proof.
  apply Nat.le_antisymm.
  - destruct (Math_max_1_spec (Math_max_1 <$> ls)) as (_ & _ & [->|Hin]);
      [apply Math_max_1_spec|].
    apply list_elem_of_fmap in Hin as (l & -> & Hl).
    apply Math_max_1_le. intros x Hx. apply list_elem_of_join. eauto.
  - destruct (Math_max_1_spec (mjoin ls)) as (_ & _ & [->|Hin]);
      [apply Math_max_1_spec|].
    apply list_elem_of_join in Hin as (l & Hx & Hl).
    destruct (Math_max_1_spec l) as (_ & Hall & _).
    eapply Forall_forall in Hall; [|done]. etrans; [done|].
    destruct (Math_max_1_spec (Math_max_1 <$> ls)) as (_ & Hall' & _).
    eapply Forall_forall in Hall'; [done|].
    apply list_elem_of_fmap. eauto.
Qed.

Lemma filterM_Some {A} (p : A → option bool) (l k : list A) :
  filterM p l = Some k →
  k = filter (λ x, p x = Some true) l ∧ Forall (λ x, is_Some (p x)) l.
Proof.
  revert k. induction l as [|x l IH]; intros k; simpl.
  - intros [= <-]. done.
  - destruct (p x) as [b|] eqn:Hb; [|done]. simpl.
    destruct (filterM p l) as [rest|]; [|done]. simpl.
    destruct (IH rest eq_refl) as [-> Hall]. intros [= <-].
    split; [|constructor; [by eexists|done]].
    rewrite filter_cons. destruct b.
    + by rewrite decide_True by done.
    + by rewrite decide_False by congruence.
Qed.

Lemma mapM_total {A B} (f : A → option B) (g : A → B) (l : list A)
    (k : list B) :
  mapM f l = Some k → (∀ x y, f x = Some y → y = g x) → k = g <$> l.
Proof.
  intros Hk%mapM_Some Hg. induction Hk as [|x y l k Hxy _ IH]; [done|].
  csimpl. f_equal; [by apply Hg|done].
Qed.

Lemma mapM_elem_r {A B} (f : A → option B) (l : list A) (k : list B) (y : B) :
  mapM f l = Some k → y ∈ k → ∃ x, x ∈ l ∧ f x = Some y.
Proof.
  intros Hk%mapM_Some [i Hi]%list_elem_of_lookup.
  destruct (Forall2_lookup_r _ _ _ _ _ Hk Hi) as (x & Hx & Hxy).
  exists x. split; [by eapply list_elem_of_lookup_2|done].
Qed.

Lemma mapM_elem_l {A B} (f : A → option B) (l : list A) (k : list B) (x : A) :
  mapM f l = Some k → x ∈ l → ∃ y, y ∈ k ∧ f x = Some y.
Proof.
  intros Hk%mapM_Some [i Hi]%list_elem_of_lookup.
  destruct (Forall2_lookup_l _ _ _ _ _ Hk Hi) as (y & Hy & Hxy).
  exists y. split; [by eapply list_elem_of_lookup_2|done].
Qed.

Section heat.
Import HeatmapChart.

Lemma statusCounts_counted (evs : list Event) (s : Status) :
  counted (statusCounts evs !! s) ↔ Exists (λ e, Event.status e = s) evs.
Proof.
  unfold statusCounts.
  assert (∀ acc : gmap Status nat,
            counted
              (foldl (λ acc event,
                        <[Event.status event :=
                            (default 0%nat (acc !! Event.status event)
                             + 1)%nat]>
                          acc) acc evs !! s)
            ↔ counted (acc !! s) ∨ Exists (λ e, Event.status e = s) evs) as H.
  { induction evs as [|e evs IH]; intros acc; simpl.
    - rewrite Exists_nil. tauto.
    - rewrite IH, Exists_cons, lookup_insert. case_decide as Hs.
      + rewrite Nat.add_1_r. simpl. tauto.
      + tauto. }
  rewrite H, lookup_empty. simpl. tauto.
Qed.

Lemma dominant_spec (evs : list Event) :
  dominant evs
  = if decide (Exists (λ e, Event.status e = Fail) evs) then Fail
    else if decide (Exists (λ e, Event.status e = Warning) evs) then Warning
    else Success.
Proof.
  unfold dominant.
  pose proof (statusCounts_counted evs Fail) as HF.
  pose proof (statusCounts_counted evs Warning) as HW.
  destruct (counted (statusCounts evs !! Fail));
    destruct (counted (statusCounts evs !! Warning));
    repeat case_decide; simpl in *; tauto.
Qed.

Lemma daily_cell_inv (data : list Event) (dates : list string) a d c :
  daily_cell data dates a d = Some c →
  is_cell a d (dayEvents data a d)
    (Math_max_1 ((λ d, length (dayEvents data a d)) <$> dates)) c.
Proof.
  unfold daily_cell. destruct (format _ MMM_dd); [|done].
  intros [= <-]. by repeat split.
Qed.

Lemma monthly_cell_inv (data : list Event) (months : list string) a m c :
  monthly_cell data months a m = Some c →
  ∃ evs, monthEvents data a m = Some evs
         ∧ is_cell a m evs (Math_max_1 (month_size data a <$> months)) c.
Proof.
  unfold monthly_cell.
  destruct (monthEvents data a m) as [evs|] eqn:Hevs; [|done]. simpl.
  intros Hc. exists evs. split; [done|].
  destruct (0 <? length evs)%nat eqn:Hlen.
  - destruct (mapM _ months) as [sizes|] eqn:Hsizes; [|done]. simpl in Hc.
    destruct (format _ MMM_yyyy); [|done]. simplify_eq/=.
    apply (mapM_total _ (month_size data a)) in Hsizes as ->.
    + repeat split; simpl; by rewrite ?Hlen.
    + intros m' n Hn. unfold month_size.
      destruct (monthEvents data a m'); by simplify_eq/=.
  - simpl in Hc. destruct (format _ MMM_yyyy); [|done]. simplify_eq/=.
    repeat split; simpl; by rewrite ?Hlen.
Qed.

Lemma weekly_cell_inv (data : list Event) (types : list string)
    (weeks : list Date) a w c :
  weekly_cell data types weeks a w = Some c →
  ∃ key, format w yyyy_MM_dd = Some key
         ∧ is_cell a key (weekEvents data a w)
             (Math_max_1
                ((λ type,
                    Math_max_1
                      ((λ w, length (weekEvents data type w)) <$> weeks))
                   <$> types)) c.
Proof.
  unfold weekly_cell. destruct (format w yyyy_MM_dd) as [key|]; [|done].
  simpl. destruct (format w MMM_dd); [|done]. intros [= <-].
  exists key. by repeat split.
Qed.

Section grid.
Context {P : Type} (cell : string → P → option Cell).
Context (types : list string) (periods : list P) (cells : list Cell).
Context (Hgrid : grid cell types periods = Some cells).

Lemma grid_elem (c : Cell) :
  c ∈ cells → ∃ a p, a ∈ types ∧ p ∈ periods ∧ cell a p = Some c.
Proof using Hgrid.
  unfold grid in Hgrid. apply fmap_Some in Hgrid as (rows & Hrows & ->).
  intros (row & Hc & Hrow)%list_elem_of_join.
  destruct (mapM_elem_r _ _ _ _ Hrows Hrow) as (a & Ha & Hrow').
  destruct (mapM_elem_r _ _ _ _ Hrow' Hc) as (p & Hp & Hcell).
  eauto.
Qed.

Lemma grid_complete (a : string) (p : P) :
  a ∈ types → p ∈ periods → ∃ c, c ∈ cells ∧ cell a p = Some c.
Proof using Hgrid.
  unfold grid in Hgrid. apply fmap_Some in Hgrid as (rows & Hrows & ->).
  intros Ha Hp.
  destruct (mapM_elem_l _ _ _ _ Hrows Ha) as (row & Hrow & Hrow').
  destruct (mapM_elem_l _ _ _ _ Hrow' Hp) as (c & Hc & Hcell).
  exists c. split; [|done]. apply list_elem_of_join. eauto.
Qed.

Context (size : string → P → nat).
Context (Hsize : ∀ a p c, cell a p = Some c →
                          activityType c = a ∧ count c = size a p).

Lemma grid_row_max (a : string) :
  a ∈ types →
  Math_max_1 (count <$> filter (λ c', activityType c' = a) cells)
  = Math_max_1 (size a <$> periods).
Proof using Hgrid Hsize.
  intros Ha. apply Math_max_1_ext. intros x.
  rewrite !list_elem_of_fmap. split.
  - intros (c & -> & [Hc Hin]%list_elem_of_filter).
    destruct (grid_elem c Hin) as (a' & p & _ & Hp & Hcell).
    destruct (Hsize _ _ _ Hcell) as [Ha' ->].
    rewrite Hc in Ha'. subst a'. eauto.
  - intros (p & -> & Hp).
    destruct (grid_complete a p Ha Hp) as (c & Hin & Hcell).
    destruct (Hsize _ _ _ Hcell) as [Ha' Hcount].
    exists c. split; [done|]. by apply list_elem_of_filter.
Qed.

Lemma grid_all_max :
  Math_max_1 (count <$> cells)
  = Math_max_1 ((λ type, Math_max_1 (size type <$> periods)) <$> types).
Proof using Hgrid Hsize.
  change (λ type, Math_max_1 (size type <$> periods))
    with (Math_max_1 ∘ (λ type, size type <$> periods)).
  rewrite list_fmap_compose, Math_max_1_nested.
  apply Math_max_1_ext. intros x.
  rewrite list_elem_of_fmap, list_elem_of_join. split.
  - intros (c & -> & Hin).
    destruct (grid_elem c Hin) as (a & p & Ha & Hp & Hcell).
    destruct (Hsize _ _ _ Hcell) as [_ ->].
    exists (size a <$> periods). split.
    + apply list_elem_of_fmap. eauto.
    + apply list_elem_of_fmap. by exists a.
  - intros (row & Hx & (a & -> & Ha)%list_elem_of_fmap).
    apply list_elem_of_fmap in Hx as (p & -> & Hp).
    destruct (grid_complete a p Ha Hp) as (c & Hin & Hcell).
    destruct (Hsize _ _ _ Hcell) as [_ Hcount]. eauto.
Qed.
End grid.

End heat.

Section cells.
Import HeatmapChart.

Lemma weekEvents_elem (data : list Event) (a : string) (w : Date) (e : Event) :
  e ∈ weekEvents data a w ↔
  e ∈ data ∧ Event.activityType e = a
  ∧ date_ge (parseISO (Event.date e)) (startOfWeek w)
  ∧ date_le (parseISO (Event.date e)) (endOfWeek w).
Proof.
  unfold weekEvents, in_week. rewrite list_elem_of_filter.
  rewrite !andb_True, bool_decide_spec. tauto.
Qed.

Lemma dayEvents_elem (data : list Event) (a d : string) (e : Event) :
  e ∈ dayEvents data a d ↔
  e ∈ data ∧ Event.activityType e = a ∧ Event.date e = d.
Proof.
  unfold dayEvents. rewrite list_elem_of_filter.
  rewrite andb_True, !bool_decide_spec. tauto.
Qed.

Lemma monthEvents_elem (data : list Event) (a m : string) evs (e : Event) :
  monthEvents data a m = Some evs →
  e ∈ evs ↔
  e ∈ data ∧ Event.activityType e = a
  ∧ format (parseISO (Event.date e)) yyyy_MM = Some m.
Proof.
  intros [-> _]%filterM_Some. rewrite list_elem_of_filter.
  destruct (format (parseISO (Event.date e)) yyyy_MM) as [k|]; simpl.
  - split.
    + intros [[= Hb] He]. apply andb_prop in Hb as [Hk Ha].
      apply bool_decide_eq_true in Hk, Ha. by subst.
    + intros (He & Ha & [= ->]). split; [|done].
      by rewrite !bool_decide_eq_true_2.
  - split; [by intros [? _]|by intros (_ & _ & ?)].
Qed.

(** Every cell of [gridData]: its fields, with the maximum over its
    comparison set as the denominator, and its events. *)
Lemma gridData_cell (data : list Event) (g : Granularity) cells c :
  gridData data g = Some cells → c ∈ cells →
  is_cell (activityType c) (period c) (events c)
    (Math_max_1 (count <$> comparable g c cells)) c
  ∧ ∀ e, e ∈ events c →
         e ∈ data ∧ Event.activityType e = activityType c
         ∧ in_period g data c e.
Proof.
  unfold gridData. intros Hgrid Hc.
  destruct (weeks data) as [ws|] eqn:Hws; [|done]. simpl in Hgrid.
  destruct g; simpl in Hgrid.
  - destruct (grid_elem _ _ _ _ Hgrid c Hc) as (a & d & Ha & Hd & Hcell).
    pose proof (daily_cell_inv _ _ _ _ _ Hcell)
      as (Hty & Hper & Hev & Hcount & Hst & Hint).
    split.
    + unfold is_cell. rewrite Hty, Hper, Hev. split_and!; try done.
      simpl. rewrite Hty.
      rewrite (grid_row_max _ _ _ _ Hgrid
                 (λ a d, length (dayEvents data a d))); [done| |done].
      intros a' d' c' Hcell'.
      by pose proof (daily_cell_inv _ _ _ _ _ Hcell') as (? & _ & _ & ? & _).
    + intros e He. rewrite Hev in He.
      apply dayEvents_elem in He as (? & ? & ?). simpl. by rewrite Hty, Hper.
  - destruct (grid_elem _ _ _ _ Hgrid c Hc) as (a & w & Ha & Hw & Hcell).
    pose proof (weekly_cell_inv _ _ _ _ _ _ Hcell)
      as (key & Hkey & Hty & Hper & Hev & Hcount & Hst & Hint).
    split.
    + unfold is_cell. rewrite Hty, Hper, Hev. split_and!; try done.
      simpl.
      rewrite (grid_all_max _ _ _ _ Hgrid
                 (λ a w, length (weekEvents data a w))); [done|].
      intros a' w' c' Hcell'.
      by pose proof (weekly_cell_inv _ _ _ _ _ _ Hcell')
        as (? & _ & ? & _ & _ & ? & _).
    + intros e He. rewrite Hev in He.
      apply weekEvents_elem in He as (? & ? & ? & ?). simpl.
      rewrite Hty, Hper. split_and!; [done..|]. by exists ws, w.
  - destruct (mapM _ (dates data)) as [keys|]; [|done]. simpl in Hgrid.
    destruct (grid_elem _ _ _ _ Hgrid c Hc) as (a & m & Ha & Hm & Hcell).
    pose proof (monthly_cell_inv _ _ _ _ _ Hcell)
      as (evs & Hevs & Hty & Hper & Hev & Hcount & Hst & Hint).
    split.
    + unfold is_cell. rewrite Hty, Hper, Hev. split_and!; try done.
      simpl. rewrite Hty.
      rewrite (grid_row_max _ _ _ _ Hgrid (month_size data)); [done| |done].
      intros a' m' c' Hcell'.
      pose proof (monthly_cell_inv _ _ _ _ _ Hcell')
        as (evs' & Hevs' & ? & _ & _ & ? & _).
      unfold month_size. by rewrite Hevs'.
    + intros e He. rewrite Hev in He.
      apply (monthEvents_elem _ _ _ _ _ Hevs) in He as (? & ? & ?).
      simpl. by rewrite Hty, Hper.
Qed.

Lemma comparable_self (g : Granularity) cells c :
  c ∈ cells → c ∈ comparable g c cells.
Proof.
  intros Hc. destruct g; simpl; [|done|]; by apply list_elem_of_filter.
Qed.

End cells.

(** * The claims *)

Section claims_bar.
Import BarGraph.

(** C1, as stated, fails at the weekly granularity.  With one event on
    2024-01-01 and one on 2024-01-15 the weekly buckets have the totals
    1, 0, 1; the third bucket follows an empty one and has [trend] 0,
    where the stated formula round((1 - 0) / max(0, 1) * 100) gives
    100. *)
Lemma trend_after_empty_week :
  ∃ bs prev cur,
    processedData two_weeks_apart weekly = Some bs
    ∧ bs !! 1%nat = Some prev ∧ bs !! 2%nat = Some cur
    ∧ total (counts prev) = 0%nat ∧ total (counts cur) = 1%nat
    ∧ trend cur = of_int 0
    ∧ Math_round (percent (total (counts cur)) (total (counts prev))
                    (Nat.max (total (counts prev)) 1)) = of_int 100
    ∧ trend cur
      ≠ Math_round (percent (total (counts cur)) (total (counts prev))
                      (Nat.max (total (counts prev)) 1)).
Proof.
  eexists _, _, _. split; [vm_compute; reflexivity|].
  split; [reflexivity|]. split; [reflexivity|].
  split_and!; [reflexivity..|]. vm_compute. discriminate.
Qed.

(** C1, amended.  In every bucket sequence of [processedData], bucket 0
    has [trend] 0 and direction stable.  For a bucket with total [t]
    after a bucket with total [p]: at the daily and monthly
    granularities [p] is at least 1 and [trend] is
    round((t - p) / max(p, 1) * 100); at the weekly granularity [trend]
    is that same value when [p] is positive and 0 when [p] is 0.  The
    expression is [percent], evaluated as the code evaluates it: the
    quotient and the product are each rounded to binary64 before
    [Math_round], so that 29 events after 40 give -28
    ([percent_binary64]). *)
Theorem trend_percent (data : list Event) (g : Granularity) bs :
  processedData data g = Some bs →
  (∀ b, bs !! 0%nat = Some b → trend b = of_int 0 ∧ trendDirection b = stable)
  ∧ (∀ i prev cur, bs !! i = Some prev → bs !! S i = Some cur →
       let t := total (counts cur) in
       let p := total (counts prev) in
       (g ≠ weekly → (1 ≤ p)%nat)
       ∧ trend cur
         = if decide (g = weekly ∧ p = 0%nat) then of_int 0
           else Math_round (percent t p (Nat.max p 1))).
Proof.
  intros Hbs. split; [intros b; by apply (first_bucket data g)|].
  intros i prev cur Hprev Hcur t p.
  destruct (consecutive_buckets data g bs i prev cur Hbs Hprev Hcur)
    as [Htrend _].
  fold t p in Htrend. split.
  - intros Hg. by apply (keyed_bucket_total data g bs i prev).
  - rewrite Htrend. subst t p. destruct g.
    + by rewrite decide_False by (by intros [? _]).
    + simpl. destruct (total (counts prev)) as [|p'] eqn:Hp.
      * by rewrite decide_True by done.
      * rewrite decide_False by (by intros [_ ?]).
        by replace (Nat.max (S p') 1) with (S p') by lia.
    + rewrite decide_False by (by intros [? _]).
      pose proof (keyed_bucket_total data monthly bs i prev) as Hp.
      simpl. by rewrite Nat.max_l by (apply Hp; done).
Qed.

Lemma trend_percent_witness :
  ∃ bs, processedData two_weeks_apart weekly = Some bs
    ∧ (∀ b, bs !! 0%nat = Some b
            → trend b = of_int 0 ∧ trendDirection b = stable)
    ∧ (∀ i prev cur, bs !! i = Some prev → bs !! S i = Some cur →
         let t := total (counts cur) in
         let p := total (counts prev) in
         (weekly ≠ weekly → (1 ≤ p)%nat)
         ∧ trend cur
           = if decide (weekly = weekly ∧ p = 0%nat) then of_int 0
             else Math_round (percent t p (Nat.max p 1))).
Proof.
  eexists. split; [vm_compute; reflexivity|].
  apply (trend_percent two_weeks_apart weekly). vm_compute. reflexivity.
Defined.

(** C4, as stated, fails.  With 201 events on 2024-01-01 and 202 on
    2024-01-02 the second daily bucket has the unrounded change
    1 / 201 * 100, below 0.5: its [trend] is 0 and its direction is up,
    not the direction (stable) of the rounded value. *)
Lemma direction_of_small_rise :
  ∃ bs b,
    processedData small_rise daily = Some bs
    ∧ bs !! 1%nat = Some b
    ∧ trend b = of_int 0
    ∧ trendDirection b = up
    ∧ direction (trend b) = stable.
Proof.
  eexists _, _. split; [vm_compute; reflexivity|].
  split; [reflexivity|]. split_and!; vm_compute; reflexivity.
Qed.

(** C4, amended.  The direction follows the sign of the unrounded
    change, that is the comparison of the two totals: bucket 0 is stable;
    a bucket with total [t] after a bucket with total [p] is up when
    [t > p], down when [t < p] and stable when [t = p], except that at
    the weekly granularity a bucket after an empty week is stable. *)
Theorem trend_direction (data : list Event) (g : Granularity) bs :
  processedData data g = Some bs →
  (∀ b, bs !! 0%nat = Some b → trendDirection b = stable)
  ∧ (∀ i prev cur, bs !! i = Some prev → bs !! S i = Some cur →
       let t := total (counts cur) in
       let p := total (counts prev) in
       trendDirection cur
       = if decide (g = weekly ∧ p = 0%nat) then stable
         else match (t ?= p)%nat with
              | Gt => up
              | Lt => down
              | Eq => stable
              end).
Proof.
  intros Hbs. split; [intros b Hb; by apply (first_bucket data g bs b)|].
  intros i prev cur Hprev Hcur t p.
  destruct (consecutive_buckets data g bs i prev cur Hbs Hprev Hcur)
    as [_ Hdir].
  fold t p in Hdir. rewrite Hdir. subst t p. destruct g.
  - rewrite decide_False by (by intros [? _]). apply direction_percent. lia.
  - simpl. destruct (total (counts prev)) as [|p'] eqn:Hp.
    + by rewrite decide_True by done.
    + rewrite decide_False by (by intros [_ ?]). apply direction_percent. lia.
  - rewrite decide_False by (by intros [? _]). apply direction_percent.
    by apply (keyed_bucket_total data monthly bs i prev).
Qed.

Lemma trend_direction_witness :
  ∃ bs, processedData small_rise daily = Some bs
    ∧ (∀ b, bs !! 0%nat = Some b → trendDirection b = stable)
    ∧ (∀ i prev cur, bs !! i = Some prev → bs !! S i = Some cur →
         let t := total (counts cur) in
         let p := total (counts prev) in
         trendDirection cur
         = if decide (daily = weekly ∧ p = 0%nat) then stable
           else match (t ?= p)%nat with
                | Gt => up
                | Lt => down
                | Eq => stable
                end).
Proof.
  eexists. split; [vm_compute; reflexivity|].
  apply (trend_direction small_rise daily). vm_compute. reflexivity.
Defined.

(** C2, as stated, fails.  Events on 2024-01-01 and 2024-01-03 and none
    on 2024-01-02 yield two daily buckets, for the two dates that have
    events; no bucket has total 0. *)
Lemma daily_skips_days_without_events :
  ∃ bs,
    processedData two_days_apart daily = Some bs
    ∧ length bs = 2%nat
    ∧ (λ b, period (counts b)) <$> bs = ["2024-01-01"; "2024-01-03"]
    ∧ Forall (λ b, total (counts b) ≠ 0%nat) bs.
Proof.
  eexists. split; [vm_compute; reflexivity|].
  split_and!; [reflexivity..|]. by repeat constructor.
Qed.

(** C2, amended.  The daily bucket sequence has one bucket per distinct
    date string of the events, in ascending order of the strings; each
    bucket counts the events of its date, at least one. *)
Theorem daily_bucket_periods (data : list Event) bs :
  processedData data daily = Some bs →
  let periods := (λ b, period (counts b)) <$> bs in
  periods = sort (Array_from_Set (Event.date <$> data))
  ∧ (∀ d, d ∈ periods ↔ ∃ e, e ∈ data ∧ Event.date e = d)
  ∧ NoDup periods
  ∧ StronglySorted String.le periods
  ∧ (∀ b, b ∈ bs →
          total (counts b)
          = length (filter (λ e, Event.date e = period (counts b)) data)
          ∧ (1 ≤ total (counts b))%nat).
Proof.
  simpl. intros Hbs.
  assert (∀ i b, bs !! i = Some b →
            dates data !! i = Some (period (counts b))
            ∧ total (counts b)
              = length (filter (λ e, Event.date e = period (counts b)) data)
            ∧ (1 ≤ total (counts b))%nat) as Hbucket.
  { intros i b Hb.
    destruct (daily_bucket_inv _ _ _ _ Hbs Hb) as (d & Hd & Hmd & _).
    rewrite dailyData_lookup in Hmd.
    apply tally_of_Some in Hmd as (<- & ? & ?). done. }
  assert ((λ b, period (counts b)) <$> bs = dates data) as Hperiods.
  { apply list_eq. intros i. rewrite list_lookup_fmap.
    destruct (bs !! i) as [b|] eqn:Hb; simpl.
    - by destruct (Hbucket i b Hb) as [-> _].
    - symmetry. apply lookup_ge_None. apply lookup_ge_None in Hb.
      apply map_index_length in Hbs. lia. }
  rewrite Hperiods. split_and!.
  - done.
  - intros d. rewrite dates_elem, list_elem_of_fmap.
    split; intros (e & ? & ?); eauto.
  - apply dates_NoDup.
  - apply sort_sorted.
  - intros b [i Hb]%list_elem_of_lookup. by apply (Hbucket i b).
Qed.

Lemma daily_bucket_periods_witness :
  ∃ bs, processedData two_days_apart daily = Some bs
    ∧ let periods := (λ b, period (counts b)) <$> bs in
      periods = sort (Array_from_Set (Event.date <$> two_days_apart))
      ∧ (∀ d, d ∈ periods ↔ ∃ e, e ∈ two_days_apart ∧ Event.date e = d)
      ∧ NoDup periods
      ∧ StronglySorted String.le periods
      ∧ (∀ b, b ∈ bs →
           total (counts b)
           = length (filter (λ e, Event.date e = period (counts b))
                       two_days_apart)
           ∧ (1 ≤ total (counts b))%nat).
Proof.
  eexists. split; [vm_compute; reflexivity|].
  apply (daily_bucket_periods two_days_apart). vm_compute. reflexivity.
Defined.

(** C3: on the empty collection the daily and monthly bar passes and the
    heatmap pass at every granularity return the empty sequence; the
    weekly bar pass throws. *)
Theorem empty_input :
  processedData [] daily = Some []
  ∧ processedData [] monthly = Some []
  ∧ (∀ g, HeatmapChart.gridData [] g = Some [])
  ∧ processedData [] weekly = None.
Proof. split_and!; [done..| |done]. by intros []. Qed.

End claims_bar.

Section claims_totals.
Import BarGraph.




(** C9.  When every event has a date that parses, the monthly pass
    returns, every bucket has a total of at least 1, and every [trend]
    is an integer: no division by the previous total is a division by
    zero. *)
Theorem monthly_totals_positive (data : list Event) :
  parseable data →
  ∃ bs, processedData data monthly = Some bs
        ∧ ∀ b, b ∈ bs →
               (1 ≤ total (counts b))%nat ∧ ∃ z : Z, trend b = of_int z.
Proof.
  intros Hparse.
  destruct (monthly_buckets_is_Some data Hparse) as [bs Hbs].
  exists bs. split; [done|]. intros b [i Hb]%list_elem_of_lookup. split.
  - by apply (keyed_bucket_total data monthly bs i b).
  - destruct i as [|i].
    + exists 0. by apply (first_bucket data monthly bs b).
    + destruct (lookup_lt_is_Some_2 bs i) as [prev Hprev].
      { apply lookup_lt_Some in Hb. lia. }
      destruct (consecutive_buckets data monthly bs i prev b Hbs Hprev Hb)
        as [-> _].
      pose proof (keyed_bucket_total data monthly bs i prev
                    ltac:(done) Hbs Hprev) as Hp.
      simpl. destruct (percent_Num (total (counts b)) (total (counts prev))
                         (total (counts prev)) Hp) as (q & -> & _).
      by eexists.
Qed.

(** Two months: the bucket of February divides by the total of January,
    3, and its trend is -33. *)
Lemma monthly_totals_positive_witness :
  ∃ bs, processedData two_months monthly = Some bs
        ∧ (total ∘ counts <$> bs = [3; 2]%nat
           ∧ trend <$> bs = [of_int 0; of_int (-33)])
        ∧ ∀ b, b ∈ bs →
               (1 ≤ total (counts b))%nat ∧ ∃ z : Z, trend b = of_int z.
Proof.
  destruct (monthly_totals_positive two_months) as (bs & Hbs & Hall).
  { apply (bool_decide_unpack _). vm_compute. exact I. }
  exists bs. split; [exact Hbs|]. split; [|exact Hall].
  eassert (processedData two_months monthly = Some _) as Hrun
    by (vm_compute; reflexivity).
  rewrite Hbs in Hrun. injection Hrun as ->. vm_compute.
  split; reflexivity.
Defined.

End claims_totals.

Section claims_heat.
Import HeatmapChart.

(** C5.  The intensity of every cell is its count divided by the largest
    count of its comparison set, at least 1: the cells of the same
    activity type at the daily and monthly granularities, all the cells
    at the weekly granularity. *)
Theorem intensity_denominator (data : list Event) (g : Granularity) cells c :
  gridData data g = Some cells → c ∈ cells →
  let bins :=
    match g with
    | weekly => cells
    | daily | monthly =>
        filter (λ c', activityType c' = activityType c) cells
    end in
  let denominator := foldr Nat.max 1%nat (count <$> bins) in
  (1 ≤ denominator)%nat ∧ intensity c = ratio (count c) denominator.
Proof.
  intros Hgrid Hc bins denominator.
  destruct (gridData_cell data g cells c Hgrid Hc)
    as [(_ & _ & _ & Hcount & _ & Hint) _].
  assert (denominator = Math_max_1 (count <$> comparable g c cells)) as ->
    by (by destruct g).
  destruct (Math_max_1_spec (count <$> comparable g c cells)) as (Hone & _).
  split; [done|]. rewrite Hint, Hcount.
  destruct (length (events c)) as [|n]; simpl; [|done].
  by rewrite ratio_zero.
Qed.

Lemma intensity_denominator_witness :
  ∃ cells c,
    gridData scenarioA weekly = Some cells ∧ cells !! 1%nat = Some c
    ∧ let denominator := foldr Nat.max 1%nat (count <$> cells) in
      (1 ≤ denominator)%nat ∧ intensity c = ratio (count c) denominator.
Proof.
  eexists _, _. split; [vm_compute; reflexivity|]. split; [reflexivity|].
  eapply (intensity_denominator scenarioA weekly);
    [vm_compute; reflexivity|]. right. left.
Defined.

(** C6.  A cell with a positive count has the status fail when one of
    its events has the status fail, else warning when one of its events
    has the status warning, else success. *)
Theorem dominant_status (data : list Event) (g : Granularity) cells c :
  gridData data g = Some cells → c ∈ cells → (0 < count c)%nat →
  let has s := ∃ e, e ∈ events c ∧ Event.status e = s in
  (has Fail → status c = Some Fail)
  ∧ (¬ has Fail → has Warning → status c = Some Warning)
  ∧ (¬ has Fail → ¬ has Warning → status c = Some Success).
Proof.
  intros Hgrid Hc Hpos has.
  destruct (gridData_cell data g cells c Hgrid Hc)
    as [(_ & _ & _ & Hcount & Hst & _) _].
  rewrite Hcount in Hpos. apply Nat.ltb_lt in Hpos.
  rewrite Hpos, dominant_spec in Hst. rewrite Hst.
  assert (∀ s, has s ↔ Exists (λ e, Event.status e = s) (events c)) as Hhas.
  { intros s. unfold has. by rewrite Exists_exists. }
  rewrite !Hhas. repeat case_decide; split_and!; (done || tauto).
Qed.

Lemma dominant_status_witness :
  ∃ cells c,
    gridData scenarioA weekly = Some cells ∧ cells !! 0%nat = Some c
    ∧ let has s := ∃ e, e ∈ events c ∧ Event.status e = s in
      (has Fail → status c = Some Fail)
      ∧ (¬ has Fail → has Warning → status c = Some Warning)
      ∧ (¬ has Fail → ¬ has Warning → status c = Some Success).
Proof.
  eexists _, _. split; [vm_compute; reflexivity|]. split; [reflexivity|].
  eapply (dominant_status scenarioA weekly);
    [vm_compute; reflexivity|left|vm_compute; lia].
Defined.

(** C7.  The intensity of every cell is a number between 0 and 1, it is
    0 exactly when the count is 0, and the count does not exceed the
    denominator of the intensity. *)
Theorem intensity_bounds (data : list Event) (g : Granularity) cells c :
  gridData data g = Some cells → c ∈ cells →
  ∃ q denominator,
    intensity c = Num q ∧ (0 <= q)%Q ∧ (q <= 1)%Q
    ∧ ((q == 0)%Q ↔ count c = 0%nat)
    ∧ intensity c = ratio (count c) denominator
    ∧ (count c ≤ denominator)%nat.
Proof.
  intros Hgrid Hc.
  destruct (gridData_cell data g cells c Hgrid Hc)
    as [(_ & _ & _ & Hcount & _ & Hint) _].
  set (D := Math_max_1 (count <$> comparable g c cells)) in *.
  destruct (Math_max_1_spec (count <$> comparable g c cells))
    as (Hone & Hall & _). fold D in Hone, Hall.
  assert (count c ≤ D)%nat as Hle.
  { eapply Forall_forall in Hall; [done|].
    apply list_elem_of_fmap. exists c. split; [done|].
    by apply comparable_self. }
  assert (intensity c = ratio (count c) D) as Hratio.
  { rewrite Hint, Hcount.
    destruct (length (events c)) as [|n]; simpl; [|done].
    by rewrite ratio_zero. }
  destruct (ratio_bounds (count c) D Hone Hle) as (q & Hq & ? & ? & ?).
  exists q, D. rewrite Hratio at 1. done.
Qed.

Lemma intensity_bounds_witness :
  ∃ cells c,
    gridData scenarioA daily = Some cells ∧ cells !! 1%nat = Some c
    ∧ ∃ q denominator,
        intensity c = Num q ∧ (0 <= q)%Q ∧ (q <= 1)%Q
        ∧ ((q == 0)%Q ↔ count c = 0%nat)
        ∧ intensity c = ratio (count c) denominator
        ∧ (count c ≤ denominator)%nat.
Proof.
  eexists _, _. split; [vm_compute; reflexivity|]. split; [reflexivity|].
  eapply (intensity_bounds scenarioA daily);
    [vm_compute; reflexivity|]. right. left.
Defined.

(** C10.  The count of every cell is the length of its events, and every
    event of the cell is an event of the input with the activity type of
    the cell and in the period of the cell: the date of the cell, the
    month key of the cell, or the window from the start to the end of the
    week of the cell. *)
Theorem cell_events (data : list Event) (g : Granularity) cells c :
  gridData data g = Some cells → c ∈ cells →
  count c = length (events c)
  ∧ ∀ e, e ∈ events c →
         e ∈ data ∧ Event.activityType e = activityType c
         ∧ match g with
           | daily => Event.date e = period c
           | monthly =>
               format (parseISO (Event.date e)) yyyy_MM = Some (period c)
           | weekly =>
               ∃ weeks week,
                 HeatmapChart.weeks data = Some weeks ∧ week ∈ weeks
                 ∧ format week yyyy_MM_dd = Some (period c)
                 ∧ date_ge (parseISO (Event.date e)) (startOfWeek week)
                 ∧ date_le (parseISO (Event.date e)) (endOfWeek week)
           end.
Proof.
  intros Hgrid Hc.
  destruct (gridData_cell data g cells c Hgrid Hc)
    as [(_ & _ & _ & Hcount & _) Hev].
  split; [done|]. intros e He. destruct (Hev e He) as (? & ? & Hper).
  split_and!; [done..|]. by destruct g.
Qed.

Lemma cell_events_witness :
  ∃ cells c,
    gridData scenarioA monthly = Some cells ∧ cells !! 0%nat = Some c
    ∧ count c = length (events c)
    ∧ ∀ e, e ∈ events c →
           e ∈ scenarioA ∧ Event.activityType e = activityType c
           ∧ format (parseISO (Event.date e)) yyyy_MM = Some (period c).
Proof.
  eexists _, _. split; [vm_compute; reflexivity|]. split; [reflexivity|].
  eapply (cell_events scenarioA monthly); [vm_compute; reflexivity|left].
Defined.

End claims_heat.

(** * Further properties *)

(** ** The filters of the component *)

Section app_filters.
Import App.

Example toFixed1_binary64 :
  toFixed1 (js_mul (js_div (of_int 23) (of_int 80)) (of_int 100)) = "28.7"
  ∧ toFixed1 (js_mul (js_div (of_int 2) (of_int 3)) (of_int 100)) = "66.7"
  ∧ toFixed1 (js_mul (js_div (of_int 5) (of_int 5)) (of_int 100)) = "100.0".
Proof. vm_compute. done. Qed.

Lemma length_zero_iff {A} (l : list A) : (length l =? 0)%nat = true ↔ l = [].
Proof. rewrite Nat.eqb_eq. apply length_zero_iff_nil. Qed.

Lemma length_pos_iff {A} (l : list A) : (0 <? length l)%nat = true ↔ l ≠ [].
Proof. rewrite Nat.ltb_lt. destruct l; simpl; split; (done || lia). Qed.

Lemma status_name_inj (s s' : Status) : status_name s = status_name s' → s = s'.
Proof. by destruct s, s'. Qed.

Lemma guard_spec `{EqDecision A} (sel : list A) (x : A) :
  (0 <? length sel)%nat && negb (bool_decide (x ∈ sel)) = false
  ↔ sel = [] ∨ x ∈ sel.
Proof.
  destruct sel as [|y sel]; simpl; [by intuition|].
  case_bool_decide; simpl; split; try done; auto.
  by intros [?|?].
Qed.

Lemma card_spec (card : option string) (s : Status) :
  (if card_selected card
   then
     let card := default "" card in
     let targetStatus := if bool_decide (card = "failed") then "fail" else card in
     if negb (bool_decide (targetStatus = "total"))
        && negb (bool_decide (status_name s = targetStatus))
     then false else true
   else true) = true
  ↔ ∀ c, card = Some c →
         c = "" ∨ c = "total"
         ∨ status_name s = if bool_decide (c = "failed") then "fail" else c.
Proof.
  destruct card as [c|]; simpl; [|by split].
  destruct c as [|a c']; simpl; [split; [intros _ ? [= <-]; auto|done]|].
  set (c := String a c').
  destruct (bool_decide_reflect (c = "failed")) as [Hf|Hf].
  - rewrite bool_decide_eq_false_2 by done. simpl.
    case_bool_decide as Hs; simpl.
    + split; [|done]. intros _ ? [= <-]. rewrite bool_decide_eq_true_2; auto.
    + split; [done|]. intros Hc. destruct (Hc _ eq_refl) as [?|[Ht|Hn]].
      * done.
      * by rewrite Hf in Ht.
      * by rewrite bool_decide_eq_true_2 in Hn.
  - destruct (bool_decide_reflect (c = "total")) as [Ht|Ht]; simpl.
    + split; [|done]. intros _ ? [= <-]. auto.
    + case_bool_decide as Hs; simpl.
      * split; [|done]. intros _ ? [= <-].
        rewrite bool_decide_eq_false_2; auto.
      * split; [done|]. intros Hc. destruct (Hc _ eq_refl) as [?|[?|Hn]].
        -- done.
        -- done.
        -- by rewrite bool_decide_eq_false_2 in Hn.
Qed.

(** The condition of [passes], as a proposition. *)
Lemma passes_spec (st : State) (item : Event) :
  passes st item ↔
  (selectedActivityTypes st = []
   ∨ Event.activityType item ∈ selectedActivityTypes st)
  ∧ (selectedStatuses st = [] ∨ Event.status item ∈ selectedStatuses st)
  ∧ (∀ card, selectedStatCard st = Some card →
       card = "" ∨ card = "total"
       ∨ status_name (Event.status item)
         = if bool_decide (card = "failed") then "fail" else card).
Proof.
  unfold passes.
  rewrite <- guard_spec, <- (guard_spec (selectedStatuses st)), <- card_spec.
  destruct (_ && _); [by intuition|].
  destruct (_ && _); [by intuition|].
  rewrite Is_true_true. by intuition.
Qed.

Lemma passes_unfiltered (st : State) (item : Event) :
  (length (selectedActivityTypes st) =? 0)%nat
  && (length (selectedStatuses st) =? 0)%nat
  && negb (card_selected (selectedStatCard st)) = true →
  passes st item.
Proof.
  rewrite !andb_true_iff, !length_zero_iff, negb_true_iff.
  intros [[Ht Hs] Hc]. apply passes_spec. split_and!; [by left..|].
  intros card Hcard. rewrite Hcard in Hc. left. by destruct card.
Qed.

Lemma filter_all {A} (P : A → Prop) `{∀ x, Decision (P x)} (l : list A) :
  Forall P l → filter P l = l.
Proof.
  induction 1 as [|x l Hx _ IH]; [done|].
  by rewrite filter_cons, decide_True, IH.
Qed.

Lemma filter_ext_elem {A} (P Q : A → Prop) `{∀ x, Decision (P x)}
    `{∀ x, Decision (Q x)} (l : list A) :
  (∀ x, x ∈ l → P x ↔ Q x) → filter P l = filter Q l.
Proof.
  intros HPQ. induction l as [|x l IH]; [done|].
  rewrite !filter_cons, IH by (intros y Hy; apply HPQ; by right).
  destruct (decide (P x)) as [HP|HP], (decide (Q x)) as [HQ|HQ];
    try done; destruct (HPQ x ltac:(left)); tauto.
Qed.

Lemma filteredData_filter (dummyData : list Event) (st : State) :
  filteredData dummyData st = filter (λ item, passes st item) dummyData.
Proof.
  unfold filteredData. destruct (_ && _) eqn:Hall; [|done].
  symmetry. apply filter_all, Forall_forall. intros item _.
  by apply passes_unfiltered.
Qed.

Lemma filteredData_ext (dummyData : list Event) (st st' : State) :
  (∀ a, a ∈ selectedActivityTypes st ↔ a ∈ selectedActivityTypes st') →
  (∀ s, s ∈ selectedStatuses st ↔ s ∈ selectedStatuses st') →
  selectedStatCard st = selectedStatCard st' →
  filteredData dummyData st = filteredData dummyData st'.
Proof.
  intros Ht Hs Hc. rewrite !filteredData_filter. apply list_filter_iff.
  intros item. rewrite !passes_spec, Hc, !Ht, !Hs.
  assert (∀ {A} (l l' : list A), (∀ x, x ∈ l ↔ x ∈ l') → l = [] ↔ l' = [])
    as Hnil.
  { intros A l l' Hl.
    split; intros ->; apply elem_of_nil_inv; intros x Hx; apply Hl in Hx;
      by apply elem_of_nil in Hx. }
  by rewrite (Hnil _ _ _ Ht), (Hnil _ _ _ Hs).
Qed.

Lemma toggle_elem `{EqDecision A} (prev : list A) (x y : A) :
  y ∈ toggle prev x ↔ (y = x ∧ x ∉ prev) ∨ (y ≠ x ∧ y ∈ prev).
Proof.
  unfold toggle. case_bool_decide as Hx.
  - rewrite list_elem_of_filter. split; [by intuition|].
    intros [[-> ?]|[? ?]]; done.
  - rewrite elem_of_app, list_elem_of_singleton. split.
    + intros [Hy| ->]; [|by left]. right. split; [|done]. by intros ->.
    + intros [[-> _]|[_ ?]]; auto.
Qed.

Lemma toggle_NoDup `{EqDecision A} (prev : list A) (x : A) :
  NoDup prev → NoDup (toggle prev x).
Proof.
  intros Hnd. unfold toggle. case_bool_decide as Hx.
  - by apply NoDup_filter.
  - apply NoDup_app. split_and!; [done| |apply NoDup_singleton].
    by intros y Hy ->%list_elem_of_singleton.
Qed.

Lemma toggle_twice_elem `{EqDecision A} (prev : list A) (x y : A) :
  y ∈ toggle (toggle prev x) x ↔ y ∈ prev.
Proof.
  rewrite !toggle_elem. destruct (decide (y = x)) as [->|Hne].
  - destruct (decide (x ∈ prev)); by intuition.
  - by intuition.
Qed.

(** X1.  [filteredData] keeps the events of [dummyData], in their order,
    that pass every active filter: an empty selection of activity types
    or of statuses restricts nothing, the card [total] restricts nothing,
    the card [failed] stands for the status [fail], and any other card
    keeps the events whose status has its name.  The early return is the
    case in which every event passes. *)
Theorem filteredData_spec (dummyData : list Event) (st : State) :
  filteredData dummyData st = filter (λ item, passes st item) dummyData
  ∧ sublist (filteredData dummyData st) dummyData
  ∧ ∀ e, e ∈ filteredData dummyData st ↔
         e ∈ dummyData
         ∧ (selectedActivityTypes st = []
            ∨ Event.activityType e ∈ selectedActivityTypes st)
         ∧ (selectedStatuses st = []
            ∨ Event.status e ∈ selectedStatuses st)
         ∧ (∀ card, selectedStatCard st = Some card →
              card = "" ∨ card = "total"
              ∨ status_name (Event.status e)
                = if bool_decide (card = "failed") then "fail" else card).
Proof.
  split; [apply filteredData_filter|]. rewrite filteredData_filter.
  split; [apply sublist_filter|].
  intros e. rewrite list_elem_of_filter, passes_spec. tauto.
Qed.

(** X2.  Filtering is idempotent: [filteredData] applied to its own
    result, with the same filters, returns that result. *)
Theorem filteredData_idempotent (dummyData : list Event) (st : State) :
  filteredData (filteredData dummyData st) st = filteredData dummyData st.
Proof.
  rewrite !filteredData_filter.
  induction dummyData as [|e l IH]; [done|].
  rewrite filter_cons. destruct (decide (passes st e)) as [He|He]; [|done].
  rewrite filter_cons, decide_True by done. by rewrite IH.
Qed.

(** X3.  [handleActivityTypeFilter] and [handleStatusFilter] flip the
    membership of their argument in the selection and of nothing else,
    keep a selection free of duplicates, and applied twice leave
    [filteredData] unchanged. *)
Theorem toggle_handlers (dummyData : list Event) (st : State)
    (a : string) (s : Status) :
  let st_a := handleActivityTypeFilter st a in
  let st_s := handleStatusFilter st s in
  (∀ b, b ∈ selectedActivityTypes st_a ↔
        (b = a ∧ a ∉ selectedActivityTypes st)
        ∨ (b ≠ a ∧ b ∈ selectedActivityTypes st))
  ∧ (∀ t, t ∈ selectedStatuses st_s ↔
          (t = s ∧ s ∉ selectedStatuses st)
          ∨ (t ≠ s ∧ t ∈ selectedStatuses st))
  ∧ (NoDup (selectedActivityTypes st) → NoDup (selectedActivityTypes st_a))
  ∧ (NoDup (selectedStatuses st) → NoDup (selectedStatuses st_s))
  ∧ filteredData dummyData (handleActivityTypeFilter st_a a)
    = filteredData dummyData st
  ∧ filteredData dummyData (handleStatusFilter st_s s)
    = filteredData dummyData st.
Proof.
  simpl. split_and!.
  - intros b. apply toggle_elem.
  - intros t. apply toggle_elem.
  - apply toggle_NoDup.
  - apply toggle_NoDup.
  - apply filteredData_ext; simpl; [|done..].
    intros b. apply toggle_twice_elem.
  - apply filteredData_ext; simpl; [done| |done].
    intros t. apply toggle_twice_elem.
Qed.

Lemma getActiveFilters_elem (st : State) (c : Chip) :
  c ∈ getActiveFilters st ↔
  (∃ a, a ∈ selectedActivityTypes st
        ∧ c = {| type := activityType; value := a; label := a;
                 color := None |})
  ∨ (∃ s, s ∈ selectedStatuses st
          ∧ c = {| type := status; value := status_name s;
                   label := statusIcons s +:+ " " +:+ status_name s;
                   color := statusColorMap (status_name s) |})
  ∨ (∃ card, selectedStatCard st = Some card ∧ card ≠ ""
             ∧ c = {| type := statCard; value := card;
                      label := card +:+ " events";
                      color := statusColorMap
                                 (if bool_decide (card = "failed")
                                  then "fail" else card) |}).
Proof.
  unfold getActiveFilters. rewrite !elem_of_app, !list_elem_of_fmap.
  assert (∀ P Q R R' : Prop, (R ↔ R') → (P ∨ Q ∨ R ↔ P ∨ Q ∨ R')) as Hor
    by (intros; tauto).
  etrans; [|apply Hor; reflexivity]. clear Hor.
  assert (∀ P P' Q Q' R R' : Prop,
            (P ↔ P') → (Q ↔ Q') → (R ↔ R') → (P ∨ Q ∨ R ↔ P' ∨ Q' ∨ R'))
    as Hor by (intros; tauto).
  apply Hor; clear Hor.
  - split; intros (a & ? & ?); eauto.
  - split; intros (s & ? & ?); eauto.
  - destruct (selectedStatCard st) as [card|]; simpl.
    + destruct card as [|x card']; simpl.
      * rewrite elem_of_nil. split; [done|]. by intros (? & [= <-] & ? & _).
      * rewrite list_elem_of_singleton. split.
        -- intros ->. eexists. by split_and!.
        -- by intros (? & [= <-] & _ & ->).
    + rewrite elem_of_nil. split; [done|]. by intros (? & ? & _).
Qed.

(** X4.  Removing a chip that [getActiveFilters] shows removes it: after
    [removeFilterChip] with the type and the value of the chip, the chips
    are those of before whose type or value differs, and they are fewer. *)
Theorem removeFilterChip_removes (st : State) (c : Chip) :
  c ∈ getActiveFilters st →
  let st' := removeFilterChip st (type c) (value c) in
  (∀ c', c' ∈ getActiveFilters st' ↔
         c' ∈ getActiveFilters st
         ∧ ¬ (type c' = type c ∧ value c' = value c))
  ∧ (length (getActiveFilters st') < length (getActiveFilters st))%nat.
Proof.
  intros Hc. simpl.
  apply getActiveFilters_elem in Hc
    as [(a & Ha & ->)|[(s & Hs & ->)|(card & Hcard & Hne & ->)]]; simpl.
  - split.
    + intros c'. rewrite !getActiveFilters_elem. simpl.
      setoid_rewrite list_elem_of_filter. split.
      * intros [(b & [Hb ?] & ->)|[(t & ? & ->)|(k & ? & ? & ->)]]; simpl;
          (split; [eauto 10|]); by intros [? ?].
      * intros [[(b & Hb & ->)|[(t & ? & ->)|(k & ? & ? & ->)]] Hnot];
          simpl in *; [left|eauto 10..].
        exists b. split_and!; [|done..]. intros ->. by apply Hnot.
    + unfold getActiveFilters. simpl. rewrite !length_app, !length_fmap.
      apply Nat.add_lt_mono_r, (length_filter_lt _ _ a); [done|].
      by intros Hne.
  - split.
    + intros c'. rewrite !getActiveFilters_elem. simpl.
      setoid_rewrite list_elem_of_filter. split.
      * intros [(b & ? & ->)|[(t & [Ht ?] & ->)|(k & ? & ? & ->)]]; simpl;
          (split; [eauto 10|]); by intros [? ?].
      * intros [[(b & Hb & ->)|[(t & ? & ->)|(k & ? & ? & ->)]] Hnot];
          simpl in *; [eauto 10| |eauto 10].
        right. left. exists t. split_and!; [|done..].
        intros Heq. by apply Hnot.
    + unfold getActiveFilters. simpl. rewrite !length_app, !length_fmap.
      apply Nat.add_lt_mono_l, Nat.add_lt_mono_r, (length_filter_lt _ _ s);
        [done|].
      by intros Hne.
  - split.
    + intros c'. rewrite !getActiveFilters_elem. simpl. split.
      * intros [(b & ? & ->)|[(t & ? & ->)|(k & ? & ? & ->)]]; simpl;
          [split; [eauto 10|]; by intros [? ?]..|done].
      * intros [[(b & Hb & ->)|[(t & ? & ->)|(k & Hk & ? & ->)]] Hnot];
          simpl in *; [eauto 10..|].
        exfalso. apply Hnot. split; [done|]. congruence.
    + unfold getActiveFilters. simpl. rewrite Hcard. simpl.
      rewrite !length_app, !length_fmap.
      destruct card; [done|]. simpl. lia.
Qed.

Lemma removeFilterChip_removes_witness :
  let st := handleStatCardClick
              (handleStatusFilter
                 (handleActivityTypeFilter initial "login") Fail) "failed" in
  let c := {| type := status; value := "fail"; label := "❌ fail";
              color := Some "#ef4444" |} in
  let st' := removeFilterChip st (type c) (value c) in
  (∀ c', c' ∈ getActiveFilters st' ↔
         c' ∈ getActiveFilters st
         ∧ ¬ (type c' = type c ∧ value c' = value c))
  ∧ (length (getActiveFilters st') < length (getActiveFilters st))%nat.
Proof.
  apply (removeFilterChip_removes
           (handleStatCardClick
              (handleStatusFilter
                 (handleActivityTypeFilter initial "login") Fail) "failed")
           {| type := status; value := "fail"; label := "❌ fail";
              color := Some "#ef4444" |}).
  vm_compute. right. left.
Defined.

(** X5.  When [getActiveFilters] shows no chip, [filteredData] is the
    whole of [dummyData]; [clearAllFilters] leaves no chip. *)
Theorem no_chip_no_filter (dummyData : list Event) (st : State) :
  getActiveFilters (clearAllFilters st) = []
  ∧ (getActiveFilters st = [] → filteredData dummyData st = dummyData).
Proof.
  split; [done|]. unfold getActiveFilters, filteredData.
  intros (Ht & (Hs & Hc)%app_eq_nil)%app_eq_nil.
  apply fmap_nil_inv in Ht, Hs. rewrite Ht, Hs. simpl.
  by destruct (card_selected (selectedStatCard st)).
Qed.

Lemma no_chip_no_filter_witness :
  getActiveFilters (clearAllFilters initial) = []
  ∧ (getActiveFilters initial = []
     → filteredData scenarioA initial = scenarioA).
Proof. apply (no_chip_no_filter scenarioA initial). Defined.

(** X6.  With every activity type selected and no other filter,
    [filteredData] keeps the events that have an activity type; when no
    event has one, the selection is empty and every event is kept. *)
Theorem select_all_filter (dummyData : list Event) (st : State) :
  selectedStatuses st = [] → selectedStatCard st = None →
  filteredData dummyData (selectAll dummyData st)
  = if decide (activityTypes dummyData = []) then dummyData
    else filter (λ d, truthy (Event.activityType d)) dummyData.
Proof.
  intros Hs Hc. case_decide as Hnil.
  - unfold filteredData, selectAll. simpl. by rewrite Hnil, Hs, Hc.
  - rewrite filteredData_filter. apply filter_ext_elem. intros item Hitem.
    rewrite passes_spec. simpl. rewrite Hs, Hc. unfold activityTypes.
    rewrite Array_from_Set_elem, list_elem_of_filter, list_elem_of_fmap.
    split.
    + intros ([?|[? _]] & _); done.
    + intros Htruthy. split_and!; [|by left|done].
      right. split; [done|]. eauto.
Qed.

Lemma select_all_filter_witness :
  filteredData scenarioA (selectAll scenarioA initial)
  = if decide (activityTypes scenarioA = []) then scenarioA
    else filter (λ d, truthy (Event.activityType d)) scenarioA.
Proof. apply (select_all_filter scenarioA initial); reflexivity. Defined.

Lemma length_by_status (data : list Event) :
  length data
  = (length (with_status Success data) + length (with_status Fail data)
     + length (with_status Warning data))%nat.
Proof.
  unfold with_status. induction data as [|e l IH]; [done|].
  rewrite !filter_cons. simpl. rewrite IH.
  destruct (Event.status e); repeat case_decide; simpl; (done || lia).
Qed.

(** X7.  In [statistics] the total is the sum of the success, failed and
    warning counts, and the numbers of devices and of users are at most
    the total. *)
Theorem statistics_partition (filteredData : list Event) :
  let stats := statistics filteredData in
  totalEvents stats
  = (successEvents stats + failedEvents stats + warningEvents stats)%nat
  ∧ (devices stats ≤ totalEvents stats)%nat
  ∧ (users stats ≤ totalEvents stats)%nat.
Proof.
  simpl. split; [apply length_by_status|].
  assert (∀ l : list string,
            (length (Array_from_Set (filter (λ x, truthy x) l)) ≤ length l)%nat)
    as Hle.
  { intros l. etrans; [|apply (length_filter (λ x, truthy x))].
    apply submseteq_length, NoDup_submseteq; [apply Array_from_Set_NoDup|].
    intros x. by rewrite Array_from_Set_elem. }
  split; (etrans; [apply Hle|by rewrite length_fmap]).
Qed.

(** X8.  With the card of a status selected ([success], [warning], or
    [failed] for the status [fail]), every event of [filteredData] has that
    status: in [statistics] the count of that status is the total and the
    counts of the other statuses are zero. *)
Theorem stat_card_statistics (dummyData : list Event) (st : State)
    (s : Status) :
  selectedStatCard st
  = Some (match s with Fail => "failed" | _ => status_name s end) →
  let stats := statistics (filteredData dummyData st) in
  length (with_status s (filteredData dummyData st)) = totalEvents stats
  ∧ ∀ s', s' ≠ s → with_status s' (filteredData dummyData st) = [].
Proof.
  intros Hcard. simpl.
  assert (Forall (λ e, Event.status e = s) (filteredData dummyData st))
    as Hall.
  { apply Forall_forall. intros e He. rewrite filteredData_filter in He.
    apply list_elem_of_filter in He as [(_ & _ & He)%passes_spec _].
    destruct (He _ Hcard) as [Hempty|[Htotal|Hname]].
    - by destruct s.
    - by destruct s.
    - apply status_name_inj. rewrite Hname. by destruct s. }
  split.
  - unfold with_status. by rewrite filter_all.
  - intros s' Hne. unfold with_status.
    induction Hall as [|e l He _ IH]; [done|].
    rewrite filter_cons, decide_False by congruence. apply IH.
Qed.

Lemma stat_card_statistics_witness :
  let st := handleStatCardClick initial "failed" in
  let stats := statistics (filteredData scenarioA st) in
  length (with_status Fail (filteredData scenarioA st)) = totalEvents stats
  ∧ ∀ s', s' ≠ Fail → with_status s' (filteredData scenarioA st) = [].
Proof.
  apply (stat_card_statistics scenarioA
           (handleStatCardClick initial "failed") Fail).
  reflexivity.
Defined.

Lemma filteredData_no_card (dummyData : list Event) (st : State)
    (value : string) :
  selectedStatCard st = None ∨ selectedStatCard st = Some "total"
  ∨ selectedStatCard st = Some "" →
  filteredData dummyData st
  = filteredData dummyData (removeFilterChip st statCard value).
Proof.
  intros Hcard. rewrite !filteredData_filter. apply list_filter_iff.
  intros item. rewrite !passes_spec. simpl.
  split; intros (? & ? & Hc); (split_and!; [done..|]); [done|].
  intros card Hsel. destruct Hcard as [Hn|[Ht|He]]; simplify_eq; auto.
Qed.

(** X9.  The card [total] filters nothing: after a click on it, whether
    the click selects the card or deselects it, [filteredData] is what it
    is with no card selected.  So the click leaves the filtered data as
    they were when no card or the card [total] was selected before it;
    after the card of a status it removes the filter of that card. *)
Theorem total_card_filters_nothing (dummyData : list Event) (st : State)
    (value : string) :
  filteredData dummyData (handleStatCardClick st "total")
  = filteredData dummyData (removeFilterChip st statCard value)
  ∧ (selectedStatCard st = None ∨ selectedStatCard st = Some "total"
     ∨ selectedStatCard st = Some "" →
     filteredData dummyData (handleStatCardClick st "total")
     = filteredData dummyData st).
Proof.
  assert (filteredData dummyData (handleStatCardClick st "total")
          = filteredData dummyData (removeFilterChip st statCard value))
    as Hclick.
  { rewrite !filteredData_filter. apply list_filter_iff. intros item.
    rewrite !passes_spec. simpl. case_bool_decide; [done|].
    split; intros (? & ? & _); (split_and!; [done..|]); [done|].
    intros card [= <-]. auto. }
  split; [done|]. intros Hcard.
  by rewrite Hclick, <- filteredData_no_card.
Qed.

(** After the card [failed], a click on [total] changes the filtered
    data. *)
Example total_card_after_failed :
  let st := handleStatCardClick initial "failed" in
  filteredData scenarioA st = [ev "2024-01-01" "payment" Fail]
  ∧ filteredData scenarioA (handleStatCardClick st "total") = scenarioA.
Proof. done. Qed.

End app_filters.

(** ** The buckets of the bar chart *)

Section bar_buckets.
Import BarGraph.

Lemma counter_foldl_bump (t : Tally) (l : list Status) (s : Status) :
  counter s (foldl bump t l)
  = (counter s t + length (filter (λ x, x = s) l))%nat.
Proof.
  revert t. induction l as [|x l IH]; intros t; simpl; [lia|].
  rewrite IH, filter_cons.
  destruct x, s; simpl; rewrite ?decide_True, ?decide_False by done;
    simpl; lia.
Qed.

Lemma filter_fmap_length {A B} (f : A → B) (P : B → Prop)
    `{∀ y, Decision (P y)} (l : list A) :
  length (filter P (f <$> l)) = length (filter (λ x, P (f x)) l).
Proof.
  induction l as [|x l IH]; [done|]. csimpl. rewrite !filter_cons.
  destruct (decide (P (f x))); simpl; by rewrite IH.
Qed.

Lemma tally_of_counts {A} (key : A → string) (st : A → Status) k l t :
  tally_of key st k l = Some t →
  t = foldl bump (zero k) (st <$> filter (λ x, key x = k) l).
Proof.
  unfold tally_of. destruct (filter _ l); [done|]. by intros [= <-].
Qed.

(** The events that a bucket counts. *)
Lemma bucket_events (data : list Event) (g : Granularity) bs i b :
  processedData data g = Some bs → bs !! i = Some b →
  ∃ evs, sublist evs data
         ∧ counts b = foldl bump (zero (period (counts b)))
                        (Event.status <$> evs).
Proof.
  intros Hbs Hb. destruct g; simpl in Hbs.
  - destruct (daily_bucket_inv _ _ _ _ Hbs Hb) as (d & _ & Hmd & _).
    rewrite dailyData_lookup in Hmd. apply tally_of_counts in Hmd.
    eexists. split; [apply (sublist_filter (λ x, Event.date x = d))|].
    rewrite Hmd at 2. by rewrite Hmd, period_foldl_bump.
  - destruct (weekly_bucket_inv _ _ _ _ Hbs Hb) as (ws & w & p & _ & _ & _ & Hc).
    eexists. split; [apply (sublist_filter (λ d, in_week w d))|].
    rewrite Hc at 2. by rewrite Hc, period_foldl_bump.
  - destruct (monthly_bucket_inv _ _ _ _ Hbs Hb) as (m & k & Hm & _ & Hmk).
    rewrite (monthlyData_lookup _ _ _ Hm) in Hmk. apply tally_of_counts in Hmk.
    eexists. split; [apply (sublist_filter (λ x, month_key x = k))|].
    rewrite Hmk at 2. by rewrite Hmk, period_foldl_bump.
Qed.

Lemma bucket_counters (data : list Event) (g : Granularity) bs i b :
  processedData data g = Some bs → bs !! i = Some b →
  ∃ evs, sublist evs data
         ∧ total (counts b) = length evs
         ∧ ∀ s, counter s (counts b)
                = length (filter (λ e, Event.status e = s) evs).
Proof.
  intros Hbs Hb. destruct (bucket_events _ _ _ _ _ Hbs Hb) as (evs & ? & Hc).
  exists evs. split_and!; [done|..].
  - by rewrite Hc, total_foldl_bump, length_fmap.
  - intros s. rewrite Hc, counter_foldl_bump, filter_fmap_length.
    by destruct s.
Qed.

Lemma events_by_status (evs : list Event) :
  length evs
  = (length (filter (λ e, Event.status e = Success) evs)
     + length (filter (λ e, Event.status e = Warning) evs)
     + length (filter (λ e, Event.status e = Fail) evs))%nat.
Proof.
  induction evs as [|e l IH]; [done|].
  rewrite !filter_cons. simpl. rewrite IH.
  destruct (Event.status e); repeat case_decide; simpl; (done || lia).
Qed.

(** X10.  At every granularity the counters of a bucket count events of
    the data: [total] is the number of these events and [success],
    [warning] and [fail] are the numbers of those with each status, so
    that [total = success + warning + fail]. *)
Theorem bucket_status_counts (data : list Event) (g : Granularity) bs b :
  processedData data g = Some bs → b ∈ bs →
  (∃ evs, sublist evs data
          ∧ total (counts b) = length evs
          ∧ ∀ s, counter s (counts b)
                 = length (filter (λ e, Event.status e = s) evs))
  ∧ total (counts b)
    = (success (counts b) + warning (counts b) + fail (counts b))%nat.
Proof.
  intros Hbs [i Hb]%list_elem_of_lookup_1.
  destruct (bucket_counters _ _ _ _ _ Hbs Hb) as (evs & Hsub & Htot & Hs).
  split; [by exists evs|].
  rewrite Htot, (events_by_status evs).
  by rewrite <-(Hs Success), <-(Hs Warning), <-(Hs Fail).
Qed.

Lemma bucket_status_counts_witness :
  ∃ bs b,
    processedData scenarioA weekly = Some bs ∧ bs !! 0%nat = Some b
    ∧ (∃ evs, sublist evs scenarioA
              ∧ total (counts b) = length evs
              ∧ ∀ s, counter s (counts b)
                     = length (filter (λ e, Event.status e = s) evs))
    ∧ total (counts b)
      = (success (counts b) + warning (counts b) + fail (counts b))%nat.
Proof.
  eexists _, _. split; [vm_compute; reflexivity|]. split; [reflexivity|].
  eapply (bucket_status_counts scenarioA weekly).
  - vm_compute. reflexivity.
  - left.
Defined.

(** X11.  A segment of a stacked bar is drawn for a status whose counter
    is positive, and its share [d[s] / d.total] of the bar is then a
    number in (0, 1].  A bucket without events has no segment: each of its
    counters is 0, and the shares, [0 / 0], are NaN. *)
Theorem segment_share (data : list Event) (g : Granularity) bs b
    (s : Status) :
  processedData data g = Some bs → b ∈ bs →
  let share := ratio (counter s (counts b)) (total (counts b)) in
  ((0 < counter s (counts b))%nat →
   ∃ q, share = Num q ∧ (0 < q)%Q ∧ (q <= 1)%Q)
  ∧ (total (counts b) = 0%nat →
     counter s (counts b) = 0%nat ∧ share = NaN).
Proof.
  intros Hbs [i Hb]%list_elem_of_lookup_1. simpl.
  destruct (bucket_counters _ _ _ _ _ Hbs Hb) as (evs & _ & Htot & Hs).
  assert (counter s (counts b) ≤ total (counts b))%nat as Hle.
  { rewrite Hs, Htot. apply length_filter. }
  split.
  - intros Hpos.
    destruct (ratio_bounds (counter s (counts b)) (total (counts b)))
      as (q & Hq & H0 & H1 & Hz); [lia|done|].
    exists q. split_and!; [done| |done].
    apply Qle_lt_or_eq in H0 as [?|Heq]; [done|].
    symmetry in Heq. apply Hz in Heq. lia.
  - intros Hzero. rewrite Hzero in *.
    assert (counter s (counts b) = 0%nat) as -> by lia. done.
Qed.

Lemma segment_share_witness :
  ∃ bs b,
    processedData two_weeks_apart weekly = Some bs ∧ bs !! 1%nat = Some b
    ∧ let share := ratio (counter Fail (counts b)) (total (counts b)) in
      ((0 < counter Fail (counts b))%nat →
       ∃ q, share = Num q ∧ (0 < q)%Q ∧ (q <= 1)%Q)
      ∧ (total (counts b) = 0%nat →
         counter Fail (counts b) = 0%nat ∧ share = NaN).
Proof.
  eexists _, _. split; [vm_compute; reflexivity|]. split; [reflexivity|].
  eapply (segment_share two_weeks_apart weekly).
  - vm_compute. reflexivity.
  - right. left.
Defined.

Lemma percent_lower (t p d : nat) :
  (1 ≤ d)%nat → (p ≤ d)%nat →
  ∃ z, Math_round (percent t p d) = of_int z ∧ -100 ≤ z.
Proof.
  intros Hd Hp.
  destruct (percent_Num t p d Hd) as (q & -> & _ & _ & _ & Hlow).
  specialize (Hlow Hp).
  exists (Qfloor (q + (1 # 2))). split; [done|].
  rewrite <- (Qfloor_Z (-100)). apply Qfloor_resp_le.
  change (inject_Z (-100)) with (-100)%Q. lra.
Qed.

(** X12.  At every granularity the [trend] of a bucket is an integer that
    is at least -100. *)
Theorem trend_bounds (data : list Event) (g : Granularity) bs b :
  processedData data g = Some bs → b ∈ bs →
  ∃ z, trend b = of_int z ∧ -100 ≤ z.
Proof.
  intros Hbs [i Hb]%list_elem_of_lookup_1. destruct i as [|i].
  - destruct (first_bucket _ _ _ _ Hbs Hb) as [-> _]. exists 0. by split.
  - destruct (lookup_lt_is_Some_2 bs i) as [prev Hprev].
    { apply lookup_lt_Some in Hb. lia. }
    destruct (consecutive_buckets _ _ _ _ _ _ Hbs Hprev Hb) as [-> _].
    destruct g; simpl.
    + apply percent_lower; lia.
    + destruct (0 <? total (counts prev))%nat eqn:Hpos.
      * apply Nat.ltb_lt in Hpos. apply percent_lower; lia.
      * exists 0. by split.
    + assert (1 ≤ total (counts prev))%nat
        by by apply (keyed_bucket_total data monthly bs i).
      apply percent_lower; lia.
Qed.

Lemma trend_bounds_witness :
  ∃ bs b,
    processedData scenarioA daily = Some bs ∧ bs !! 1%nat = Some b
    ∧ ∃ z, trend b = of_int z ∧ -100 ≤ z.
Proof.
  eexists _, _. split; [vm_compute; reflexivity|]. split; [reflexivity|].
  eapply (trend_bounds scenarioA daily).
  - vm_compute. reflexivity.
  - right. left.
Defined.

(** X13.  The weekly buckets are the consecutive weeks from the week of the
    first date to the week of the last date, a week without events
    included: bucket [i] is the week that starts [i] weeks after the start
    of the first week and counts the events of that week. *)
Theorem weekly_buckets_contiguous (data : list Event) bs :
  processedData data weekly = Some bs →
  ∃ a b,
    parseISO_at (dates data !! 0%nat) = Instant a
    ∧ parseISO_at (dates data !! (length (dates data) - 1)%nat) = Instant b
    ∧ a ≤ b
    ∧ Z.of_nat (length bs)
      = (startOfWeek_ms b - startOfWeek_ms a) / msPerWeek + 1
    ∧ ∀ i bk, bs !! i = Some bk →
        let week := Instant (startOfWeek_ms a + Z.of_nat i * msPerWeek) in
        format week yyyy_MM_dd = Some (period (counts bk))
        ∧ total (counts bk) = length (filter (λ d, in_week week d) data).
Proof.
  simpl. intros Hbs.
  destruct (eachWeekOfInterval (parseISO_at (dates data !! 0%nat))
              (parseISO_at (dates data !! (length (dates data) - 1)%nat)))
    as [weeks|] eqn:Hweeks;
    [|unfold weekly_buckets in Hbs; by rewrite Hweeks in Hbs].
  destruct (eachWeekOfInterval_Some _ _ _ Hweeks)
    as (a & b & n & Ha & Hb & Hab & Hn & Hlast & ->).
  exists a, b. split_and!; [done..| |].
  - unfold weekly_buckets in Hbs. rewrite Hweeks in Hbs. simpl in Hbs.
    apply map_index_length in Hbs.
    rewrite Hbs, length_fmap, length_seqZ, Hlast.
    replace (startOfWeek_ms a + n * msPerWeek - startOfWeek_ms a)
      with (n * msPerWeek) by lia.
    rewrite Z.div_mul by done. lia.
  - intros i bk Hbk.
    destruct (weekly_bucket_inv _ _ _ _ Hbs Hbk)
      as (ws & w & p & Hws & Hw & Hp & Hc).
    rewrite Hweeks in Hws. injection Hws as <-.
    rewrite list_lookup_fmap in Hw.
    destruct (seqZ 0 (n + 1) !! i) as [k|] eqn:Hk; [|done].
    apply lookup_seqZ in Hk as [-> _]. simpl in Hw. injection Hw as <-.
    rewrite Z.add_0_l in *. rewrite Hc, period_foldl_bump. simpl.
    split; [done|]. by rewrite total_foldl_bump, length_fmap.
Qed.

Lemma weekly_buckets_contiguous_witness :
  ∃ bs a b,
    processedData two_weeks_apart weekly = Some bs
    ∧ parseISO_at (dates two_weeks_apart !! 0%nat) = Instant a
    ∧ parseISO_at
        (dates two_weeks_apart !! (length (dates two_weeks_apart) - 1)%nat)
      = Instant b
    ∧ a ≤ b
    ∧ Z.of_nat (length bs)
      = (startOfWeek_ms b - startOfWeek_ms a) / msPerWeek + 1
    ∧ ∀ i bk, bs !! i = Some bk →
        let week := Instant (startOfWeek_ms a + Z.of_nat i * msPerWeek) in
        format week yyyy_MM_dd = Some (period (counts bk))
        ∧ total (counts bk)
          = length (filter (λ d, in_week week d) two_weeks_apart).
Proof.
  eexists.
  assert (processedData two_weeks_apart weekly = Some _) as Hbs
    by (vm_compute; reflexivity).
  destruct (weekly_buckets_contiguous two_weeks_apart _ Hbs)
    as (a & b & H).
  exists a, b. split; [exact Hbs|exact H].
Defined.

(** X14.  The monthly buckets are the months of the events, each once and
    in ascending order of the key [yyyy-MM], and the total of a bucket is
    the number of events of its month. *)
Theorem monthly_bucket_periods (data : list Event) bs :
  processedData data monthly = Some bs →
  let periods := (λ b, period (counts b)) <$> bs in
  (∀ k, k ∈ periods ↔ ∃ e, e ∈ data ∧ month_of e = Some k)
  ∧ NoDup periods
  ∧ StronglySorted String.le periods
  ∧ ∀ b, b ∈ bs →
         total (counts b)
         = length (filter (λ e, month_of e = Some (period (counts b))) data).
Proof.
  simpl. intros Hbs.
  destruct (monthlyData data) as [m|] eqn:Hm;
    [|unfold monthly_buckets in Hbs; by rewrite Hm in Hbs].
  destruct (monthlyData_Some _ _ Hm) as [Hall _].
  assert (∀ e k, e ∈ data → month_key e = k ↔ month_of e = Some k) as Hkey.
  { intros e k He. rewrite Forall_forall in Hall.
    destruct (Hall e He) as [k' Hk']. unfold month_key. rewrite Hk'. simpl.
    split; congruence. }
  assert (∀ i b, bs !! i = Some b →
            sort (map_to_list m).*1 !! i = Some (period (counts b))
            ∧ total (counts b)
              = length (filter (λ e, month_key e = period (counts b)) data))
    as Hbucket.
  { intros i b Hb.
    destruct (monthly_bucket_inv _ _ _ _ Hbs Hb) as (m' & k & Hm' & Hk & Hmk).
    rewrite Hm in Hm'. injection Hm' as <-.
    rewrite (monthlyData_lookup _ _ _ Hm) in Hmk.
    apply tally_of_Some in Hmk as (<- & ? & ?). done. }
  assert ((λ b, period (counts b)) <$> bs = sort (map_to_list m).*1)
    as Hperiods.
  { apply list_eq. intros i. rewrite list_lookup_fmap.
    destruct (bs !! i) as [b|] eqn:Hb; simpl.
    - by destruct (Hbucket i b Hb) as [-> _].
    - symmetry. apply lookup_ge_None. apply lookup_ge_None in Hb.
      unfold monthly_buckets in Hbs. rewrite Hm in Hbs. simpl in Hbs.
      apply map_index_length in Hbs. lia. }
  rewrite Hperiods. split_and!.
  - intros k. rewrite (months_elem _ _ _ Hm), list_elem_of_fmap.
    split.
    + intros (e & -> & He). exists e. split; [done|]. by apply Hkey.
    + intros (e & He & Hk). exists e. split; [|done].
      symmetry. by apply Hkey.
  - apply months_NoDup.
  - apply sort_sorted.
  - intros b [i Hb]%list_elem_of_lookup.
    destruct (Hbucket i b Hb) as [_ ->]. f_equal.
    apply filter_ext_elem. intros e He. by apply Hkey.
Qed.

Lemma monthly_bucket_periods_witness :
  ∃ bs, processedData scenarioA monthly = Some bs
    ∧ let periods := (λ b, period (counts b)) <$> bs in
      (∀ k, k ∈ periods ↔ ∃ e, e ∈ scenarioA ∧ month_of e = Some k)
      ∧ NoDup periods
      ∧ StronglySorted String.le periods
      ∧ ∀ b, b ∈ bs →
             total (counts b)
             = length (filter (λ e, month_of e = Some (period (counts b)))
                         scenarioA).
Proof.
  eexists. split; [vm_compute; reflexivity|].
  apply (monthly_bucket_periods scenarioA). vm_compute. reflexivity.
Defined.

End bar_buckets.

(** ** The labels of the period axis *)

Section axis_labels.
Import BarGraph.

Lemma labels_step (k : nat) (l : list Bucket) :
  (0 < k)%nat →
  (length (filter is_Some
             (imap (λ i d, if (i mod k =? 0)%nat
                           then Some (periodLabel d) else None) l)) * k
   ≤ length l + k - 1)%nat.
Proof.
  intros Hk. induction l as [|d l IH] using rev_ind; [simpl; lia|].
  rewrite imap_app, filter_app, !length_app. simpl.
  rewrite Nat.add_0_r, filter_cons, filter_nil.
  destruct (length l mod k =? 0)%nat eqn:Hmod.
  - apply Nat.eqb_eq in Hmod. rewrite decide_True by by eexists. simpl.
    apply Nat.Div0.div_exact in Hmod.
    set (c := length (filter _ _)) in *. set (q := (length l / k)%nat) in *.
    assert (c ≤ q)%nat by nia. nia.
  - rewrite decide_False by by intros [? ?]. simpl. lia.
Qed.

(** X15.  The period axis has a slot for every bucket, at most eight of
    them carry a label, and the first bucket is labelled. *)
Theorem xAxisLabels_at_most_8 (processedData : list Bucket) :
  length (xAxisLabels processedData) = length processedData
  ∧ (length (filter is_Some (xAxisLabels processedData)) ≤ 8)%nat
  ∧ ∀ d, processedData !! 0%nat = Some d →
         xAxisLabels processedData !! 0%nat = Some (Some (periodLabel d)).
Proof.
  unfold xAxisLabels. split_and!.
  - apply length_imap.
  - destruct processedData as [|d l]; [simpl; lia|].
    set (n := length (d :: l)).
    assert (1 ≤ n)%nat by (unfold n; simpl; lia).
    set (k := ((n + 7) / 8)%nat).
    assert (1 ≤ k ∧ n ≤ 8 * k)%nat as [Hk Hn].
    { unfold k. pose proof (Nat.div_mod_eq (n + 7) 8).
      pose proof (Nat.mod_upper_bound (n + 7) 8). lia. }
    pose proof (labels_step k (d :: l) Hk) as Hstep. fold n in Hstep.
    set (c := length (filter _ _)) in *. nia.
  - intros d Hd. destruct processedData as [|d' l]; [done|].
    simpl in Hd. injection Hd as ->. simpl.
    by rewrite Nat.Div0.mod_0_l.
Qed.

End axis_labels.

(** ** The throttle of the cell clicks *)

Section throttle.
Import useThrottle.

Lemma calls_spaced (delay last t : Z) (ref : Ref)
    (readings : list (Z * Z)) :
  last ≤ lastRun ref → lastRun ref ≤ t → monotone t readings →
  spaced delay last (calls delay ref readings).
Proof.
  revert last t ref.
  induction readings as [|[now after] readings IH]; intros last t ref;
    [done|].
  intros Hlast Href (Hnow & Hafter & Hrest). simpl. unfold call.
  destruct (delay <=? now - lastRun ref) eqn:Hrun.
  - apply Z.leb_le in Hrun. simpl. split; [lia|].
    apply (IH now after); simpl; [lia|lia|done].
  - apply (IH last after); [done|lia|done].
Qed.

(** X16.  When the readings of the clock never go back, two runs of the
    throttled callback are at least [delay] apart, and the first run is at
    least [delay] after the mount. *)
Theorem throttle_spacing (delay mounted : Z) (readings : list (Z * Z)) :
  monotone mounted readings →
  spaced delay mounted (calls delay (mount mounted) readings).
Proof. intros Hmono. by apply (calls_spaced delay mounted mounted). Qed.

Lemma throttle_spacing_witness :
  calls 50 (mount 0) [(10, 10); (50, 51); (100, 100); (101, 102)] = [50; 101]
  ∧ spaced 50 0
      (calls 50 (mount 0) [(10, 10); (50, 51); (100, 100); (101, 102)]).
Proof.
  split; [reflexivity|].
  apply (throttle_spacing 50 0 [(10, 10); (50, 51); (100, 100); (101, 102)]).
  simpl. lia.
Defined.

End throttle.

(** ** The data of a tab *)

Section tab_data.
Import App.

(** X17.  Whatever the tab, [getTabFilteredData] returns events of
    [filteredData] in their order, and it returns none only when
    [filteredData] has none: a tab without a matching event falls back on
    the first twenty events. *)
Theorem tab_data_fallback (toLowerCase : string → string)
    (activeTab : string) (filteredData : list Event) :
  let tabData := getTabFilteredData toLowerCase activeTab filteredData in
  sublist tabData filteredData
  ∧ (tabData = [] ↔ filteredData = [])
  ∧ (tabWords activeTab ≠ None →
     Forall (λ d, ∀ word, word ∈ default [] (tabWords activeTab) →
                  ¬ includes (toLowerCase (Event.activityType d)) word
                  ∨ ¬ truthy (Event.activityType d))
            filteredData →
     tabData = take 20 filteredData).
Proof.
  simpl. unfold getTabFilteredData.
  destruct (tabWords activeTab) as [words|]; [|by split_and!].
  set (tabData := filter _ filteredData).
  assert (take (20 `min` length filteredData) filteredData
          = take 20 filteredData) as ->.
  { destruct (decide (20 ≤ length filteredData)%nat).
    - by rewrite Nat.min_l.
    - rewrite Nat.min_r, firstn_all by lia. by rewrite take_ge by lia. }
  destruct (0 <? length tabData)%nat eqn:Hpos.
  - apply Nat.ltb_lt in Hpos. split_and!.
    + apply sublist_filter.
    + split; intros Hnil.
      * rewrite Hnil in Hpos. simpl in Hpos. lia.
      * subst tabData. rewrite Hnil in Hpos. simpl in Hpos. lia.
    + intros _ Hnone. exfalso.
      destruct tabData as [|d rest] eqn:Htab; [simpl in Hpos; lia|].
      assert (d ∈ tabData) as Hd by (rewrite Htab; left).
      apply list_elem_of_filter in Hd as [Hmatch Hd].
      rewrite Forall_forall in Hnone. specialize (Hnone d Hd).
      apply andb_prop_elim in Hmatch as [Htruthy Hex].
      apply Is_true_eq_true, existsb_exists in Hex as (word & Hword & Hinc).
      destruct (Hnone word) as [Hno|Hno].
      * by apply list_elem_of_In.
      * apply Hno. by rewrite Hinc.
      * done.
  - split_and!.
    + apply sublist_take.
    + destruct filteredData; [done|]. simpl. split; done.
    + done.
Qed.

Lemma tab_data_fallback_witness :
  let tabData := getTabFilteredData id "fcr" scenarioA in
  sublist tabData scenarioA
  ∧ (tabData = [] ↔ scenarioA = [])
  ∧ (tabWords "fcr" ≠ None →
     Forall (λ d, ∀ word, word ∈ default [] (tabWords "fcr") →
                  ¬ includes (id (Event.activityType d)) word
                  ∨ ¬ truthy (Event.activityType d))
            scenarioA →
     tabData = take 20 scenarioA).
Proof. apply (tab_data_fallback id "fcr" scenarioA). Defined.

End tab_data.

(** ** The grid of the heatmap *)

Section heat_grid.
Import HeatmapChart.

Lemma sum_list_with_ext_elem {A} (f g : A → nat) (l : list A) :
  (∀ x, x ∈ l → f x = g x) → sum_list_with f l = sum_list_with g l.
Proof.
  intros Hfg. induction l as [|x l IH]; [done|]. simpl.
  rewrite Hfg by left. rewrite IH; [done|]. intros y Hy. apply Hfg. by right.
Qed.

Lemma sum_indicator_iff {K W : Type} `{EqDecision K} (P : W → Prop)
    `{∀ w, Decision (P w)} (key : W → K) (ws : list W) (k : K) :
  (∀ w, w ∈ ws → P w ↔ k = key w) → NoDup (key <$> ws) → k ∈ key <$> ws →
  sum_list_with (λ w, if decide (P w) then 1 else 0)%nat ws = 1%nat.
Proof.
  intros HP Hnd Hk.
  etrans; [|apply (sum_indicator_NoDup (key <$> ws) k Hnd Hk)].
  clear Hnd Hk. induction ws as [|w ws IH]; [done|]. csimpl.
  rewrite IH by (intros w' Hw'; apply HP; by right). f_equal.
  destruct (HP w ltac:(left)). repeat case_decide; tauto.
Qed.

Section layout.
Context {P : Type} (cell : string → P → option Cell).
Context (key : P → string) (size : string → P → nat).
Context (Hcell : ∀ a p c, cell a p = Some c →
                          activityType c = a ∧ period c = key p
                          ∧ count c = size a p).

Lemma row_layout (a : string) (periods : list P) (row : list Cell) :
  mapM (cell a) periods = Some row →
  (λ c, (activityType c, period c)) <$> row = (λ p, (a, key p)) <$> periods
  ∧ sum_list_with count row = sum_list_with (size a) periods.
Proof using Hcell.
  rewrite mapM_Some. induction 1 as [|p c periods row Hc _ [IH1 IH2]];
    [done|].
  destruct (Hcell _ _ _ Hc) as (Ha & Hp & Hn). csimpl.
  by rewrite IH1, IH2, Ha, Hp, Hn.
Qed.

Lemma grid_layout (types : list string) (periods : list P)
    (cells : list Cell) :
  grid cell types periods = Some cells →
  (λ c, (activityType c, period c)) <$> cells
  = pairs types (key <$> periods)
  ∧ sum_list_with count cells
    = sum_list_with (λ a, sum_list_with (size a) periods) types.
Proof using Hcell.
  unfold grid. intros (rows & Hrows & ->)%fmap_Some.
  apply mapM_Some in Hrows.
  induction Hrows as [|a row types rows Hrow _ [IH1 IH2]]; [done|].
  destruct (row_layout _ _ _ Hrow) as [Hr1 Hr2]. csimpl.
  rewrite fmap_app, sum_list_with_app, Hr1, Hr2, IH1, IH2.
  split; [|done]. unfold pairs. csimpl. by rewrite <- list_fmap_compose.
Qed.

End layout.

Lemma pairs_length {A B} (l : list A) (k : list B) :
  length (pairs l k) = (length l * length k)%nat.
Proof.
  unfold pairs. induction l as [|x l IH]; [done|]. csimpl.
  by rewrite length_app, length_fmap, IH.
Qed.

Lemma pairs_elem {A B} (l : list A) (k : list B) (x : A) (y : B) :
  (x, y) ∈ pairs l k ↔ x ∈ l ∧ y ∈ k.
Proof.
  unfold pairs. rewrite list_elem_of_bind. split.
  - intros (x' & (y' & [= -> ->] & ?)%list_elem_of_fmap & ?). done.
  - intros [? ?]. exists x. split; [|done]. apply list_elem_of_fmap. eauto.
Qed.

Lemma pairs_NoDup {A B} (l : list A) (k : list B) :
  NoDup l → NoDup k → NoDup (pairs l k).
Proof.
  unfold pairs. intros Hl Hk. induction Hl as [|x l Hx Hl IH]; csimpl.
  - apply NoDup_nil_2.
  - apply NoDup_app. split_and!.
    + apply NoDup_fmap_2; [|done]. by intros ?? [= ->].
    + intros [x' y'] (y & [= -> ->] & _)%list_elem_of_fmap.
      intros [? _]%pairs_elem. done.
    + done.
Qed.

Lemma weeks_Instant (data : list Event) ws (w : Date) :
  weeks data = Some ws → w ∈ ws → ∃ t, w = Instant t.
Proof.
  unfold weeks. destruct (0 <? _)%nat.
  - intros (a & b & n & _ & _ & _ & _ & _ & ->)%eachWeekOfInterval_Some.
    intros (k & -> & _)%list_elem_of_fmap. eauto.
  - intros [= <-] Hw. by apply elem_of_nil in Hw.
Qed.

Lemma dates_truthy (data : list Event) :
  filter (λ date, truthy date) (dates data) = dates data.
Proof.
  apply filter_all, Forall_forall. intros d Hd. unfold dates in Hd.
  apply sort_elem, Array_from_Set_elem, list_elem_of_fmap in Hd
    as (e & -> & [? _]%list_elem_of_filter).
  done.
Qed.

(** X18.  The cells of [gridData] are the pairs of the domains of the two
    band scales: one row for each activity type of the domain of [yScale],
    in its order, and in each row one cell for each period of the domain
    of the scale of [getXScale], in its order; no cell is missing, also
    where there are no events, and no cell has a key outside the domains.
    At the daily and the monthly granularity no two cells have the same
    activity type and period. *)
Theorem grid_layout_complete (data : list Event) (g : Granularity) cells :
  gridData data g = Some cells →
  ∃ keys,
    xDomain data g = Some keys
    ∧ (λ c, (activityType c, period c)) <$> cells
      = pairs (yDomain data) keys
    ∧ length cells = (length (yDomain data) * length keys)%nat
    ∧ (g ≠ weekly →
       NoDup ((λ c, (activityType c, period c)) <$> cells)).
Proof.
  unfold gridData, xDomain, yDomain. intros Hgrid. rewrite dates_truthy.
  destruct (weeks data) as [ws|] eqn:Hws; [|done]. simpl in Hgrid.
  assert (∀ keys,
            (λ c, (activityType c, period c)) <$> cells
            = pairs (activityTypes data) keys →
            length cells = (length (activityTypes data) * length keys)%nat)
    as Hlen.
  { intros keys Heq. by rewrite <- pairs_length, <- Heq, length_fmap. }
  destruct g; simpl in Hgrid |- *.
  - exists (dates data).
    destruct (grid_layout (daily_cell data (dates data)) id
                (λ a d, length (dayEvents data a d))) with
      (types := activityTypes data) (periods := dates data) (cells := cells)
      as [Hpairs _]; [|done|].
    { intros a d c Hc.
      by pose proof (daily_cell_inv _ _ _ _ _ Hc) as (? & ? & _ & ? & _). }
    rewrite list_fmap_id in Hpairs. split_and!; [done|done|by apply Hlen|].
    intros _. rewrite Hpairs. apply pairs_NoDup.
    + apply Array_from_Set_NoDup.
    + apply sort_NoDup, Array_from_Set_NoDup.
  - set (key := λ w, default "" (format w yyyy_MM_dd)).
    exists (key <$> ws).
    destruct (grid_layout (weekly_cell data (activityTypes data) ws) key
                (λ a w, length (weekEvents data a w))) with
      (types := activityTypes data) (periods := ws) (cells := cells)
      as [Hpairs _]; [|done|].
    { intros a w c Hc.
      pose proof (weekly_cell_inv _ _ _ _ _ _ Hc)
        as (k & Hk & ? & ? & _ & ? & _).
      unfold key. by rewrite Hk. }
    split_and!; [|done|by apply Hlen|done].
    apply mapM_Some, Forall2_fmap_r, Forall_Forall2_diag, Forall_forall.
    intros w Hw. destruct (weeks_Instant _ _ _ Hws Hw) as [t ->].
    unfold key, compose. by destruct (format_valid t yyyy_MM_dd) as [k ->].
  - destruct (mapM _ (dates data)) as [ms|]; [|done]. simpl in Hgrid |- *.
    exists (Array_from_Set ms).
    destruct (grid_layout (monthly_cell data (Array_from_Set ms)) id
                (month_size data)) with
      (types := activityTypes data) (periods := Array_from_Set ms)
      (cells := cells) as [Hpairs _]; [|done|].
    { intros a m c Hc.
      pose proof (monthly_cell_inv _ _ _ _ _ Hc)
        as (evs & Hevs & ? & ? & _ & ? & _).
      unfold month_size. by rewrite Hevs. }
    rewrite list_fmap_id in Hpairs. split_and!; [done|done|by apply Hlen|].
    intros _. rewrite Hpairs.
    apply pairs_NoDup; apply Array_from_Set_NoDup.
Qed.

Lemma grid_layout_complete_witness :
  ∃ cells keys,
    gridData scenarioA daily = Some cells
    ∧ xDomain scenarioA daily = Some keys
    ∧ (λ c, (activityType c, period c)) <$> cells
      = pairs (yDomain scenarioA) keys
    ∧ length cells = (length (yDomain scenarioA) * length keys)%nat
    ∧ (daily ≠ weekly →
       NoDup ((λ c, (activityType c, period c)) <$> cells)).
Proof.
  eexists.
  assert (gridData scenarioA daily = Some _) as Hgrid
    by (vm_compute; reflexivity).
  destruct (grid_layout_complete scenarioA daily _ Hgrid) as (keys & H).
  exists keys. split; [exact Hgrid|exact H].
Defined.

Lemma grid_is_Some {P} (cell : string → P → option Cell)
    (types : list string) (periods : list P) :
  (∀ a p, a ∈ types → p ∈ periods → is_Some (cell a p)) →
  is_Some (grid cell types periods).
Proof.
  intros Hcell. unfold grid. apply fmap_is_Some, mapM_is_Some_2, Forall_forall.
  intros a Ha. apply mapM_is_Some_2, Forall_forall. intros p Hp.
  by apply Hcell.
Qed.

Lemma filterM_is_Some {A} (p : A → option bool) (l : list A) :
  Forall (λ x, is_Some (p x)) l → is_Some (filterM p l).
Proof.
  induction 1 as [|x l [b Hb] _ [rest IH]]; [by eexists|].
  simpl. rewrite Hb, IH. by eexists.
Qed.

Lemma parseable_truthy_date (data : list Event) (e : Event) :
  parseable data → e ∈ data → truthy (Event.date e).
Proof.
  intros Hparse He. destruct (parseable_elem _ _ Hparse He) as [t Ht].
  by destruct (Event.date e).
Qed.

Lemma heat_dates (data : list Event) :
  parseable data → dates data = BarGraph.dates data.
Proof.
  intros Hparse. unfold dates, BarGraph.dates. rewrite filter_all; [done|].
  apply Forall_forall. intros e He. by eapply parseable_truthy_date.
Qed.

Lemma heat_weeks (data : list Event) :
  parseable data → data ≠ [] →
  weeks data
  = eachWeekOfInterval
      (parseISO_at (BarGraph.dates data !! 0%nat))
      (parseISO_at
         (BarGraph.dates data !! (length (BarGraph.dates data) - 1)%nat)).
Proof.
  intros Hparse Hne. unfold weeks. rewrite heat_dates by done.
  rewrite filter_all.
  - destruct (BarGraph.dates data) eqn:Hdates; [|done]. exfalso.
    unfold BarGraph.dates in Hdates.
    apply (f_equal length) in Hdates. rewrite sort_length in Hdates.
    apply nil_length_inv, Array_from_Set_nil_inv, fmap_nil_inv in Hdates.
    done.
  - apply Forall_forall.
    intros d (e & -> & He)%dates_elem%list_elem_of_fmap.
    by eapply parseable_truthy_date.
Qed.

Lemma weeks_is_Some (data : list Event) :
  chronological data → is_Some (weeks data).
Proof.
  intros Hchron. pose proof (chronological_parseable _ Hchron) as Hparse.
  destruct data as [|e data]; [by eexists|].
  rewrite heat_weeks by done.
  destruct (weekly_buckets_is_Some (e :: data) Hchron) as [bs Hbs]; [done|].
  unfold BarGraph.weekly_buckets in Hbs.
  destruct (eachWeekOfInterval _ _); [by eexists|done].
Qed.

(** Every event falls into one week of the heatmap. *)
Lemma event_week (data : list Event) ws (e : Event) :
  chronological data → weeks data = Some ws → e ∈ data →
  sum_list_with (λ w, if decide (in_week w e) then 1 else 0)%nat ws = 1%nat.
Proof.
  intros Hchron Hws He.
  pose proof (chronological_parseable _ Hchron) as Hparse.
  rewrite heat_weeks in Hws; [|done|by intros ->; apply elem_of_nil in He].
  apply eachWeekOfInterval_Some in Hws
    as (a & b & n & Ha & Hb & Hab & Hn & Hlast & ->).
  destruct (parseable_elem _ _ Hparse He) as [t Ht].
  destruct (dates_span data a b e t Hchron Ha Hb He Ht) as [Hat Htb].
  pose proof (startOfWeek_ms_bounds a). pose proof (startOfWeek_ms_bounds b).
  etrans; [|apply (one_week (startOfWeek_ms a) t (Z.to_nat (n + 1)));
            rewrite Z2Nat.id by lia; lia].
  rewrite Z2Nat.id by lia.
  generalize (seqZ 0 (n + 1)). intros ks.
  induction ks as [|k ks IH]; [done|]. csimpl. rewrite IH. f_equal.
  assert (in_week (Instant (startOfWeek_ms a + k * msPerWeek)) e
          ↔ startOfWeek_ms a + k * msPerWeek ≤ t
            ≤ startOfWeek_ms a + k * msPerWeek + msPerWeek - 1) as Hiff
    by (by rewrite (in_week_Instant _ _ _ Ht), startOfWeek_ms_shift).
  repeat case_decide; tauto.
Qed.

Lemma activityTypes_elem (data : list Event) (a : string) :
  a ∈ activityTypes data
  ↔ ∃ e, e ∈ data ∧ truthy (Event.activityType e) ∧ Event.activityType e = a.
Proof.
  unfold activityTypes. rewrite Array_from_Set_elem, list_elem_of_fmap.
  split.
  - intros (e & -> & [? ?]%list_elem_of_filter). eauto.
  - intros (e & ? & ? & <-). exists e. split; [done|].
    by apply list_elem_of_filter.
Qed.

(** Bins by activity type and by period: when every event with an
    activity type is in one period, the sizes of the bins add up to the
    number of these events. *)
Lemma bins_conservation {W} (Q : W → Event → Prop)
    `{∀ w e, Decision (Q w e)} (size : string → W → nat) (ws : list W)
    (data : list Event) :
  (∀ a w, a ∈ activityTypes data → w ∈ ws →
          size a w
          = length (filter (λ e, Q w e ∧ Event.activityType e = a) data)) →
  (∀ e, e ∈ data → truthy (Event.activityType e) →
        sum_list_with (λ w, if decide (Q w e) then 1 else 0)%nat ws = 1%nat) →
  sum_list_with (λ a, sum_list_with (size a) ws) (activityTypes data)
  = length (filter (λ e, truthy (Event.activityType e)) data).
Proof.
  intros Hsize Hone.
  rewrite <- (@sum_bins_length _ _ (λ a e, Event.activityType e = a)
                (λ a e, decide (Event.activityType e = a))
                (activityTypes data)
                (filter (λ e, truthy (Event.activityType e)) data)).
  - apply sum_list_with_ext_elem. intros a Ha.
    rewrite list_filter_filter_l.
    2:{ intros e <-. by apply activityTypes_elem in Ha as (e' & _ & ? & <-). }
    rewrite <- (@sum_bins_length _ _ Q _ ws
                  (filter (λ e, Event.activityType e = a) data)).
    + apply sum_list_with_ext_elem. intros w Hw.
      by rewrite Hsize, list_filter_filter.
    + intros e [Ha' He]%list_elem_of_filter. apply Hone; [done|].
      rewrite Ha'. by apply activityTypes_elem in Ha as (e' & _ & ? & <-).
  - intros e [Ht He]%list_elem_of_filter.
    apply (sum_indicator_NoDup (activityTypes data) (Event.activityType e)).
    + apply Array_from_Set_NoDup.
    + apply activityTypes_elem. eauto.
Qed.

Lemma month_keys_is_Some (data : list Event) :
  parseable data →
  is_Some (mapM (λ date, format (parseISO date) yyyy_MM) (dates data)).
Proof.
  intros Hparse. apply mapM_is_Some_2, Forall_forall. intros d Hd.
  rewrite heat_dates in Hd by done.
  destruct (dates_parse data d Hparse Hd) as [t Ht]. unfold compose.
  rewrite Ht. apply format_valid.
Qed.

Lemma monthEvents_is_Some (data : list Event) (a m : string) :
  parseable data → is_Some (monthEvents data a m).
Proof.
  intros Hparse. apply filterM_is_Some, Forall_forall. intros e He.
  destruct (parseable_elem _ _ Hparse He) as [t ->].
  destruct (format_valid t yyyy_MM) as [k ->]. by eexists.
Qed.

Lemma monthEvents_filter (data : list Event) (a m : string) evs :
  monthEvents data a m = Some evs →
  evs = filter (λ e, month_of e = Some m ∧ Event.activityType e = a) data.
Proof.
  intros [-> _]%filterM_Some. apply list_filter_iff. intros e.
  unfold month_of. destruct (format (parseISO (Event.date e)) yyyy_MM); simpl.
  - split.
    + intros [= Hb]. apply andb_prop in Hb as [Hk Ha].
      apply bool_decide_eq_true in Hk, Ha. by subst.
    + intros [[= ->] ->]. by rewrite !bool_decide_eq_true_2.
  - split; [done|by intros [? _]].
Qed.

Lemma monthly_cell_is_Some (data : list Event) (ms : list string)
    (a m : string) :
  parseable data →
  mapM (λ date, format (parseISO date) yyyy_MM) (dates data) = Some ms →
  m ∈ ms → is_Some (monthly_cell data (Array_from_Set ms) a m).
Proof.
  intros Hparse Hms Hm. unfold monthly_cell.
  destruct (monthEvents_is_Some data a m Hparse) as [evs ->]. simpl.
  assert (is_Some (mapM (λ m', length <$> monthEvents data a m')
                     (Array_from_Set ms))) as [sizes Hsizes].
  { apply mapM_is_Some_2, Forall_forall. intros m' _. unfold compose.
    apply fmap_is_Some. by apply monthEvents_is_Some. }
  destruct (mapM_elem_r _ _ _ _ Hms Hm) as (d & Hd & Hkey).
  rewrite heat_dates in Hd by done.
  destruct (dates_parse data d Hparse Hd) as [t Ht]. rewrite Ht in Hkey.
  destruct (month_label_parses d t Ht) as (k & Hk & Hlabel).
  rewrite Hk in Hkey. injection Hkey as ->.
  destruct (parseISO (m +:+ "-01")) as [t'|]; [|done].
  destruct (format_valid t' MMM_yyyy) as [label Hlabel'].
  rewrite Hlabel'.
  destruct (0 <? length evs)%nat; [rewrite Hsizes|]; simpl; by eexists.
Qed.

Lemma gridData_counts (data : list Event) (g : Granularity) :
  chronological data →
  ∃ cells,
    gridData data g = Some cells
    ∧ sum_list_with count cells
      = length (filter (λ e, truthy (Event.activityType e)) data).
Proof.
  intros Hchron. pose proof (chronological_parseable _ Hchron) as Hparse.
  unfold gridData.
  destruct (weeks_is_Some data Hchron) as [ws Hws]. rewrite Hws. simpl.
  destruct g; simpl.
  - destruct (grid_is_Some (daily_cell data (dates data))
                (activityTypes data) (dates data)) as [cells Hcells].
    { intros a d _ Hd. rewrite heat_dates in Hd by done.
      destruct (dates_parse data d Hparse Hd) as [t Ht].
      unfold daily_cell. rewrite Ht.
      destruct (format_valid t MMM_dd) as [label ->]. by eexists. }
    exists cells. split; [done|].
    destruct (grid_layout (daily_cell data (dates data)) id
                (λ a d, length (dayEvents data a d))) with
      (types := activityTypes data) (periods := dates data) (cells := cells)
      as [_ ->]; [|done|].
    { intros a d c Hc.
      by pose proof (daily_cell_inv _ _ _ _ _ Hc) as (? & ? & _ & ? & _). }
    apply (@bins_conservation _ (λ d e, Event.date e = d)
             (λ d e, decide (Event.date e = d))).
    + intros a d _ _. unfold dayEvents. f_equal. apply list_filter_iff.
      intros e. by rewrite andb_True, !bool_decide_spec.
    + intros e He _. apply (sum_indicator_NoDup (dates data) (Event.date e)).
      * apply sort_NoDup, Array_from_Set_NoDup.
      * rewrite heat_dates by done. apply dates_elem, list_elem_of_fmap.
        eauto.
  - destruct (grid_is_Some (weekly_cell data (activityTypes data) ws)
                (activityTypes data) ws) as [cells Hcells].
    { intros a w _ Hw. destruct (weeks_Instant _ _ _ Hws Hw) as [t ->].
      unfold weekly_cell.
      destruct (format_valid t yyyy_MM_dd) as [k ->].
      destruct (format_valid t MMM_dd) as [label ->]. by eexists. }
    exists cells. split; [done|].
    destruct (grid_layout (weekly_cell data (activityTypes data) ws)
                (λ w, default "" (format w yyyy_MM_dd))
                (λ a w, length (weekEvents data a w))) with
      (types := activityTypes data) (periods := ws) (cells := cells)
      as [_ ->]; [|done|].
    { intros a w c Hc.
      pose proof (weekly_cell_inv _ _ _ _ _ _ Hc)
        as (k & Hk & ? & ? & _ & ? & _).
      by rewrite Hk. }
    apply (@bins_conservation _ (λ w e, in_week w e)
             (λ w e, decide (in_week w e))).
    + intros a w _ _. unfold weekEvents. f_equal. apply list_filter_iff.
      intros e. rewrite andb_True, bool_decide_spec. tauto.
    + intros e He _. by apply (event_week data).
  - destruct (month_keys_is_Some data Hparse) as [ms Hms]. rewrite Hms.
    simpl.
    destruct (grid_is_Some (monthly_cell data (Array_from_Set ms))
                (activityTypes data) (Array_from_Set ms)) as [cells Hcells].
    { intros a m _ Hm. apply (proj1 (Array_from_Set_elem _ _)) in Hm.
      by apply monthly_cell_is_Some. }
    exists cells. split; [done|].
    destruct (grid_layout (monthly_cell data (Array_from_Set ms)) id
                (month_size data)) with
      (types := activityTypes data) (periods := Array_from_Set ms)
      (cells := cells) as [_ ->]; [|done|].
    { intros a m c Hc.
      pose proof (monthly_cell_inv _ _ _ _ _ Hc)
        as (evs & Hevs & ? & ? & _ & ? & _).
      unfold month_size. by rewrite Hevs. }
    apply (@bins_conservation _ (λ m e, month_of e = Some m)
             (λ m e, decide (month_of e = Some m))).
    + intros a m _ _. unfold month_size.
      destruct (monthEvents_is_Some data a m Hparse) as [evs Hevs].
      rewrite Hevs. simpl. by rewrite (monthEvents_filter _ _ _ _ Hevs).
    + intros e He _. destruct (parseable_elem _ _ Hparse He) as [t Ht].
      destruct (month_of_parse e t Ht) as (k & Hk & _).
      apply (sum_indicator_iff _ id _ k).
      * intros m _. rewrite Hk. unfold id. split; congruence.
      * rewrite list_fmap_id. apply Array_from_Set_NoDup.
      * rewrite list_fmap_id. apply Array_from_Set_elem.
        assert (Event.date e ∈ dates data) as Hd.
        { rewrite heat_dates by done. apply dates_elem, list_elem_of_fmap.
          eauto. }
        destruct (mapM_elem_l _ _ _ _ Hms Hd) as (k' & Hk' & Hfmt).
        unfold month_of in Hk. rewrite Hk in Hfmt. by injection Hfmt as <-.
Qed.

(** X19.  When the order of the date strings is the order of the dates in
    time (so that every date parses), [gridData] returns at every
    granularity, and the counts of its cells add up to the number of
    events that have an activity type: each of them is counted in one
    cell. *)
Theorem grid_conservation (data : list Event) (g : Granularity) :
  chronological data →
  ∃ cells,
    gridData data g = Some cells
    ∧ sum_list_with count cells
      = length (filter (λ e, truthy (Event.activityType e)) data).
Proof. apply gridData_counts. Qed.

Lemma grid_conservation_witness :
  ∃ cells,
    gridData two_months weekly = Some cells
    ∧ sum_list_with count cells
      = length (filter (λ e, truthy (Event.activityType e)) two_months).
Proof.
  apply (grid_conservation two_months weekly). unfold chronological.
  apply (bool_decide_unpack _). vm_compute. exact I.
Defined.

Lemma cell_status (data : list Event) (g : Granularity) cells c :
  gridData data g = Some cells → c ∈ cells →
  (is_Some (status c) ↔ (0 < count c)%nat)
  ∧ (count c = 0%nat → events c = [] ∧ intensity c = of_int 0).
Proof.
  intros Hgrid Hc.
  destruct (gridData_cell data g cells c Hgrid Hc)
    as [(_ & _ & _ & Hcount & Hst & Hint) _].
  rewrite Hst, Hint, Hcount. destruct (events c) as [|e evs]; simpl.
  - split; [|done]. split; [by intros [? ?]|lia].
  - split; [|done]. split; [lia|by eexists].
Qed.

(** X20.  The heatmap draws the cells that have events and no other cell:
    a cell without a status has no events and intensity 0, and the drawn
    cells account for every counted event. *)
Theorem drawn_cells (data : list Event) (g : Granularity) cells :
  gridData data g = Some cells →
  (∀ c, c ∈ drawnCells cells ↔ c ∈ cells ∧ (0 < count c)%nat)
  ∧ (∀ c, c ∈ cells → c ∉ drawnCells cells →
          status c = None ∧ events c = [] ∧ intensity c = of_int 0)
  ∧ sum_list_with count (drawnCells cells) = sum_list_with count cells.
Proof.
  intros Hgrid. unfold drawnCells. split_and!.
  - intros c. rewrite list_elem_of_filter. split.
    + intros [Hst Hc]. split; [done|].
      by apply (cell_status data g cells c Hgrid Hc).
    + intros [Hc Hpos]. split; [|done].
      by apply (cell_status data g cells c Hgrid Hc).
  - intros c Hc Hnot. rewrite list_elem_of_filter in Hnot.
    destruct (cell_status data g cells c Hgrid Hc) as [Hst Hzero].
    assert (¬ is_Some (status c)) as Hnone by tauto.
    split; [by apply eq_None_not_Some|]. apply Hzero.
    destruct (count c); [done|]. exfalso. apply Hnone, Hst. lia.
  - assert (∀ c, c ∈ cells → ¬ is_Some (status c) → count c = 0%nat)
      as Hzero.
    { intros c Hc Hnone.
      destruct (cell_status data g cells c Hgrid Hc) as [Hst _].
      destruct (count c); [done|]. exfalso. apply Hnone, Hst. lia. }
    clear Hgrid. induction cells as [|c cells IH]; [done|].
    rewrite filter_cons. destruct (decide (is_Some (status c))) as [?|Hnone].
    + simpl. rewrite IH; [done|]. intros c' Hc'. apply Hzero. by right.
    + simpl. rewrite (Hzero c) by (done || left).
      rewrite IH; [done|]. intros c' Hc'. apply Hzero. by right.
Qed.

Lemma drawn_cells_witness :
  ∃ cells,
    gridData scenarioA daily = Some cells
    ∧ length cells = 4%nat ∧ length (drawnCells cells) = 3%nat
    ∧ (∀ c, c ∈ drawnCells cells ↔ c ∈ cells ∧ (0 < count c)%nat)
    ∧ (∀ c, c ∈ cells → c ∉ drawnCells cells →
            status c = None ∧ events c = [] ∧ intensity c = of_int 0)
    ∧ sum_list_with count (drawnCells cells) = sum_list_with count cells.
Proof.
  eexists. split; [vm_compute; reflexivity|].
  split; [reflexivity|]. split; [reflexivity|].
  apply (drawn_cells scenarioA daily). vm_compute. reflexivity.
Defined.




(** X22.  When the order of the date strings is the order of the dates in
    time (so that every date parses), the bar chart and the heatmap of
    the same events agree, whatever their granularities: the totals of the
    buckets add up to the counts of the cells plus the number of events
    without an activity type. *)
Theorem charts_agree (data : list Event) (g g' : Granularity) bs cells :
  chronological data →
  BarGraph.processedData data g = Some bs →
  gridData data g' = Some cells →
  sum_totals bs
  = (sum_list_with count cells
     + length (filter (λ e, ¬ truthy (Event.activityType e)) data))%nat.
Proof.
  intros Hchron Hbs Hcells.
  destruct (gridData_counts data g' Hchron) as (cells' & Hcells' & Hsum).
  rewrite Hcells in Hcells'. injection Hcells' as <-. rewrite Hsum.
  assert (sum_totals bs = length data) as ->.
  { destruct g; simpl in Hbs.
    - by apply sum_totals_daily.
    - by apply sum_totals_weekly.
    - by apply sum_totals_monthly. }
  clear. induction data as [|e data IH]; [done|].
  rewrite !filter_cons. simpl. rewrite IH at 1.
  destruct (decide (truthy (Event.activityType e)));
    [rewrite decide_False by tauto|rewrite decide_True by done]; simpl; lia.
Qed.

Lemma charts_agree_witness :
  ∃ bs cells,
    BarGraph.processedData two_months weekly = Some bs
    ∧ gridData two_months daily = Some cells
    ∧ sum_totals bs
      = (sum_list_with count cells
         + length (filter (λ e, ¬ truthy (Event.activityType e))
                     two_months))%nat.
Proof.
  eexists _, _. split; [vm_compute; reflexivity|].
  split; [vm_compute; reflexivity|].
  apply (charts_agree two_months weekly daily).
  - unfold chronological. apply (bool_decide_unpack _). vm_compute. exact I.
  - vm_compute. reflexivity.
  - vm_compute. reflexivity.
Defined.

End heat_grid.

(** ** The search of the filter panel *)

Section search.
Import App.

(** X23.  The activity types that the filter panel offers are activity
    types of the events, each once and in the order of [activityTypes]; a
    search term can only remove some, and the empty search term, which
    [clearAllFilters] sets, removes none. *)
Theorem search_activity_types (toLowerCase : string → string)
    (dummyData : list Event) (st : State) :
  let found := filteredActivityTypes toLowerCase dummyData (searchTerm st) in
  sublist found (activityTypes dummyData)
  ∧ NoDup found
  ∧ (∀ a, a ∈ found →
          truthy a ∧ ∃ e, e ∈ dummyData ∧ Event.activityType e = a)
  ∧ (toLowerCase "" = "" →
     filteredActivityTypes toLowerCase dummyData
       (searchTerm (clearAllFilters st))
     = activityTypes dummyData).
Proof.
  simpl. unfold filteredActivityTypes. split_and!.
  - apply sublist_filter.
  - apply NoDup_filter, Array_from_Set_NoDup.
  - intros a [_ Ha]%list_elem_of_filter. unfold activityTypes in Ha.
    apply Array_from_Set_elem, list_elem_of_filter in Ha as [Ht Ha].
    apply list_elem_of_fmap in Ha as (e & -> & He). eauto.
  - intros ->. apply filter_all, Forall_forall. intros a _.
    by destruct (toLowerCase a).
Qed.

Lemma search_activity_types_witness :
  let found := filteredActivityTypes id scenarioA "pay" in
  found = ["payment"]
  ∧ sublist found (activityTypes scenarioA)
  ∧ NoDup found
  ∧ (∀ a, a ∈ found →
          truthy a ∧ ∃ e, e ∈ scenarioA ∧ Event.activityType e = a)
  ∧ (id "" = "" →
     filteredActivityTypes id scenarioA "" = activityTypes scenarioA).
Proof.
  split; [reflexivity|].
  apply (search_activity_types id scenarioA
           {| selectedActivityTypes := []; selectedStatuses := [];
              selectedStatCard := None; searchTerm := "pay" |}).
Defined.

End search.
